(** * The cothority runtime core: local transport and SDA host

    A shallow embedding of [network/local.go] (the in-process transport)
    and of [lib/sda/host.go] (the SDA host: dispatcher, pending queues,
    sending), with the properties of the runtime specification stated
    and proved over it.

    Conventions.
    - A Go map is a [gmap]; a slice is a [list]; [uint64] is a [Z] with
      its wrap-around written out; a [uuid.UUID] is an [N] whose zero is
      [uuid.Nil].
    - A Go pointer that the code tests against [nil] is an [option].
    - Objects shared through pointers (the [connQueue] of a local
      connection) live in an explicit store.
    - Effects on the outside world (frames handed to a connection,
      connections closed, goroutines spawned) are recorded in traces. *)

From stdpp Require Import gmap strings list fin_maps pretty.
From Stdlib Require Import ZArith.

Open Scope Z_scope.

(** ** Errors *)

(** [network.ErrClosed], [network.ErrEOF] and the errors built with
    [errors.New] / [fmt.Errorf], which carry their text. *)
Inductive error : Type :=
| ErrClosed
| ErrEOF
| ErrMsg (text : string).

#[global] Instance error_eq_dec : EqDecision error.
Proof. solve_decision. Defined.

(** * network/local.go *)
Module Local.

(** [type Address string]: an address is a string; its connection type
    is computed by [Address.ConnType], which is not part of local.go
    and is a parameter of the development. *)
Definition Address := string.

Inductive ConnType : Type := PlainTCP | TLS | PURB | LocalType | InvalidConnType.

#[global] Instance ConnType_eq_dec : EqDecision ConnType.
Proof. solve_decision. Defined.

(** [uint64] arithmetic: [lm.baseUID++] wraps around. *)
Definition uint64_modulus : Z := 2 ^ 64.
Definition uint64_incr (x : Z) : Z := (x + 1) mod uint64_modulus.

(** [type endpoint struct { addr Address; uid uint64 }] *)
Definition endpoint : Type := Address * Z.

Section Transport.

(** The message bodies, the type tag of a body ([TypeFromData]), the
    callbacks registered by listeners and [Address.ConnType] come from
    the rest of the network package. *)
Context {Body : Type} {Callback : Type}.
Variable TypeFromData : Body -> N.
Variable AddrConnType : Address -> ConnType.
Variable EmptyBody : Body.

(** [type Packet struct { MsgType; Msg }], restricted to the two fields
    local.go fills in. *)
Record Packet : Type := mkPacket {
  MsgType : N;
  Msg : Body
}.

Definition EmptyApplicationPacket : Packet :=
  {| MsgType := 0%N; Msg := EmptyBody |}.

(** *** connQueue *)

(** [type connQueue struct { *sync.Cond; queue []Packet; isClosed bool }] *)
Record connQueue : Type := mkConnQueue {
  queue : list Packet;
  isClosed : bool
}.

Definition newConnQueue : connQueue :=
  {| queue := []; isClosed := false |}.

(** [func (c *connQueue) push(p Packet)] *)
Definition push (c : connQueue) (p : Packet) : connQueue :=
  if isClosed c then c
  else {| queue := queue c ++ [p]; isClosed := isClosed c |}.

(** The outcome of one [pop]: a packet, an error, or the caller is
    parked in [c.Wait()] until a [push] or a [close] wakes it. *)
Inductive pop_result : Type :=
| PopPacket (p : Packet)
| PopError (p : Packet) (e : error)
| PopWait.

(** [func (c *connQueue) pop() (Packet, error)]: the [for] loop waits
    while the queue is empty and open; a closed queue returns
    [ErrClosed] whether or not it still holds packets. *)
Definition pop (c : connQueue) : connQueue * pop_result :=
  match queue c with
  | [] =>
      if isClosed c then (c, PopError EmptyApplicationPacket ErrClosed)
      else (c, PopWait)
  | nm :: rest =>
      if isClosed c then (c, PopError EmptyApplicationPacket ErrClosed)
      else ({| queue := rest; isClosed := isClosed c |}, PopPacket nm)
  end.

(** [func (c *connQueue) close()] *)
Definition close (c : connQueue) : connQueue :=
  {| queue := queue c; isClosed := true |}.

(** A client of a queue calls these three operations in some order. *)
Inductive queue_op : Type :=
| OpPush (p : Packet)
| OpPop
| OpClose.

(** Runs the operations in order and collects what each [pop]
    returned. *)
Fixpoint run_ops (c : connQueue) (ops : list queue_op)
  : connQueue * list pop_result :=
  match ops with
  | [] => (c, [])
  | OpPush p :: ops' => run_ops (push c p) ops'
  | OpPop :: ops' =>
      let '(c', r) := pop c in
      let '(c'', rs) := run_ops c' ops' in
      (c'', r :: rs)
  | OpClose :: ops' => run_ops (close c) ops'
  end.

(** What a [pop] on a closed queue returns. *)
Definition closed_error : pop_result :=
  PopError EmptyApplicationPacket ErrClosed.

(** How many times a client popped. *)
Fixpoint pops (ops : list queue_op) : nat :=
  match ops with
  | [] => 0
  | OpPop :: ops' => S (pops ops')
  | _ :: ops' => pops ops'
  end.

(** A packet is delivered when some [pop] returns it. *)
Definition delivered (p : Packet) (rs : list pop_result) : Prop :=
  PopPacket p ∈ rs.

(** *** LocalManager *)

(** The [connQueue] of a connection is shared between the connection
    and the manager's [queues] map: queues live in a store and are
    named by references. *)
Definition qref := nat.

(** [type LocalManager struct { queues; listening; baseUID }] *)
Record LocalManager : Type := mkLocalManager {
  queues : gmap endpoint qref;
  listening : gmap Address Callback;
  baseUID : Z
}.

(** [type LocalConn struct { local; remote; *connQueue; manager }] *)
Record LocalConn : Type := mkLocalConn {
  local : endpoint;
  remote : endpoint;
  lcQueue : qref
}.

(** The manager, the store of queues it shares with the connections,
    and the goroutines started by [go fn(incoming)]. *)
Record World : Type := mkWorld {
  manager : LocalManager;
  store : list connQueue;
  spawned : list (Callback * LocalConn)
}.

(** [NewLocalManager] *)
Definition NewLocalManager : LocalManager :=
  {| queues := ∅; listening := ∅; baseUID := 0 |}.

Definition NewWorld : World :=
  {| manager := NewLocalManager; store := []; spawned := [] |}.

Definition set_manager (w : World) (m : LocalManager) : World :=
  {| manager := m; store := store w; spawned := spawned w |}.

(** Applies [f] to the queue behind a reference. *)
Definition update_queue (w : World) (q : qref) (f : connQueue -> connQueue) : World :=
  {| manager := manager w;
     store := alter f q (store w);
     spawned := spawned w |}.

(** [isListening] *)
Definition isListening (lm : LocalManager) (a : Address) : bool :=
  bool_decide (is_Some (listening lm !! a)).

(** [setListening] *)
Definition setListening (lm : LocalManager) (a : Address) (fn : Callback) : LocalManager :=
  {| queues := queues lm; listening := <[a := fn]> (listening lm); baseUID := baseUID lm |}.

(** [unsetListening] *)
Definition unsetListening (lm : LocalManager) (a : Address) : LocalManager :=
  {| queues := queues lm; listening := delete a (listening lm); baseUID := baseUID lm |}.

(** [func (lm *LocalManager) connect(local, remote Address)], returning the outgoing connection or an error *)
Definition connect (w : World) (loc rem : Address) : World * (LocalConn + error) :=
  let lm := manager w in
  match listening lm !! rem with
  | None =>
      (w, inr (ErrMsg (loc +:+ " can't connect to " +:+ rem +:+ ": it's not listening")))
  | Some fn =>
      let outEndpoint : endpoint := (loc, baseUID lm) in
      let uid1 := uint64_incr (baseUID lm) in
      let incEndpoint : endpoint := (rem, uid1) in
      let uid2 := uint64_incr uid1 in
      let qout := length (store w) in
      let qinc := S qout in
      let outgoing := {| local := outEndpoint; remote := incEndpoint; lcQueue := qout |} in
      let incoming := {| local := incEndpoint; remote := outEndpoint; lcQueue := qinc |} in
      let lm' := {| queues := <[incEndpoint := qinc]> (<[outEndpoint := qout]> (queues lm));
                    listening := listening lm;
                    baseUID := uid2 |} in
      ({| manager := lm';
          store := store w ++ [newConnQueue; newConnQueue];
          spawned := spawned w ++ [(fn, incoming)] |},
       inl outgoing)
  end.

(** [func (lm *LocalManager) send(e endpoint, nm Packet) error] *)
Definition send (w : World) (e : endpoint) (nm : Packet) : World * option error :=
  match queues (manager w) !! e with
  | None => (w, Some ErrClosed)
  | Some q => (update_queue w q (fun c => push c nm), None)
  end.

(** [func (lm *LocalManager) close(conn *LocalConn)] *)
Definition manager_close (w : World) (conn : LocalConn) : World :=
  let lm := manager w in
  let qs := delete (local conn) (queues lm) in
  match qs !! remote conn with
  | None =>
      set_manager w {| queues := qs; listening := listening lm; baseUID := baseUID lm |}
  | Some r =>
      let w' := set_manager w {| queues := delete (remote conn) qs;
                                 listening := listening lm;
                                 baseUID := baseUID lm |} in
      update_queue w' r close
  end.

(** [func (lc *LocalConn) Send(ctx, msg Body) error] *)
Definition LocalConn_Send (w : World) (lc : LocalConn) (msg : Body) : World * option error :=
  let nm := {| MsgType := TypeFromData msg; Msg := msg |} in
  send w (remote lc) nm.

(** [func (lc *LocalConn) Receive(ctx) (Packet, error)] *)
Definition LocalConn_Receive (w : World) (lc : LocalConn) : World * pop_result :=
  match store w !! lcQueue lc with
  | None => (w, PopWait)
  | Some c =>
      let '(c', r) := pop c in
      (update_queue w (lcQueue lc) (fun _ => c'), r)
  end.

(** [func (lc *LocalConn) Close() error] *)
Definition LocalConn_Close (w : World) (lc : LocalConn) : World * option error :=
  let w1 := update_queue w (lcQueue lc) close in
  (manager_close w1 lc, None).

(** *** LocalListener *)

(** [type LocalListener struct { addr; listening; quit; manager }] *)
Record LocalListener : Type := mkLocalListener {
  addr : Address;
  ll_listening : bool
}.

(** [func (ll *LocalListener) bind(addr Address) error] *)
Definition bind (lm : LocalManager) (ll : LocalListener) (a : Address)
  : LocalListener * option error :=
  if negb (bool_decide (AddrConnType a = LocalType)) then
    (ll, Some (ErrMsg "Wrong address type for local listener"))
  else if isListening lm a then
    (ll, Some (ErrMsg (a +:+ " is already listening: can't listen again")))
  else
    ({| addr := a; ll_listening := ll_listening ll |}, None).

(** [NewLocalListenerWithManager] *)
Definition NewLocalListenerWithManager (lm : LocalManager) (a : Address)
  : LocalListener * option error :=
  bind lm {| addr := ""; ll_listening := false |} a.

(** [func (ll *LocalListener) Listen(fn func(Conn)) error], up to the
    point where it parks on [<-ll.quit]. *)
Definition Listen (lm : LocalManager) (ll : LocalListener) (fn : Callback)
  : LocalManager * LocalListener :=
  (setListening lm (addr ll) fn, {| addr := addr ll; ll_listening := true |}).

(** [func (ll *LocalListener) Stop() error] *)
Definition Stop (lm : LocalManager) (ll : LocalListener)
  : LocalManager * LocalListener :=
  (unsetListening lm (addr ll), {| addr := addr ll; ll_listening := false |}).

End Transport.

Arguments Packet Body : clear implicits.
Arguments connQueue Body : clear implicits.
Arguments pop_result Body : clear implicits.
Arguments queue_op Body : clear implicits.
Arguments LocalManager Callback : clear implicits.
Arguments World Body Callback : clear implicits.

End Local.

(** * lib/sda/host.go *)
Module SDA.

(** [uuid.UUID] and [uuid.Nil]. *)
Definition UUID := N.
Definition uuid_Nil : UUID := 0%N.

(** A raw payload as it crosses the wire. *)
Definition bytes := list Byte.byte.

(** ** The data model around the host

    host.go uses the following types of the sda and network packages
    through their fields only. *)

(** Modelled from the spec: [network.Entity], "the long-lived identity
    of a node: a public key plus one or more network addresses", with
    "a stable identifier derived from the public key". *)
Record Entity : Type := mkEntity {
  Entity_Id : UUID;
  Addresses : list string
}.

(** Modelled from the spec: [EntityList], "an ordered sequence of
    Entities with a stable identifier". *)
Record EntityList : Type := mkEntityList {
  EntityList_Id : UUID;
  List : list Entity
}.

(** Modelled from the spec: [TreeNode], "a stable identifier, a
    reference to one Entity, [...] and an ordered list of children". *)
#[warnings="-register-all"]
Inductive TreeNode : Type :=
  mkTreeNode (id : UUID) (e : Entity) (children : list TreeNode).

(** Induction on tree nodes, with the property known of the
    children. *)
Fixpoint TreeNode_children_ind (P : TreeNode -> Prop)
    (step : forall id e cs, Forall P cs -> P (mkTreeNode id e cs))
    (tn : TreeNode) : P tn :=
  match tn with
  | mkTreeNode id e cs =>
      step id e cs
        ((fix go (l : list TreeNode) : Forall P l :=
            match l with
            | [] => List.Forall_nil P
            | c :: l' => @List.Forall_cons _ P c l' (TreeNode_children_ind P step c) (go l')
            end) cs)
  end.

Definition TreeNode_Id (tn : TreeNode) : UUID :=
  let 'mkTreeNode id _ _ := tn in id.
Definition TreeNode_Entity (tn : TreeNode) : Entity :=
  let 'mkTreeNode _ e _ := tn in e.
Definition Children (tn : TreeNode) : list TreeNode :=
  let 'mkTreeNode _ _ cs := tn in cs.

(** Modelled from the spec: [Tree], "a rooted tree of TreeNodes" that
    "references the Roster from which its Entities are drawn and has
    its own stable identifier". *)
Record Tree : Type := mkTree {
  Tree_Id : UUID;
  Tree_EntityList : EntityList;
  Root : TreeNode
}.

(** Modelled from the spec: [Tree.GetNode], the tree node of a tree
    with a given identifier, [nil] when the tree has none. *)
Fixpoint GetNode_from (tn : TreeNode) (id : UUID) : option TreeNode :=
  let 'mkTreeNode i _ cs := tn in
  if bool_decide (i = id) then Some tn
  else
    (fix search (l : list TreeNode) : option TreeNode :=
       match l with
       | [] => None
       | c :: l' =>
           match GetNode_from c id with
           | Some r => Some r
           | None => search l'
           end
       end) cs.

Definition GetNode (t : Tree) (id : UUID) : option TreeNode :=
  GetNode_from (Root t) id.

(** Modelled from the spec: [TreeNode.IsInTree], "a TreeNode belongs to
    exactly one Tree": the tree has a node under the identifier of
    this node (identifiers are content-derived). A [nil] node is in no
    tree. *)
Definition IsInTree (tn : option TreeNode) (t : Tree) : bool :=
  match tn with
  | None => false
  | Some n =>
      match GetNode t (TreeNode_Id n) with
      | Some _ => true
      | None => false
      end
  end.

(** Modelled from the spec: [TreeMarshal], "a flattened description of
    the tree: roster ID, root-node ID, and for each tree node its ID,
    entity-index within the roster, and child-ID list". host.go reads
    [NodeId] and [EntityId]. *)
Record TreeMarshal : Type := mkTreeMarshal {
  NodeId : UUID;
  EntityId : UUID;
  Nodes : list (UUID * nat * list UUID)
}.

(** Modelled from the spec: [Token], "the session address of one
    running instance: the tuple (ProtocolID, RosterID, TreeID, RoundID,
    TreeNodeID)", with the field names host.go uses. *)
Record Token : Type := mkToken {
  ProtocolID : UUID;
  EntityListID : UUID;
  TreeID : UUID;
  RoundID : UUID;
  TreeNodeID : UUID
}.

#[global] Instance Token_eq_dec : EqDecision Token.
Proof. solve_decision. Defined.

(** Modelled from the spec: [Token.OtherToken], the peer-view
    operation [other(treeNode)]: "it produces the token the recipient
    must use to address replies, by substituting the recipient's
    TreeNodeID while keeping ProtocolID, RosterID, TreeID and
    RoundID". *)
Definition OtherToken (t : Token) (tn : TreeNode) : Token :=
  {| ProtocolID := ProtocolID t;
     EntityListID := EntityListID t;
     TreeID := TreeID t;
     RoundID := RoundID t;
     TreeNodeID := TreeNode_Id tn |}.

(** Two tokens name instances of the same run: they agree on
    everything but the tree node. *)
Definition same_round (t1 t2 : Token) : Prop :=
  ProtocolID t1 = ProtocolID t2 /\
  EntityListID t1 = EntityListID t2 /\
  TreeID t1 = TreeID t2 /\
  RoundID t1 = RoundID t2.

(** [t.treeNode]: a tree node is the one a token addresses when it
    carries the token's [TreeNodeID]. *)
Definition treeNode_of (t : Token) (tn : TreeNode) : Prop :=
  TreeNode_Id tn = TreeNodeID t.

(** [network.SecureConn], as far as the host looks at it: the entity
    at the other end and the remote address. *)
Record SecureConn : Type := mkSecureConn {
  conn_Entity : Entity;
  conn_Remote : string
}.

(** A host function runs on the host state and either returns, parks
    for ever on a mutex that nobody releases, panics, or is parked in a
    receive on a channel that holds nothing. *)
Inductive outcome (A : Type) : Type :=
| Returned (a : A)
| Deadlock
| Panicked
| Waiting.
Arguments Returned {A} a.
Arguments Deadlock {A}.
Arguments Panicked {A}.
Arguments Waiting {A}.

Section Host.

(** The payloads of the protocols ([network.ProtocolMessage] values
    other than the host's own control messages) and the protocol
    instances are those of the protocols built on the runtime. *)
Context {Payload : Type} {ProtocolInstance : Type}.

(** Modelled from the spec: [SDAData], "recipient token [To], sender
    token [From], payload type tag, raw payload bytes, decoded payload
    (filled after receipt), and the originator's Entity", with the field
    names host.go uses. [Msg] is [nil] on the wire. *)
Record SDAData : Type := mkSDAData {
  To : option Token;
  From : option Token;
  MsgType : UUID;
  MsgSlice : bytes;
  Msg : option Payload;
  sda_Entity : option Entity
}.

(** The messages the host sends with [SendRaw] and switches on in
    [ProcessMessages]; the constructor stands for the type tag. *)
Inductive Frame : Type :=
| SDADataMessage (sda : SDAData)
| RequestTreeMessage (treeID : UUID)
| SendTreeMessage (tm : TreeMarshal)
| RequestEntityListMessage (entityListID : UUID)
| SendEntityListMessage (il : EntityList)
| OtherMessage (msgType : UUID).

(** [network.NetworkMessage], as far as host.go reads it: a received
    frame with the entity and address it came from. *)
Record NetworkMessage : Type := mkNetworkMessage {
  nm_Entity : Entity;
  nm_From : string;
  nm_Msg : Frame
}.

(** What the host does to the outside world. *)
Inductive NetEvent : Type :=
| NetSend (c : SecureConn) (f : Frame)
| NetConnClose (c : SecureConn)
| NetHostClose
| NetHandleConn (c : SecureConn).

(** Modelled from the spec: the [protocolMapper], the instance registry
    "token <-> instance", keyed by the identifier of the token. *)
Record protocolMapper : Type := mkMapper {
  instances : gmap UUID ProtocolInstance
}.

(** [type Host struct], with
    - [net]: the effects on connections, in order;
    - [dispatched]: every envelope handed to an instance by the mapper,
      with the identifier of the instance, in order;
    - [instantiated]: every call of a protocol constructor, with the
      token it was called for, in order;
    - [pendingTreeLocked]: whether [pendingTreeLock] is held.
    The other mutexes are released on every path of the functions
    modelled here and are left out, as are the fields these functions
    do not touch ([private], [suite], [treeNodes], [workingAddress]).
    [networkChan] is the list of frames [ProcessMessages] is run on. *)
Record Host : Type := mkHost {
  host_Entity : Entity;
  mapper : protocolMapper;
  connections : gmap UUID SecureConn;
  entities : gmap UUID Entity;
  entityLists : gmap UUID EntityList;
  trees : gmap UUID Tree;
  pendingTreeMarshal : gmap UUID (list TreeMarshal);
  pendingSDAs : list SDAData;
  closed : bool;
  pendingTreeLocked : bool;
  net : list NetEvent;
  dispatched : list (UUID * SDAData);
  instantiated : list Token
}.

(** [NewHost] *)
Definition NewHost (e : Entity) : Host :=
  {| host_Entity := e;
     mapper := {| instances := ∅ |};
     connections := ∅;
     entities := ∅;
     entityLists := ∅;
     trees := ∅;
     pendingTreeMarshal := ∅;
     pendingSDAs := [];
     closed := false;
     pendingTreeLocked := false;
     net := [];
     dispatched := [];
     instantiated := [] |}.

(** *** Field updates *)

Definition set_mapper (h : Host) (m : protocolMapper) : Host :=
  mkHost (host_Entity h) m (connections h) (entities h) (entityLists h) (trees h)
         (pendingTreeMarshal h) (pendingSDAs h) (closed h) (pendingTreeLocked h)
         (net h) (dispatched h) (instantiated h).
Definition set_connections (h : Host) (cs : gmap UUID SecureConn) : Host :=
  mkHost (host_Entity h) (mapper h) cs (entities h) (entityLists h) (trees h)
         (pendingTreeMarshal h) (pendingSDAs h) (closed h) (pendingTreeLocked h)
         (net h) (dispatched h) (instantiated h).
Definition set_entities (h : Host) (es : gmap UUID Entity) : Host :=
  mkHost (host_Entity h) (mapper h) (connections h) es (entityLists h) (trees h)
         (pendingTreeMarshal h) (pendingSDAs h) (closed h) (pendingTreeLocked h)
         (net h) (dispatched h) (instantiated h).
Definition set_entityLists (h : Host) (els : gmap UUID EntityList) : Host :=
  mkHost (host_Entity h) (mapper h) (connections h) (entities h) els (trees h)
         (pendingTreeMarshal h) (pendingSDAs h) (closed h) (pendingTreeLocked h)
         (net h) (dispatched h) (instantiated h).
Definition set_trees (h : Host) (ts : gmap UUID Tree) : Host :=
  mkHost (host_Entity h) (mapper h) (connections h) (entities h) (entityLists h) ts
         (pendingTreeMarshal h) (pendingSDAs h) (closed h) (pendingTreeLocked h)
         (net h) (dispatched h) (instantiated h).
Definition set_pendingTreeMarshal (h : Host) (p : gmap UUID (list TreeMarshal)) : Host :=
  mkHost (host_Entity h) (mapper h) (connections h) (entities h) (entityLists h) (trees h)
         p (pendingSDAs h) (closed h) (pendingTreeLocked h)
         (net h) (dispatched h) (instantiated h).
Definition set_pendingSDAs (h : Host) (p : list SDAData) : Host :=
  mkHost (host_Entity h) (mapper h) (connections h) (entities h) (entityLists h) (trees h)
         (pendingTreeMarshal h) p (closed h) (pendingTreeLocked h)
         (net h) (dispatched h) (instantiated h).
Definition set_closed (h : Host) (b : bool) : Host :=
  mkHost (host_Entity h) (mapper h) (connections h) (entities h) (entityLists h) (trees h)
         (pendingTreeMarshal h) (pendingSDAs h) b (pendingTreeLocked h)
         (net h) (dispatched h) (instantiated h).
Definition set_pendingTreeLocked (h : Host) (b : bool) : Host :=
  mkHost (host_Entity h) (mapper h) (connections h) (entities h) (entityLists h) (trees h)
         (pendingTreeMarshal h) (pendingSDAs h) (closed h) b
         (net h) (dispatched h) (instantiated h).
Definition emit (h : Host) (evs : list NetEvent) : Host :=
  mkHost (host_Entity h) (mapper h) (connections h) (entities h) (entityLists h) (trees h)
         (pendingTreeMarshal h) (pendingSDAs h) (closed h) (pendingTreeLocked h)
         (net h ++ evs) (dispatched h) (instantiated h).
Definition record_dispatch (h : Host) (id : UUID) (sda : SDAData) : Host :=
  mkHost (host_Entity h) (mapper h) (connections h) (entities h) (entityLists h) (trees h)
         (pendingTreeMarshal h) (pendingSDAs h) (closed h) (pendingTreeLocked h)
         (net h) (dispatched h ++ [(id, sda)]) (instantiated h).
Definition record_instance (h : Host) (tok : Token) : Host :=
  mkHost (host_Entity h) (mapper h) (connections h) (entities h) (entityLists h) (trees h)
         (pendingTreeMarshal h) (pendingSDAs h) (closed h) (pendingTreeLocked h)
         (net h) (dispatched h) (instantiated h ++ [tok]).

(** *** The host monad *)

Definition M (A : Type) : Type := Host -> Host * outcome A.

Definition ret {A} (a : A) : M A := fun h => (h, Returned a).

Definition bindM {A B} (m : M A) (k : A -> M B) : M B :=
  fun h =>
    match m h with
    | (h', Returned a) => k a h'
    | (h', Deadlock) => (h', Deadlock)
    | (h', Panicked) => (h', Panicked)
    | (h', Waiting) => (h', Waiting)
    end.

Definition gets {A} (f : Host -> A) : M A := fun h => (h, Returned (f h)).
Definition modify (f : Host -> Host) : M unit := fun h => (f h, Returned tt).
Definition panic {A} : M A := fun h => (h, Panicked).
Definition deadlock {A} : M A := fun h => (h, Deadlock).
Definition waiting {A} : M A := fun h => (h, Waiting).

Notation "x <- c1 ;; c2" := (bindM c1 (fun x => c2))
  (at level 100, c1 at next level, right associativity).
Notation "c1 ;;; c2" := (bindM c1 (fun _ => c2))
  (at level 100, right associativity).

(** [sync.Mutex.Lock] and [Unlock] on [pendingTreeLock]. *)
Definition lock_pendingTree : M unit :=
  held <- gets pendingTreeLocked ;;
  if held then deadlock else modify (fun h => set_pendingTreeLocked h true).

Definition unlock_pendingTree : M unit :=
  modify (fun h => set_pendingTreeLocked h false).

(** *** What the host takes from the other files of the package *)

(** The process-wide protocol registry [protocols]: protocol
    identifier to constructor. *)
Variable protocols : gmap UUID (TreeNode -> Token -> ProtocolInstance).
(** [Token.Id()], the hash of a token. *)
Variable Token_Id : Token -> UUID.
(** [h.host.Open] and [h.host.Close] of the secure transport. *)
Variable Open : Entity -> SecureConn + error.
Variable HostClose : option error.
(** The text of an error, [err.Error()]. *)
Variable error_text : error -> string.
(** The type registry of the network package. *)
Context {Constructors : Type}.
Variable DefaultConstructors : Constructors.
Variable MarshalRegisteredType : option Payload -> bytes + error.
Variable TypeFromData : option Payload -> UUID.
Variable UnmarshalRegisteredType :
  bytes -> Constructors -> UUID * option Payload * option error.
(** [TreeMarshal.MakeTree], [Tree.MakeTreeMarshal] and the marshal of
    the empty tree, [(&Tree{}).MakeTreeMarshal()]; the zero entity
    list [&EntityList{}]. *)
Variable MakeTree : TreeMarshal -> EntityList -> Tree + error.
Variable MakeTreeMarshal : Tree -> TreeMarshal.
Variable EmptyTreeMarshal : TreeMarshal.
Definition EmptyEntityList : EntityList :=
  {| EntityList_Id := uuid_Nil; List := [] |}.

(** [ProtocolExists] *)
Definition ProtocolExists (id : UUID) : bool :=
  bool_decide (is_Some (protocols !! id)).

(** Modelled from the spec: [protocolMapper.Instance], the instance
    registered under a token, [nil] when there is none ("the sender
    token refers to no active instance"). *)
Definition mapper_Instance (m : protocolMapper) (tok : option Token)
  : option ProtocolInstance :=
  match tok with
  | None => None
  | Some t => instances m !! Token_Id t
  end.

(** Modelled from the spec: [protocolMapper.Exists]. *)
Definition mapper_Exists (m : protocolMapper) (id : UUID) : bool :=
  bool_decide (is_Some (instances m !! id)).

(** Modelled from the spec: [protocolMapper.RegisterProtocolInstance],
    "its token has been registered in the instance registry". *)
Definition RegisterProtocolInstance (pi : ProtocolInstance) (tok : Token) : M unit :=
  modify (fun h =>
    set_mapper h {| instances := <[Token_Id tok := pi]> (instances (mapper h)) |}).

(** Modelled from the spec: [protocolMapper.DispatchToInstance],
    "payload delivery, which looks up the addressed instance [...] and
    pushes the decoded payload into that instance's channel or
    handler". The hand-over is recorded in [dispatched]. *)
Definition DispatchToInstance (sda : SDAData) : M (bool * option error) :=
  match To sda with
  | None => panic
  | Some to =>
      m <- gets mapper ;;
      if mapper_Exists m (Token_Id to) then
        modify (fun h => record_dispatch h (Token_Id to) sda) ;;;
        ret (true, None)
      else ret (false, Some (ErrMsg "No instance for this token"))
  end.

(** *** Connections *)

(** [func (h *Host) registerConnection(c network.SecureConn)] *)
Definition registerConnection (c : SecureConn) : M unit :=
  let id := conn_Entity c in
  modify (fun h => set_entities h (<[Entity_Id id := id]> (entities h))) ;;;
  modify (fun h => set_connections h (<[Entity_Id id := c]> (connections h))).

(** [func (h *Host) Connect(id *network.Entity) (network.SecureConn, error)];
    [go h.handleConn(c)] is recorded as an event. *)
Definition Connect (id : Entity) : M (SecureConn + error) :=
  match Open id with
  | inr err => ret (inr err)
  | inl c =>
      registerConnection c ;;;
      modify (fun h => emit h [NetHandleConn c]) ;;;
      ret (inl c)
  end.

(** [func (h *Host) Close() error]. Closing the [closed] channel a
    second time panics. The code ranges over the map of connections,
    in an order that is not fixed; the connections are closed here in
    the order of [map_to_list], and the properties of [Close] are
    stated up to that order. *)
Definition Close : M (option error) :=
  cs <- gets connections ;;
  modify (fun h => emit h (NetConnClose <$> (snd <$> map_to_list cs))) ;;;
  modify (fun h => emit h [NetHostClose]) ;;;
  modify (fun h => set_connections h ∅) ;;;
  was_closed <- gets closed ;;
  if was_closed then panic
  else modify (fun h => set_closed h true) ;;; ret HostClose.

(** [func (h *Host) SendRaw(e *network.Entity, msg network.ProtocolMessage) error].
    The result of [c.Send] is dropped by the code. *)
Definition SendRaw (e : Entity) (msg : option Frame) : M (option error) :=
  match msg with
  | None => ret (Some (ErrMsg "Can't send nil-packet"))
  | Some f =>
      known <- gets (fun h => entities h !! Entity_Id e) ;;
      r <- match known with
           | Some _ => ret None
           | None =>
               c <- Connect e ;;
               ret (match c with inr err => Some err | inl _ => None end)
           end ;;
      match r with
      | Some err => ret (Some err)
      | None =>
          oc <- gets (fun h => connections h !! Entity_Id e) ;;
          match oc with
          | None => ret (Some (ErrMsg "Got no connection tied to this Entity"))
          | Some c => modify (fun h => emit h [NetSend c f]) ;;; ret None
          end
      end
  end.

(** *** Sending *)

(** [func (h *Host) TreeNodeFromToken(t *Token)], returning the tree node or an error;
    a [nil] token is dereferenced. *)
Definition TreeNodeFromToken (t : option Token) : M (TreeNode + error) :=
  match t with
  | None => panic
  | Some tok =>
      otree <- gets (fun h => trees h !! TreeID tok) ;;
      match otree with
      | None => ret (inr (ErrMsg "Didn't find tree"))
      | Some tree =>
          match GetNode tree (TreeNodeID tok) with
          | None => ret (inr (ErrMsg "Didn't find treenode"))
          | Some tn => ret (inl tn)
          end
      end
  end.

(** [func (h *Host) sendSDAData(e *network.Entity, sdaMsg *SDAData) error] *)
Definition sendSDAData (e : Entity) (sdaMsg : SDAData) : M (option error) :=
  match MarshalRegisteredType (Msg sdaMsg) with
  | inr err =>
      ret (Some (ErrMsg ("Error marshaling  message: " +:+ error_text err)))
  | inl b =>
      SendRaw e (Some (SDADataMessage
        {| To := To sdaMsg;
           From := From sdaMsg;
           MsgType := TypeFromData (Msg sdaMsg);
           MsgSlice := b;
           Msg := None;
           sda_Entity := sda_Entity sdaMsg |}))
  end.

(** [func (h *Host) SendSDAToTreeNode(from *Token, to *TreeNode, msg) error] *)
Definition SendSDAToTreeNode (from : option Token) (to : option TreeNode)
    (msg : option Payload) : M (option error) :=
  m <- gets mapper ;;
  match mapper_Instance m from with
  | None => ret (Some (ErrMsg "No protocol instance registered with this token."))
  | Some _ =>
      match from with
      | None => ret (Some (ErrMsg "From-token is nil"))
      | Some f =>
          match to with
          | None => ret (Some (ErrMsg "To-token is nil"))
          | Some tn =>
              sendSDAData (TreeNode_Entity tn)
                {| To := Some (OtherToken f tn);
                   From := Some f;
                   MsgType := uuid_Nil;
                   MsgSlice := [];
                   Msg := msg;
                   sda_Entity := None |}
          end
      end
  end.

(** [func (h *Host) SendSDA(from, to *Token, msg) error] *)
Definition SendSDA (from to : option Token) (msg : option Payload) : M (option error) :=
  r <- TreeNodeFromToken to ;;
  match r with
  | inr err => ret (Some err)
  | inl tn => SendSDAToTreeNode from (Some tn) msg
  end.

(** *** Stores *)

(** [func (h *Host) AddEntityList(il *EntityList)] *)
Definition AddEntityList (il : EntityList) : M unit :=
  modify (fun h => set_entityLists h (<[EntityList_Id il := il]> (entityLists h))).

(** [func (h *Host) GetEntityList(id uuid.UUID)] *)
Definition GetEntityList (id : UUID) : M (option EntityList) :=
  gets (fun h => entityLists h !! id).

(** [func (h *Host) GetTree(id uuid.UUID)] *)
Definition GetTree (id : UUID) : M (option Tree) :=
  gets (fun h => trees h !! id).

(** [func (h *Host) protocolInstantiate(tok *Token, tn *TreeNode) (ProtocolInstance, error)] *)
Definition protocolInstantiate (tok : Token) (tn : option TreeNode)
  : M (ProtocolInstance + error) :=
  match protocols !! ProtocolID tok with
  | None => ret (inr (ErrMsg "Protocol doesn't exist"))
  | Some p =>
      otree <- GetTree (TreeID tok) ;;
      match otree with
      | None => ret (inr (ErrMsg "Tree does not exists"))
      | Some tree =>
          oil <- GetEntityList (EntityListID tok) ;;
          match oil with
          | None => ret (inr (ErrMsg "EntityList does not exists"))
          | Some _ =>
              if negb (IsInTree tn tree) then
                ret (inr (ErrMsg "We are not represented in the tree"))
              else
                match tn with
                | None => panic
                | Some n =>
                    let pi := p n tok in
                    modify (fun h => record_instance h tok) ;;;
                    RegisterProtocolInstance pi tok ;;;
                    ret (inl pi)
                end
          end
      end
  end.

(** *** Pending envelopes *)

(** [func (h *Host) addPendingSda(sda *SDAData)] *)
Definition addPendingSda (sda : SDAData) : M unit :=
  modify (fun h => set_pendingSDAs h (pendingSDAs h ++ [sda])).

(** [func (h *Host) requestTree(e *network.Entity, sdaMsg *SDAData) error] *)
Definition requestTree (e : Entity) (sdaMsg : SDAData) : M (option error) :=
  match To sdaMsg with
  | None => panic
  | Some to =>
      addPendingSda sdaMsg ;;;
      SendRaw e (Some (RequestTreeMessage (TreeID to)))
  end.

(** The body of the [for i := range h.pendingSDAs] loop of
    [checkPendingSDA], over the list the loop ranges on. *)
Fixpoint checkPendingSDA_loop (t : Tree) (l : list SDAData) : M unit :=
  match l with
  | [] => ret tt
  | sdaMsg :: rest =>
      match To sdaMsg with
      | None => panic
      | Some to =>
          (if bool_decide (Tree_Id t = TreeID to) then
             match GetNode t (TreeNodeID to) with
             | None => ret tt
             | Some node =>
                 r <- protocolInstantiate to (Some node) ;;
                 match r with
                 | inr _ => ret tt
                 | inl _ => DispatchToInstance sdaMsg ;;; ret tt
                 end
             end
           else ret tt) ;;;
          checkPendingSDA_loop t rest
      end
  end.

(** [func (h *Host) checkPendingSDA(t *Tree)]. The goroutine it starts
    runs its whole body under [pendingSDAsLock], so that two rescans
    never interleave; the rescan is run where it is started. (When the
    goroutine runs against the frames that follow is the scheduler's
    choice; this is one schedule. How many times an envelope is handed
    over does not depend on it.) *)
Definition checkPendingSDA (t : Tree) : M unit :=
  l <- gets pendingSDAs ;;
  checkPendingSDA_loop t l.

(** [func (h *Host) AddTree(t *Tree)] *)
Definition AddTree (t : Tree) : M unit :=
  modify (fun h => set_trees h (<[Tree_Id t := t]> (trees h))) ;;;
  checkPendingSDA t.

(** [func (h *Host) processSDAMessage(am *network.NetworkMessage) error],
    on the envelope [am.Msg.(SDAData)]. *)
Definition processSDAMessage (am : NetworkMessage) (sda : SDAData) : M (option error) :=
  let '(t, msg, _) := UnmarshalRegisteredType (MsgSlice sda) DefaultConstructors in
  let sdaMsg := {| To := To sda;
                   From := From sda;
                   MsgType := t;
                   MsgSlice := MsgSlice sda;
                   Msg := msg;
                   sda_Entity := Some (nm_Entity am) |} in
  match To sdaMsg with
  | None => panic
  | Some to =>
      if negb (ProtocolExists (ProtocolID to)) then
        ret (Some (ErrMsg "Protocol does not exists from token"))
      else
        oil <- GetEntityList (EntityListID to) ;;
        match oil with
        | None => requestTree (nm_Entity am) sdaMsg
        | Some _ =>
            otree <- GetTree (TreeID to) ;;
            match otree with
            | None => requestTree (nm_Entity am) sdaMsg
            | Some tree =>
                m <- gets mapper ;;
                r <- (if negb (mapper_Exists m (Token_Id to)) then
                        pi <- protocolInstantiate to (GetNode tree (TreeNodeID to)) ;;
                        ret (match pi with inr err => Some err | inl _ => None end)
                      else ret None) ;;
                match r with
                | Some err => ret (Some err)
                | None =>
                    d <- DispatchToInstance sdaMsg ;;
                    match snd d with
                    | Some err => ret (Some err)
                    | None => ret None
                    end
                end
            end
        end
  end.

(** *** Pending trees *)

(** [func (h *Host) addPendingTreeMarshal(tm *TreeMarshal)] *)
Definition addPendingTreeMarshal (tm : TreeMarshal) : M unit :=
  lock_pendingTree ;;;
  osl <- gets (fun h => pendingTreeMarshal h !! EntityId tm) ;;
  let sl := match osl with Some sl => sl | None => [] end in
  modify (fun h => set_pendingTreeMarshal h
                     (<[EntityId tm := sl ++ [tm]]> (pendingTreeMarshal h))) ;;;
  unlock_pendingTree.

(** The [for _, tm := range sl] loop of [checkPendingTreeMarshal]. *)
Fixpoint checkPendingTreeMarshal_loop (el : EntityList) (sl : list TreeMarshal) : M unit :=
  match sl with
  | [] => ret tt
  | tm :: rest =>
      match MakeTree tm el with
      | inr _ => ret tt
      | inl tree => AddTree tree
      end ;;;
      checkPendingTreeMarshal_loop el rest
  end.

(** [func (h *Host) checkPendingTreeMarshal(el *EntityList)]. The
    early [return] leaves [pendingTreeLock] held. *)
Definition checkPendingTreeMarshal (el : EntityList) : M unit :=
  lock_pendingTree ;;;
  osl <- gets (fun h => pendingTreeMarshal h !! EntityList_Id el) ;;
  match osl with
  | None => ret tt
  | Some sl =>
      checkPendingTreeMarshal_loop el sl ;;;
      unlock_pendingTree
  end.

(** *** The dispatch loop *)

(** [func (h *Host) receive() network.NetworkMessage], on the message
    taken from [networkChan]: an envelope gets its payload decoded with
    the constructors that came with it. *)
Definition receive (data : NetworkMessage) (cs : Constructors) : NetworkMessage :=
  match nm_Msg data with
  | SDADataMessage sda =>
      let '(t, msg, _) := UnmarshalRegisteredType (MsgSlice sda) cs in
      {| nm_Entity := nm_Entity data;
         nm_From := nm_From data;
         nm_Msg := SDADataMessage
           {| To := To sda; From := From sda; MsgType := t;
              MsgSlice := MsgSlice sda; Msg := msg;
              sda_Entity := sda_Entity sda |} |}
  | _ => data
  end.

(** One turn of the [for] loop of [ProcessMessages], after
    [h.receive()] returned [data]. Errors are logged and dropped. *)
Definition ProcessMessages_turn (data : NetworkMessage) : M unit :=
  match nm_Msg data with
  | SDADataMessage sda =>
      processSDAMessage data sda ;;; ret tt
  | RequestTreeMessage tid =>
      otree <- gets (fun h => trees h !! tid) ;;
      match otree with
      | Some tree =>
          SendRaw (nm_Entity data) (Some (SendTreeMessage (MakeTreeMarshal tree))) ;;; ret tt
      | None =>
          SendRaw (nm_Entity data) (Some (SendTreeMessage EmptyTreeMarshal)) ;;; ret tt
      end
  | SendTreeMessage tm =>
      if bool_decide (NodeId tm = uuid_Nil) then ret tt
      else
        oil <- GetEntityList (EntityId tm) ;;
        match oil with
        | None =>
            SendRaw (nm_Entity data) (Some (RequestEntityListMessage (EntityId tm))) ;;;
            addPendingTreeMarshal tm
        | Some il =>
            match MakeTree tm il with
            | inr _ => ret tt
            | inl tree =>
                AddTree tree ;;;
                checkPendingSDA tree
            end
        end
  | RequestEntityListMessage id =>
      oil <- gets (fun h => entityLists h !! id) ;;
      match oil with
      | Some il =>
          SendRaw (nm_Entity data) (Some (SendEntityListMessage il)) ;;; ret tt
      | None =>
          SendRaw (nm_Entity data) (Some (SendEntityListMessage EmptyEntityList)) ;;; ret tt
      end
  | SendEntityListMessage il =>
      if bool_decide (EntityList_Id il = uuid_Nil) then ret tt
      else
        AddEntityList il ;;;
        checkPendingTreeMarshal il
  | OtherMessage _ => ret tt
  end.

(** [func (h *Host) ProcessMessages()] on the frames that reach
    [networkChan], in order, each with the constructors it carries.
    The [for] loop has no exit and the function never returns: when
    the frames are used up it is parked in [h.receive()], on
    [<-h.networkChan]. *)
Fixpoint ProcessMessages (incoming : list (NetworkMessage * Constructors)) : M Empty_set :=
  match incoming with
  | [] => waiting
  | (data, cs) :: rest =>
      ProcessMessages_turn (receive data cs) ;;;
      ProcessMessages rest
  end.

End Host.

Arguments SDAData Payload : clear implicits.
Arguments Frame Payload : clear implicits.
Arguments NetworkMessage Payload : clear implicits.
Arguments NetEvent Payload : clear implicits.
Arguments protocolMapper ProtocolInstance : clear implicits.
Arguments Host Payload ProtocolInstance : clear implicits.
Arguments M Payload ProtocolInstance A : clear implicits.

End SDA.

(** * Typed dispatch with aggregation (lib/sda/node.go)

    The node layer of the instances is exercised by
    [lib/sda/node_test.go] ([TestMsgAggregation], [TestProtocolHandlers],
    [TestFlags]); its aggregation is described by the specification. *)
Module Node.
Import SDA.

(** Modelled from the spec: the flag [AggregateMessages] of the
    per-type bitmask, "the only recognized flag". *)
Definition AggregateMessages : Z := 1.

Section Aggregation.
Context {Payload : Type}.

(** Modelled from the spec: the element shape [{senderTreeNode,
    PayloadType}] handed to a channel or a handler. *)
Record Element : Type := mkElement {
  sender : TreeNode;
  payload : Payload
}.

(** Modelled from the spec: a delivery to the channel or handler of a
    payload type, single ("each received envelope for that type is
    delivered as one such record") or aggregated ("a single delivery
    [...] containing the buffered sequence"). *)
Inductive Delivery : Type :=
| Single (e : Element)
| Aggregated (es : list Element).

(** Modelled from the spec: the node of an instance: its tree node,
    the bitmask of flags per payload type, the buffer of envelopes per
    payload type, and the deliveries made so far, in order, each with
    its payload type. *)
Record Node : Type := mkNode {
  node_TreeNode : TreeNode;
  flags : gmap UUID Z;
  msgQueue : gmap UUID (list Element);
  deliveries : list (UUID * Delivery)
}.

(** Modelled from the spec: [hasFlag], [setFlag], [clearFlag] on the
    bitmask of a payload type; "initially [hasFlag] is false". *)
Definition HasFlag (n : Node) (mt : UUID) (f : Z) : bool :=
  negb (Z.land (default 0 (flags n !! mt)) f =? 0).

Definition SetFlag (n : Node) (mt : UUID) (f : Z) : Node :=
  {| node_TreeNode := node_TreeNode n;
     flags := <[mt := Z.lor (default 0 (flags n !! mt)) f]> (flags n);
     msgQueue := msgQueue n;
     deliveries := deliveries n |}.

Definition ClearFlag (n : Node) (mt : UUID) (f : Z) : Node :=
  {| node_TreeNode := node_TreeNode n;
     flags := <[mt := Z.ldiff (default 0 (flags n !! mt)) f]> (flags n);
     msgQueue := msgQueue n;
     deliveries := deliveries n |}.

(** An envelope of the buffer came from the tree node [c]. *)
Definition from_node (c : TreeNode) (e : Element) : bool :=
  (TreeNode_Id (sender e) =? TreeNode_Id c)%N.

(** Modelled from the spec: the completion condition, "one has been
    received from every direct child". *)
Definition received_from_all (cs : list TreeNode) (buf : list Element) : bool :=
  forallb (fun c => existsb (from_node c) buf) cs.

(** Modelled from the spec: the arrival of one envelope of type [mt]
    at the instance. With the aggregate flag, "the runtime buffers
    envelopes of that type arriving at this instance until one has been
    received from every direct child. Only then is a single delivery
    made containing the buffered sequence, in arrival order";
    otherwise the envelope is delivered as one record. *)
Definition Dispatch (n : Node) (mt : UUID) (e : Element) : Node :=
  if HasFlag n mt AggregateMessages then
    let buf := default [] (msgQueue n !! mt) ++ [e] in
    if received_from_all (Children (node_TreeNode n)) buf then
      {| node_TreeNode := node_TreeNode n;
         flags := flags n;
         msgQueue := delete mt (msgQueue n);
         deliveries := deliveries n ++ [(mt, Aggregated buf)] |}
    else
      {| node_TreeNode := node_TreeNode n;
         flags := flags n;
         msgQueue := <[mt := buf]> (msgQueue n);
         deliveries := deliveries n |}
  else
    {| node_TreeNode := node_TreeNode n;
       flags := flags n;
       msgQueue := msgQueue n;
       deliveries := deliveries n ++ [(mt, Single e)] |}.

(** The envelopes reaching the instance, in the order the dispatcher
    saw them. *)
Definition DispatchAll (n : Node) (l : list (UUID * Element)) : Node :=
  foldl (fun n' '(mt, e) => Dispatch n' mt e) n l.

(** The deliveries made for one payload type, in order. *)
Definition deliveries_of (mt : UUID) (n : Node) : list Delivery :=
  snd <$> filter (fun d => fst d = mt) (deliveries n).

(** The envelopes of one payload type among the arrivals, in order. *)
Definition arrivals_of (mt : UUID) (l : list (UUID * Element)) : list Element :=
  snd <$> filter (fun a => fst a = mt) l.

(** The aggregated deliveries a buffer [buf] and further arrivals
    [es] of the same type lead to. *)
Fixpoint aggregate (cs : list TreeNode) (buf es : list Element) : list (list Element) :=
  match es with
  | [] => []
  | e :: es' =>
      if received_from_all cs (buf ++ [e]) then (buf ++ [e]) :: aggregate cs [] es'
      else aggregate cs (buf ++ [e]) es'
  end.

End Aggregation.

Arguments Element Payload : clear implicits.
Arguments Delivery Payload : clear implicits.
Arguments Node Payload : clear implicits.

End Node.

(** * Vocabulary of the properties *)
Module SDASpec.
Import SDA.

Section Relations.
Context {Payload : Type} {ProtocolInstance : Type}.

(** A host function keeps a relation between the state it starts in
    and the state it leaves, however it ends. *)
Definition preserves {A} (R : relation (Host Payload ProtocolInstance))
    (m : M Payload ProtocolInstance A) : Prop :=
  forall h h' r, m h = (h', r) -> R h h'.

(** A host function always returns (it neither parks on a mutex or a
    channel nor panics). *)
Definition returns {A} (m : M Payload ProtocolInstance A) : Prop :=
  forall h, exists a, snd (m h) = Returned a.

(** A part of the state, read by [proj], is left as it was. *)
Definition keeps {X} (proj : Host Payload ProtocolInstance -> X)
    (h h' : Host Payload ProtocolInstance) : Prop :=
  proj h' = proj h.

(** What adding trees and handing envelopes to instances leaves
    alone. *)
Definition beside_trees (h : Host Payload ProtocolInstance) :=
  (host_Entity h, connections h, entities h, entityLists h,
   pendingTreeMarshal h, pendingSDAs h, closed h, pendingTreeLocked h, net h).

(** Only the connection tables and the trace of network effects
    differ. *)
Definition only_network (h h' : Host Payload ProtocolInstance) : Prop :=
  host_Entity h' = host_Entity h /\
  mapper h' = mapper h /\
  entityLists h' = entityLists h /\
  trees h' = trees h /\
  pendingTreeMarshal h' = pendingTreeMarshal h /\
  pendingSDAs h' = pendingSDAs h /\
  closed h' = closed h /\
  pendingTreeLocked h' = pendingTreeLocked h /\
  dispatched h' = dispatched h /\
  instantiated h' = instantiated h.

(** Only the instance registry and the records of constructor calls
    and of dispatches differ. *)
Definition only_instances (h h' : Host Payload ProtocolInstance) : Prop :=
  host_Entity h' = host_Entity h /\
  connections h' = connections h /\
  entities h' = entities h /\
  entityLists h' = entityLists h /\
  trees h' = trees h /\
  pendingTreeMarshal h' = pendingTreeMarshal h /\
  pendingSDAs h' = pendingSDAs h /\
  closed h' = closed h /\
  pendingTreeLocked h' = pendingTreeLocked h /\
  net h' = net h.

(** The network effects of a host function: the trace grows by events
    that all satisfy [P]. *)
Definition net_extends (P : NetEvent Payload -> Prop)
    (h h' : Host Payload ProtocolInstance) : Prop :=
  exists evs, net h' = net h ++ evs /\ Forall P evs.

(** [From.other(recipient.tree-node) == To] for an envelope. *)
Definition wf_envelope (sda : SDAData Payload) : Prop :=
  exists f tn, From sda = Some f /\ To sda = Some (OtherToken f tn).

(** An event that puts an envelope on the wire puts a well-formed
    one. *)
Definition emits_wf_envelope (ev : NetEvent Payload) : Prop :=
  match ev with
  | NetSend _ (SDADataMessage sda) => wf_envelope sda
  | _ => True
  end.

(** An event that puts no envelope on the wire. *)
Definition emits_no_envelope (ev : NetEvent Payload) : Prop :=
  match ev with
  | NetSend _ (SDADataMessage _) => False
  | _ => True
  end.

(** The event is the start of a connection handler, or the frame [f]
    handed to some connection. *)
Definition sends_frame (f : Frame Payload) (ev : NetEvent Payload) : Prop :=
  (exists c, ev = NetHandleConn c) \/ (exists c, ev = NetSend c f).

(** Every connection is registered under the identifier of the entity
    at its other end, as [registerConnection] does. *)
Definition conn_wf (h : Host Payload ProtocolInstance) : Prop :=
  forall id c, connections h !! id = Some c -> Entity_Id (conn_Entity c) = id.

(** A host function leaves the connections registered under the right
    identifiers. *)
Definition keeps_conn_wf (h h' : Host Payload ProtocolInstance) : Prop :=
  conn_wf h -> conn_wf h'.



(** Every envelope of the pending list has a recipient token (as
    those queued by [requestTree] have). *)
Definition pending_wf (h : Host Payload ProtocolInstance) : Prop :=
  Forall (fun sda => is_Some (To sda)) (pendingSDAs h).

(** A host function leaves the pending list well formed. *)
Definition keeps_pending_wf (h h' : Host Payload ProtocolInstance) : Prop :=
  pending_wf h -> pending_wf h'.

(** What a rescan for the tree [t] hands to an instance, for one
    pending envelope: the envelope, with the identifier of its token,
    when the token names the tree, a node of the tree, a registered
    protocol and a known roster. *)
Definition rescan_hit
    (protocols : gmap UUID (TreeNode -> Token -> ProtocolInstance))
    (Token_Id : Token -> UUID)
    (t : Tree) (rosters : gmap UUID EntityList) (sda : SDAData Payload)
  : option (UUID * SDAData Payload) :=
  match To sda with
  | None => None
  | Some to =>
      if bool_decide (Tree_Id t = TreeID to) then
        match GetNode t (TreeNodeID to), protocols !! ProtocolID to,
              rosters !! EntityListID to with
        | Some _, Some _, Some _ => Some (Token_Id to, sda)
        | _, _, _ => None
        end
      else None
  end.

(** A tree marshal for an unknown roster was answered by a roster
    request and queued under its roster. *)
Definition roster_requested_and_queued
    (h' : Host Payload ProtocolInstance) (tm : TreeMarshal) : Prop :=
  (exists c, NetSend c (RequestEntityListMessage (EntityId tm)) ∈ net h') /\
  (exists sl, pendingTreeMarshal h' !! EntityId tm = Some sl /\ tm ∈ sl).


(** How many times a protocol constructor was called for the token
    [to]. *)
Definition times_instantiated (to : Token) (h : Host Payload ProtocolInstance) : nat :=
  length (filter (fun t => t = to) (instantiated h)).

(** How many times an envelope with the payload [msg], addressed to
    [to], was handed to an instance. *)
Definition times_dispatched (to : Token) (msg : option Payload)
    `{EqDecision Payload} (h : Host Payload ProtocolInstance) : nat :=
  length (filter (fun d => To (snd d) = Some to /\ Msg (snd d) = msg) (dispatched h)).

(** An envelope addressed to [to] is on the pending list. *)
Definition is_pending (to : Token) (h : Host Payload ProtocolInstance) : Prop :=
  exists sda, sda ∈ pendingSDAs h /\ To sda = Some to.

End Relations.

End SDASpec.

(** * A concrete cothority of two nodes

    The parameters of the host at concrete values, and small hosts,
    trees and frames on which the functions are run. *)
Module Example.
Import SDA SDASpec.
Local Open Scope N_scope.

(** Payloads are numbers; an instance remembers its tree node
    identifier and its token; the type registry has one set of
    constructors. *)
Definition Payload : Type := nat.
Definition ProtocolInstance : Type := (UUID * Token)%type.
Definition Constructors : Type := unit.

Definition newInstance (tn : TreeNode) (tok : Token) : ProtocolInstance :=
  (TreeNode_Id tn, tok).

(** One protocol is registered, under the identifier 7. *)
Definition protocols : gmap UUID (TreeNode -> Token -> ProtocolInstance) :=
  {[ 7%N := newInstance ]}.

(** A stand-in for the hash of a token. *)
Definition Token_Id (t : Token) : UUID :=
  (ProtocolID t + 16 * (EntityListID t + 16 * (TreeID t + 16 * (RoundID t + 16 * TreeNodeID t))))%N.

(** Every entity can be reached. *)
Definition Open (e : Entity) : SecureConn + error :=
  inl {| conn_Entity := e; conn_Remote := "local" |}.

Definition HostClose : option error := None.

(** The text of an error. *)
Definition error_text (e : error) : string :=
  match e with
  | ErrClosed => "closed"
  | ErrEOF => "EOF"
  | ErrMsg s => s
  end.

(** A number is marshalled in unary; [nil] cannot be marshalled. *)
Definition MarshalRegisteredType (msg : option Payload) : bytes + error :=
  match msg with
  | Some n => inl (replicate n Byte.x01)
  | None => inr (ErrMsg "nil message")
  end.

Definition TypeFromData (msg : option Payload) : UUID := 42%N.

Definition UnmarshalRegisteredType (b : bytes) (cs : Constructors)
  : UUID * option Payload * option error :=
  (42%N, Some (length b), None).

Definition entityA : Entity := {| Entity_Id := 1; Addresses := ["local://a"] |}.
Definition entityB : Entity := {| Entity_Id := 2; Addresses := ["local://b"] |}.
Definition roster : EntityList := {| EntityList_Id := 10; List := [entityA; entityB] |}.

(** A marshal lists the root first; the other nodes are its children.
    The tree takes the identifier of the marshal. *)
Definition marshalled_node (il : EntityList) (n : UUID * nat * list UUID) : TreeNode :=
  mkTreeNode (fst (fst n)) (default entityA (List il !! snd (fst n))) [].

Definition MakeTree (tm : TreeMarshal) (il : EntityList) : Tree + error :=
  match Nodes tm with
  | [] => inr (ErrMsg "no root")
  | (rid, idx, _) :: rest =>
      match List il !! idx with
      | None => inr (ErrMsg "entity index out of range")
      | Some e =>
          inl {| Tree_Id := NodeId tm;
                 Tree_EntityList := il;
                 Root := mkTreeNode rid e (marshalled_node il <$> rest) |}
      end
  end.

Definition MakeTreeMarshal (t : Tree) : TreeMarshal :=
  {| NodeId := Tree_Id t;
     EntityId := EntityList_Id (Tree_EntityList t);
     Nodes := (TreeNode_Id (Root t), 0%nat, TreeNode_Id <$> Children (Root t))
              :: ((fun c => (TreeNode_Id c, 1%nat, [])) <$> Children (Root t)) |}.

Definition EmptyTreeMarshal : TreeMarshal :=
  {| NodeId := uuid_Nil; EntityId := uuid_Nil; Nodes := [] |}.

(** The tree of the two nodes: root 21 at [entityA], child 22 at
    [entityB]; tree identifier 20. *)
Definition nodeB : TreeNode := mkTreeNode 22 entityB [].
Definition nodeA : TreeNode := mkTreeNode 21 entityA [nodeB].
Definition tree : Tree := {| Tree_Id := 20; Tree_EntityList := roster; Root := nodeA |}.
Definition treeMarshal : TreeMarshal :=
  {| NodeId := 20; EntityId := 10; Nodes := [(21%N, 0%nat, [22%N]); (22%N, 1%nat, [])] |}.

(** The tokens of the two instances of round 30 of protocol 7. *)
Definition tokenA : Token :=
  {| ProtocolID := 7; EntityListID := 10; TreeID := 20; RoundID := 30; TreeNodeID := 21 |}.
Definition tokenB : Token :=
  {| ProtocolID := 7; EntityListID := 10; TreeID := 20; RoundID := 30; TreeNodeID := 22 |}.

(** The envelope A sends to B with the payload 3, as it is on the
    wire, and as the host of B holds it once decoded. *)
Definition envelope : SDAData Payload :=
  {| To := Some tokenB; From := Some tokenA; MsgType := 42;
     MsgSlice := replicate 3 Byte.x01; Msg := None; sda_Entity := None |}.
Definition decoded : SDAData Payload :=
  {| To := Some tokenB; From := Some tokenA; MsgType := 42;
     MsgSlice := replicate 3 Byte.x01; Msg := Some 3%nat; sda_Entity := Some entityA |}.


Definition fromA (f : Frame Payload) : NetworkMessage Payload :=
  {| nm_Entity := entityA; nm_From := "local://a"; nm_Msg := f |}.

(** The host of B: fresh, and knowing the roster. *)
Definition hostB : Host Payload ProtocolInstance := NewHost entityB.
Definition hostB_roster : Host Payload ProtocolInstance :=
  set_entityLists hostB {[ 10%N := roster ]}.

(** The host of A: it knows roster and tree and runs the instance of
    [tokenA]. *)
Definition hostA : Host Payload ProtocolInstance :=
  set_mapper
    (set_trees (set_entityLists (NewHost entityA) {[ 10%N := roster ]}) {[ 20%N := tree ]})
    {| instances := {[ Token_Id tokenA := newInstance nodeA tokenA ]} |}.

(** The functions of the host at these parameters. *)
Definition processSDAMessage :=
  @SDA.processSDAMessage Payload ProtocolInstance protocols Token_Id Open
    Constructors tt UnmarshalRegisteredType.
Definition ProcessMessages :=
  @SDA.ProcessMessages Payload ProtocolInstance protocols Token_Id Open
    Constructors tt UnmarshalRegisteredType MakeTree MakeTreeMarshal EmptyTreeMarshal.
Definition AddTree := @SDA.AddTree Payload ProtocolInstance protocols Token_Id.
Definition SendSDAToTreeNode :=
  @SDA.SendSDAToTreeNode Payload ProtocolInstance Token_Id Open error_text
    MarshalRegisteredType TypeFromData.
Definition SendSDA :=
  @SDA.SendSDA Payload ProtocolInstance Token_Id Open error_text
    MarshalRegisteredType TypeFromData.
Definition Close := @SDA.Close Payload ProtocolInstance HostClose.
Definition ProcessMessages_turn :=
  @SDA.ProcessMessages_turn Payload ProtocolInstance protocols Token_Id Open
    Constructors tt UnmarshalRegisteredType MakeTree MakeTreeMarshal EmptyTreeMarshal.

(** The host of A after it sent the payload 3 to the instance at
    [nodeB]: it now holds a connection to [entityB]. *)
Definition hostA_sent : Host Payload ProtocolInstance :=
  fst (SendSDAToTreeNode (Some tokenA) (Some nodeB) (Some 3%nat) hostA).


(** A roster nobody has a tree for, and a tree marshal over a roster
    the host of B does not know. *)
Definition otherRoster : EntityList := {| EntityList_Id := 11; List := [entityA] |}.
Definition foreignMarshal : TreeMarshal :=
  {| NodeId := 40; EntityId := 12; Nodes := [(41, 0%nat, [])] |}.

(** The root of a three-node tree with the aggregate flag set for the
    payload type 42, as [TestMsgAggregation] builds it, and the two
    envelopes its children send. *)
Definition child1 : TreeNode := mkTreeNode 52 entityB [].
Definition child2 : TreeNode := mkTreeNode 53 entityB [].
Definition root3 : TreeNode := mkTreeNode 51 entityA [child1; child2].
Definition rootNode : Node.Node Payload :=
  Node.SetFlag
    {| Node.node_TreeNode := root3; Node.flags := ∅;
       Node.msgQueue := ∅; Node.deliveries := [] |}
    42 Node.AggregateMessages.
Definition agg3 : Node.Element Payload := {| Node.sender := child1; Node.payload := 3%nat |}.
Definition agg4 : Node.Element Payload := {| Node.sender := child2; Node.payload := 4%nat |}.

End Example.

(** * A concrete local network *)
Module LocalExample.
Import Local.

(** Bodies are numbers, tagged 0; callbacks are named by numbers;
    every address is a local one. *)
Definition Body : Type := nat.
Definition Callback : Type := nat.
Definition TypeFromData (b : Body) : N := 0%N.
Definition AddrConnType (a : Address) : ConnType := LocalType.

(** A listener bound and listening on [local://b]. *)
Definition listenerB : LocalListener :=
  fst (NewLocalListenerWithManager AddrConnType (@NewLocalManager Callback) "local://b").
Definition listeningB : LocalManager Callback :=
  fst (Listen NewLocalManager listenerB 1%nat).

(** The world after [local://a] connected to it, and the connection
    it got. *)
Definition world0 : World Body Callback :=
  {| manager := listeningB; store := []; spawned := [] |}.
Definition connected : World Body Callback := fst (connect world0 "local://a" "local://b").
Definition connAB : LocalConn :=
  {| local := ("local://a", 0); remote := ("local://b", 1); lcQueue := 0%nat |}.

End LocalExample.

(** * network/local.go, the rest of the transport *)
Module LocalMore.
Import Local.

Section MoreTransport.
Context {Body : Type} {Callback : Type}.
Variable TypeFromData : Body -> N.
Variable AddrConnType : Address -> ConnType.
Variable EmptyBody : Body.

(** [func (lm *LocalManager) len() int] *)
Definition len (lm : LocalManager Callback) : nat := size (queues lm).

(** [func (lc *LocalConn) Local() Address] and [Remote() Address] *)
Definition LocalConn_Local (lc : LocalConn) : Address := (local lc).1.
Definition LocalConn_Remote (lc : LocalConn) : Address := (remote lc).1.

(** [func NewLocalConnWithManager(ctx, local, remote)] *)
Definition NewLocalConnWithManager (w : World Body Callback) (loc rem : Address)
  : World Body Callback * (LocalConn + error) :=
  connect w loc rem.

(** [func (ll *LocalListener) Listening() bool] and [Address()] *)
Definition Listening (ll : LocalListener) : bool := ll_listening ll.
Definition Listener_Address (ll : LocalListener) : Address := addr ll.

(** [type LocalHost struct { addr; *LocalListener; ctx }] *)
Record LocalHost : Type := mkLocalHost {
  lh_addr : Address;
  lh_listener : LocalListener
}.

(** [func NewLocalHostWithManager(ctx, addr)], returning the host and
    the error of [bind]. *)
Definition NewLocalHostWithManager (lm : LocalManager Callback) (a : Address)
  : LocalHost * option error :=
  let '(l, err) := NewLocalListenerWithManager AddrConnType lm a in
  ({| lh_addr := a; lh_listener := l |}, err).

(** [MaxRetryConnect] is a constant of the network package, and what
    the other goroutines do to the manager while this one is in
    [time.Sleep(WaitRetry)] is a parameter. *)
Variable MaxRetryConnect : Z.
Variable sleep : World Body Callback -> World Body Callback.

(** The [for i := 0; i < MaxRetryConnect; i++] loop of
    [LocalHost.Connect], with [n] turns left. *)
Fixpoint Connect_loop (lh : LocalHost) (a : Address) (n : nat) (finalErr : option error)
    (w : World Body Callback)
  : World Body Callback * (option LocalConn * option error) :=
  match n with
  | O => (w, (None, finalErr))
  | S n' =>
      match NewLocalConnWithManager w (lh_addr lh) a with
      | (w', inl c) => (w', (Some c, None))
      | (w', inr err) => Connect_loop lh a n' (Some err) (sleep w')
      end
  end.

(** The world at the [k]-th attempt of a [Connect] whose attempts fail
    until then: [k] sleeps later. *)
Fixpoint attempt (w : World Body Callback) (k : nat) : World Body Callback :=
  match k with
  | O => w
  | S k' => sleep (attempt w k')
  end.

(** [func (lh *LocalHost) Connect(addr Address) (Conn, error)] *)
Definition LocalHost_Connect (lh : LocalHost) (a : Address) (w : World Body Callback)
  : World Body Callback * (option LocalConn * option error) :=
  if negb (bool_decide (AddrConnType a = LocalType)) then
    (w, (None, Some (ErrMsg "Can't connect to non-Local address")))
  else Connect_loop lh a (Z.to_nat MaxRetryConnect) None w.

(** *** Clients of a connection *)

(** A client sends the bodies [msgs] on a connection, one after the
    other, and collects the results of [Send]. *)
Fixpoint SendAll (w : World Body Callback) (lc : LocalConn) (msgs : list Body)
  : World Body Callback * list (option error) :=
  match msgs with
  | [] => (w, [])
  | m :: msgs' =>
      let '(w', r) := LocalConn_Send TypeFromData w lc m in
      let '(w'', rs) := SendAll w' lc msgs' in
      (w'', r :: rs)
  end.

(** A client calls [Receive] [n] times on a connection and collects
    the results. *)
Fixpoint ReceiveN (w : World Body Callback) (lc : LocalConn) (n : nat)
  : World Body Callback * list (pop_result Body) :=
  match n with
  | O => (w, [])
  | S n' =>
      let '(w', r) := LocalConn_Receive EmptyBody w lc in
      let '(w'', rs) := ReceiveN w' lc n' in
      (w'', r :: rs)
  end.

(** Clients connect, one after the other, from and to the given
    addresses. *)
Fixpoint ConnectAll (w : World Body Callback) (pairs : list (Address * Address))
  : World Body Callback :=
  match pairs with
  | [] => w
  | (loc, rem) :: pairs' => ConnectAll (fst (connect w loc rem)) pairs'
  end.

(** *** Vocabulary *)

(** Two connections are the two ends of one link of the world: each
    is registered under its local endpoint, the remote endpoint of one
    is the local endpoint of the other, and they have queues of their
    own in the store. *)
Definition linked (w : World Body Callback) (a b : LocalConn) : Prop :=
  remote a = local b /\
  remote b = local a /\
  queues (manager w) !! local a = Some (lcQueue a) /\
  queues (manager w) !! local b = Some (lcQueue b) /\
  lcQueue a <> lcQueue b /\
  (lcQueue a < length (store w))%nat /\
  (lcQueue b < length (store w))%nat.

(** The unique identifiers handed out so far are below [baseUID],
    which has not wrapped around. *)
Definition uids_fresh (lm : LocalManager Callback) : Prop :=
  0 <= baseUID lm < uint64_modulus /\
  forall e q, queues lm !! e = Some q -> 0 <= e.2 < baseUID lm.

(** The packet [Send] makes of a body. *)
Definition packet_of (m : Body) : Packet Body :=
  {| MsgType := TypeFromData m; Msg := m |}.

End MoreTransport.

Arguments LocalHost : clear implicits.

End LocalMore.

(** * More of the host: what it keeps, and starting a protocol *)
Module SDAMore.
Import SDA.

Section MoreHost.
Context {Payload : Type} {ProtocolInstance : Type}.

Local Abbreviation HostT := (Host Payload ProtocolInstance).
Local Abbreviation MT := (M Payload ProtocolInstance).

(** Nothing the host holds is dropped between [h] and [h']: every
    identifier with a tree, a roster, an entity, a connection or an
    instance still has one, the pending tree marshals of a roster, the
    pending envelopes and the traces are extended at their end, and the
    identity of the host and its [closed] channel are as before. *)
Definition grows (h h' : HostT) : Prop :=
  host_Entity h' = host_Entity h /\
  closed h' = closed h /\
  (forall id, is_Some (trees h !! id) -> is_Some (trees h' !! id)) /\
  (forall id, is_Some (entityLists h !! id) -> is_Some (entityLists h' !! id)) /\
  (forall id, is_Some (entities h !! id) -> is_Some (entities h' !! id)) /\
  (forall id, is_Some (connections h !! id) -> is_Some (connections h' !! id)) /\
  (forall id, is_Some (instances (mapper h) !! id) ->
              is_Some (instances (mapper h') !! id)) /\
  (forall id sl, pendingTreeMarshal h !! id = Some sl ->
     exists sl', pendingTreeMarshal h' !! id = Some sl' /\ sl `prefix_of` sl') /\
  pendingSDAs h `prefix_of` pendingSDAs h' /\
  net h `prefix_of` net h' /\
  dispatched h `prefix_of` dispatched h' /\
  instantiated h `prefix_of` instantiated h'.

(** Every entity the host has a connection to is in its table of
    entities ([registerConnection] fills both). *)
Definition conn_known (h : HostT) : Prop :=
  forall id, is_Some (connections h !! id) -> is_Some (entities h !! id).

(** The tables of the host are consistent: connections are registered
    under the identifier of their entity, with the entity known, and
    every pending envelope has a recipient token. *)
Definition host_wf (h : HostT) : Prop :=
  SDASpec.conn_wf h /\ SDASpec.pending_wf h /\ conn_known h.

Definition keeps_conn_known (h h' : HostT) : Prop := conn_known h -> conn_known h'.
Definition keeps_host_wf (h h' : HostT) : Prop := host_wf h -> host_wf h'.

(** ** [treesLock]

    [StartNewProtocol] returns on one path with [treesLock] held. The
    host state is extended by that mutex, and the functions that take
    it are written with their [Lock] and [Unlock]. *)
Record LockedHost : Type := mkLockedHost {
  lh_host : HostT;
  treesLocked : bool
}.

Definition ML (A : Type) : Type := LockedHost -> LockedHost * outcome A.

Definition retL {A} (a : A) : ML A := fun s => (s, Returned a).

Definition bindL {A B} (m : ML A) (k : A -> ML B) : ML B :=
  fun s =>
    match m s with
    | (s', Returned a) => k a s'
    | (s', Deadlock) => (s', Deadlock)
    | (s', Panicked) => (s', Panicked)
    | (s', Waiting) => (s', Waiting)
    end.

(** A host function that does not touch [treesLock]. *)
Definition liftL {A} (m : MT A) : ML A :=
  fun s =>
    let '(h', r) := m (lh_host s) in
    ({| lh_host := h'; treesLocked := treesLocked s |}, r).

Notation "x <- c1 ;; c2" := (bindL c1 (fun x => c2))
  (at level 100, c1 at next level, right associativity).
Notation "c1 ;;; c2" := (bindL c1 (fun _ => c2))
  (at level 100, right associativity).

(** [h.treesLock.Lock()] and [h.treesLock.Unlock()] *)
Definition lock_trees : ML unit :=
  fun s =>
    if treesLocked s then (s, Deadlock)
    else ({| lh_host := lh_host s; treesLocked := true |}, Returned tt).

Definition unlock_trees : ML unit :=
  fun s => ({| lh_host := lh_host s; treesLocked := false |}, Returned tt).

Variable protocols : gmap UUID (TreeNode -> Token -> ProtocolInstance).
Variable Token_Id : Token -> UUID.
(** [pi.Start()] of the protocol instance. *)
Variable Start : ProtocolInstance -> MT (option error).
(** [ProtocolNameToUuid] *)
Variable ProtocolNameToUuid : string -> UUID.

(** [func (h *Host) GetTree(id uuid.UUID)], with its lock. *)
Definition GetTree_locked (id : UUID) : ML (option Tree) :=
  lock_trees ;;;
  t <- liftL (gets (fun h => trees h !! id)) ;;
  unlock_trees ;;;
  retL t.

(** [func (h *Host) protocolInstantiate(tok *Token, tn *TreeNode)],
    with the lock [GetTree] takes. *)
Definition protocolInstantiate_locked (tok : Token) (tn : option TreeNode)
  : ML (ProtocolInstance + error) :=
  match protocols !! ProtocolID tok with
  | None => retL (inr (ErrMsg "Protocol doesn't exist"))
  | Some p =>
      otree <- GetTree_locked (TreeID tok) ;;
      match otree with
      | None => retL (inr (ErrMsg "Tree does not exists"))
      | Some tree =>
          oil <- liftL (GetEntityList (EntityListID tok)) ;;
          match oil with
          | None => retL (inr (ErrMsg "EntityList does not exists"))
          | Some _ =>
              if negb (IsInTree tn tree) then
                retL (inr (ErrMsg "We are not represented in the tree"))
              else
                match tn with
                | None => liftL panic
                | Some n =>
                    let pi := p n tok in
                    liftL (modify (fun h => record_instance h tok)) ;;;
                    liftL (RegisterProtocolInstance Token_Id pi tok) ;;;
                    retL (inl pi)
                end
          end
      end
  end.

(** The loop of [checkPendingSDA], with the lock
    [protocolInstantiate] takes. *)
Fixpoint checkPendingSDA_loop_locked (t : Tree) (l : list (SDAData Payload)) : ML unit :=
  match l with
  | [] => retL tt
  | sdaMsg :: rest =>
      match To sdaMsg with
      | None => liftL panic
      | Some to =>
          (if bool_decide (Tree_Id t = TreeID to) then
             match GetNode t (TreeNodeID to) with
             | None => retL tt
             | Some node =>
                 r <- protocolInstantiate_locked to (Some node) ;;
                 match r with
                 | inr _ => retL tt
                 | inl _ => liftL (DispatchToInstance Token_Id sdaMsg) ;;; retL tt
                 end
             end
           else retL tt) ;;;
          checkPendingSDA_loop_locked t rest
      end
  end.

(** [func (h *Host) checkPendingSDA(t *Tree)] *)
Definition checkPendingSDA_locked (t : Tree) : ML unit :=
  l <- liftL (gets pendingSDAs) ;;
  checkPendingSDA_loop_locked t l.

(** [func (h *Host) AddTree(t *Tree)], with its lock. *)
Definition AddTree_locked (t : Tree) : ML unit :=
  lock_trees ;;;
  liftL (modify (fun h => set_trees h (<[Tree_Id t := t]> (trees h)))) ;;;
  unlock_trees ;;;
  checkPendingSDA_locked t.

(** The token [StartNewProtocol] builds; [round] is the identifier
    [cliutils.NewRandomUUID()] returns. The tree node is not set. *)
Definition start_token (protocolID treeID round : UUID) (tree : Tree) : Token :=
  {| ProtocolID := protocolID;
     EntityListID := EntityList_Id (Tree_EntityList tree);
     TreeID := treeID;
     RoundID := round;
     TreeNodeID := uuid_Nil |}.

(** [func (h *Host) StartNewProtocol(protocolID uuid.UUID, treeID uuid.UUID)],
    returning the protocol instance or an error. The [return] for an
    unknown tree comes before [h.treesLock.Unlock()]. *)
Definition StartNewProtocol (protocolID treeID round : UUID)
  : ML (ProtocolInstance + error) :=
  if negb (ProtocolExists protocols protocolID) then
    retL (inr (ErrMsg "Protocol does not exists"))
  else
    lock_trees ;;;
    otree <- liftL (gets (fun h => trees h !! treeID)) ;;
    match otree with
    | None => retL (inr (ErrMsg "TreeId does not exists"))
    | Some tree =>
        unlock_trees ;;;
        let token := start_token protocolID treeID round tree in
        r <- protocolInstantiate_locked token (Some (Root tree)) ;;
        match r with
        | inr err => retL (inr err)
        | inl pi =>
            e <- liftL (Start pi) ;;
            match e with
            | Some err => retL (inr err)
            | None => retL (inl pi)
            end
        end
    end.

(** [func (h *Host) StartNewProtocolName(name string, treeID uuid.UUID)] *)
Definition StartNewProtocolName (name : string) (treeID round : UUID)
  : ML (ProtocolInstance + error) :=
  StartNewProtocol (ProtocolNameToUuid name) treeID round.

(** The host with [treesLock] free. *)
Definition unlocked (h : HostT) : LockedHost :=
  {| lh_host := h; treesLocked := false |}.

End MoreHost.

Arguments LockedHost Payload ProtocolInstance : clear implicits.
Arguments ML Payload ProtocolInstance A : clear implicits.

End SDAMore.

(** * The log levels the host writes with

    The package [debug_lvl] ([dbg] in host.go): the paddings [Lvl] keeps
    for the caller's name and line. *)
Module DebugLvl.

(** The package variables [NamePadding] and [LinePadding]. *)
Record Paddings : Type := mkPaddings {
  NamePadding : Z;
  LinePadding : Z
}.

(** [len(s)] of a string *)
Definition str_len (s : string) : Z := Z.of_nat (String.length s).

(** The two updates of the paddings in [func Lvl(lvl int, args ...interface{})],
    for a caller with the function name [name] at the line [line];
    [lineStr] is [fmt.Sprintf("%d", line)]. *)
Definition Lvl_paddings (st : Paddings) (name : string) (line : Z) : Paddings :=
  let lineStr := pretty line in
  let np := if bool_decide (str_len name > NamePadding st) && bool_decide (NamePadding st > 0)
            then str_len name else NamePadding st in
  let lp := if bool_decide (str_len lineStr > LinePadding st) && bool_decide (LinePadding st > 0)
            then str_len name else LinePadding st in
  {| NamePadding := np; LinePadding := lp |}.

(** The paddings after a run of calls of [Lvl], each given by the name
    and the line of its caller. *)
Definition Lvl_run (st : Paddings) (calls : list (string * Z)) : Paddings :=
  foldl (fun st c => Lvl_paddings st c.1 c.2) st calls.

(** The length of the longest of the names, [0] when there is none. *)
Definition longest (names : list string) : Z :=
  foldr Z.max 0 (str_len <$> names).

End DebugLvl.

(** * Properties of the local transport *)
Module LocalProps.
Import Local.

Section Queue.
Context {Body : Type}.
Variable EmptyBody : Body.

Lemma push_closed (c : connQueue Body) (p : Packet Body) :
  isClosed c = true -> push c p = c.
Proof. intros Hc. unfold push. now rewrite Hc. Qed.

Lemma pop_closed (c : connQueue Body) :
  isClosed c = true -> pop EmptyBody c = (c, closed_error EmptyBody).
Proof.
  intros Hc. unfold pop. rewrite Hc. now destruct (queue c).
Qed.

Lemma close_closed (c : connQueue Body) :
  isClosed c = true -> close c = c.
Proof. destruct c as [q b]. simpl. now intros ->. Qed.

Lemma run_ops_closed (c : connQueue Body) (ops : list (queue_op Body)) :
  isClosed c = true ->
  run_ops EmptyBody c ops = (c, replicate (pops ops) (closed_error EmptyBody)).
Proof.
  intros Hc. induction ops as [|o ops IH]; [reflexivity|].
  destruct o as [p| |]; simpl.
  - rewrite push_closed by assumption. exact IH.
  - rewrite pop_closed by assumption. rewrite IH. reflexivity.
  - rewrite close_closed by assumption. exact IH.
Qed.

Lemma closed_error_not_delivery (p : Packet Body) (n : nat) :
  ~ delivered p (replicate n (closed_error EmptyBody)).
Proof.
  unfold delivered. intros H. apply elem_of_replicate in H as [H _]. discriminate H.
Qed.

(** C10. Once a [connQueue] is closed, every [pop] returns
    [ErrClosed] with the empty packet, whatever the queue still holds,
    and every [push] leaves the queue as it is; so through any later
    sequence of pushes, pops and closes the queue stays what it was at
    close time, each pop gets the closed error, and no packet (queued at
    close time or pushed afterwards) is ever returned by a pop. *)
Theorem connQueue_closed_discards (c : connQueue Body) :
  pop EmptyBody (close c) = (close c, closed_error EmptyBody) /\
  (forall p, push (close c) p = close c) /\
  (forall ops,
     run_ops EmptyBody (close c) ops =
       (close c, replicate (pops ops) (closed_error EmptyBody)) /\
     forall p, ~ delivered p (snd (run_ops EmptyBody (close c) ops))).
Proof.
  split; [|split].
  - now apply pop_closed.
  - intros p. now apply push_closed.
  - intros ops. rewrite run_ops_closed by reflexivity. split; [reflexivity|].
    intros p. apply closed_error_not_delivery.
Qed.

End Queue.

Section Manager.
Context {Body : Type} {Callback : Type}.
Variable TypeFromData : Body -> N.
Variable AddrConnType : Address -> ConnType.

Lemma manager_close_forgets_remote (w : World Body Callback) (lc : LocalConn) :
  queues (manager (manager_close w lc)) !! remote lc = None.
Proof.
  unfold manager_close.
  destruct (delete (local lc) (queues (manager w)) !! remote lc) as [r|] eqn:E; simpl.
  - apply lookup_delete_eq.
  - exact E.
Qed.

Lemma send_unknown_endpoint (w : World Body Callback) (e : endpoint) (nm : Packet Body) :
  queues (manager w) !! e = None -> send w e nm = (w, Some ErrClosed).
Proof. intros H. unfold send. now rewrite H. Qed.

(** The unique identifiers only grow: while [baseUID] has not wrapped
    around, a later [connect] does not bring back an endpoint that the
    manager has forgotten, and a send to it keeps failing. *)
Lemma connect_keeps_forgotten (w : World Body Callback) (loc rem : Address) (e : endpoint) :
  queues (manager w) !! e = None ->
  0 <= baseUID (manager w) ->
  e.2 < baseUID (manager w) ->
  baseUID (manager w) + 1 < uint64_modulus ->
  queues (manager (fst (connect w loc rem))) !! e = None.
Proof.
  intros Hnone Hpos Hlt Hwrap. unfold connect.
  destruct (listening (manager w) !! rem) as [fn|]; [|exact Hnone]. simpl.
  assert (Hincr : uint64_incr (baseUID (manager w)) = baseUID (manager w) + 1).
  { unfold uint64_incr. apply Z.mod_small. lia. }
  rewrite !lookup_insert_ne; [exact Hnone| |].
  - intros <-. simpl in Hlt. lia.
  - intros <-. simpl in Hlt. rewrite Hincr in Hlt. lia.
Qed.

Lemma isListening_spec (lm : LocalManager Callback) (a : Address) :
  isListening lm a = true <-> is_Some (listening lm !! a).
Proof. unfold isListening. apply bool_decide_eq_true. Qed.

Lemma isListening_after_Listen (lm : LocalManager Callback) (ll : LocalListener) (fn : Callback) :
  isListening (fst (Listen lm ll fn)) (addr ll) = true.
Proof.
  apply isListening_spec. simpl. rewrite lookup_insert_eq. eauto.
Qed.

Lemma bind_listening (lm : LocalManager Callback) (ll : LocalListener) (a : Address) :
  isListening lm a = true ->
  bind AddrConnType lm ll a =
    (ll, Some (if bool_decide (AddrConnType a = LocalType)
               then ErrMsg (a +:+ " is already listening: can't listen again")
               else ErrMsg "Wrong address type for local listener")).
Proof.
  intros H. unfold bind. rewrite H.
  now destruct (bool_decide (AddrConnType a = LocalType)).
Qed.

(** C9. In the local transport: [connect] to an address that is not
    listening fails with the "not listening" error and changes nothing;
    [bind] on an address that is already listening fails (with the
    "already listening" error for a local address) and leaves the
    listener unbound, in particular a second listener created on an
    address on which a first one listens; and [Send] on a connection
    after its [Close] returns [ErrClosed]. *)
Theorem local_transport_errors
    (w : World Body Callback) (loc rem a : Address) (fn : Callback)
    (ll : LocalListener) (lc : LocalConn) (msg : Body)
    (Hrem : listening (manager w) !! rem = None)
    (Ha : isListening (manager w) a = true)
    (Hlocal : AddrConnType a = LocalType) :
  connect w loc rem =
    (w, inr (ErrMsg (loc +:+ " can't connect to " +:+ rem +:+ ": it's not listening"))) /\
  bind AddrConnType (manager w) ll a =
    (ll, Some (ErrMsg (a +:+ " is already listening: can't listen again"))) /\
  (forall lm first,
     addr first = a ->
     snd (NewLocalListenerWithManager AddrConnType (fst (Listen lm first fn)) a) =
       Some (ErrMsg (a +:+ " is already listening: can't listen again"))) /\
  LocalConn_Send TypeFromData (fst (LocalConn_Close w lc)) lc msg =
    (fst (LocalConn_Close w lc), Some ErrClosed).
Proof.
  repeat split.
  - unfold connect. now rewrite Hrem.
  - rewrite bind_listening by assumption.
    now rewrite bool_decide_eq_true_2 by assumption.
  - intros lm first <-. unfold NewLocalListenerWithManager.
    rewrite bind_listening by apply isListening_after_Listen.
    now rewrite bool_decide_eq_true_2 by assumption.
  - unfold LocalConn_Send, LocalConn_Close. cbn [fst].
    apply send_unknown_endpoint, manager_close_forgets_remote.
Qed.

End Manager.

End LocalProps.

(** * Properties of the SDA host *)
Module SDAProps.
Import SDA SDASpec.

(** ** Tokens *)

(** C5. Token symmetry: for tokens [t1], [t2] of the same protocol,
    roster, tree and round, with [tn1] the tree node of [t1] and [tn2]
    the tree node of [t2], the peer view of [t1] at [tn2] is [t2], and
    taking the peer view back at [tn1] gives [t1] again:
    [t1.other(t2.treeNode).other(t1.treeNode) == t1]. *)
Theorem token_symmetry (t1 t2 : Token) (tn1 tn2 : TreeNode)
    (Hround : same_round t1 t2)
    (Htn1 : treeNode_of t1 tn1)
    (Htn2 : treeNode_of t2 tn2) :
  OtherToken (OtherToken t1 tn2) tn1 = t1 /\
  OtherToken t1 tn2 = t2.
Proof.
  destruct t1 as [p1 e1 tr1 r1 n1], t2 as [p2 e2 tr2 r2 n2].
  destruct Hround as (Hp & He & Ht & Hr).
  unfold treeNode_of in Htn1, Htn2. unfold OtherToken.
  simpl in *. subst. split; reflexivity.
Qed.

(** The peer view keeps the protocol, roster, tree and round of a
    token and takes the tree node it is given. *)
Lemma OtherToken_fields (t : Token) (tn : TreeNode) :
  same_round t (OtherToken t tn) /\ treeNode_of (OtherToken t tn) tn.
Proof. repeat split. Qed.

Section HostProps.
Context {Payload : Type} {ProtocolInstance : Type} {Constructors : Type}.
Variable protocols : gmap UUID (TreeNode -> Token -> ProtocolInstance).
Variable Token_Id : Token -> UUID.
Variable Open : Entity -> SecureConn + error.
Variable HostClose : option error.
Variable error_text : error -> string.
Variable DefaultConstructors : Constructors.
Variable MarshalRegisteredType : option Payload -> bytes + error.
Variable TypeFromData : option Payload -> UUID.
Variable UnmarshalRegisteredType :
  bytes -> Constructors -> UUID * option Payload * option error.
Variable MakeTree : TreeMarshal -> EntityList -> Tree + error.
Variable MakeTreeMarshal : Tree -> TreeMarshal.
Variable EmptyTreeMarshal : TreeMarshal.

Local Abbreviation HostT := (Host Payload ProtocolInstance).
Local Abbreviation MT := (M Payload ProtocolInstance).
Local Abbreviation SendRaw' := (@SendRaw Payload ProtocolInstance Open).
Local Abbreviation SendSDAToTreeNode' :=
  (@SendSDAToTreeNode Payload ProtocolInstance Token_Id Open error_text
     MarshalRegisteredType TypeFromData).
Local Abbreviation SendSDA' :=
  (@SendSDA Payload ProtocolInstance Token_Id Open error_text
     MarshalRegisteredType TypeFromData).

(** ** Reasoning about host functions *)

Section Preserves.
Context (R : relation HostT) `{!PreOrder R}.

Lemma preserves_ret {A} (a : A) : preserves R (ret a : MT A).
Proof. intros h h' r [= <- _]. reflexivity. Qed.

Lemma preserves_gets {A} (f : HostT -> A) : preserves R (gets f).
Proof. intros h h' r [= <- _]. reflexivity. Qed.

Lemma preserves_panic {A} : preserves R (panic : MT A).
Proof. intros h h' r [= <- _]. reflexivity. Qed.

Lemma preserves_deadlock {A} : preserves R (deadlock : MT A).
Proof. intros h h' r [= <- _]. reflexivity. Qed.

Lemma preserves_waiting {A} : preserves R (waiting : MT A).
Proof. intros h h' r [= <- _]. reflexivity. Qed.

Lemma preserves_modify (f : HostT -> HostT) :
  (forall h, R h (f h)) -> preserves R (modify f).
Proof. intros Hf h h' r [= <- _]. apply Hf. Qed.

Lemma preserves_bind {A B} (m : MT A) (k : A -> MT B) :
  preserves R m -> (forall a, preserves R (k a)) -> preserves R (bindM m k).
Proof.
  intros Hm Hk h h' r. unfold bindM.
  destruct (m h) as [h1 [a| | |]] eqn:E; intros H.
  - transitivity h1; [eapply Hm, E | eapply Hk, H].
  - injection H as <- _. eapply Hm, E.
  - injection H as <- _. eapply Hm, E.
  - injection H as <- _. eapply Hm, E.
Qed.

End Preserves.

Lemma preserves_weaken {A} (R R' : relation HostT) (m : MT A) :
  (forall h h', R h h' -> R' h h') -> preserves R m -> preserves R' m.
Proof. intros HR Hm h h' r E. eapply HR, Hm, E. Qed.

#[local] Instance only_network_preorder : PreOrder (@only_network Payload ProtocolInstance).
Proof.
  split.
  - intros h. repeat split.
  - intros h1 h2 h3 H12 H23. unfold only_network in *.
    destruct H12 as (?&?&?&?&?&?&?&?&?&?), H23 as (?&?&?&?&?&?&?&?&?&?).
    repeat split; congruence.
Qed.

#[local] Instance only_instances_preorder : PreOrder (@only_instances Payload ProtocolInstance).
Proof.
  split.
  - intros h. repeat split.
  - intros h1 h2 h3 H12 H23. unfold only_instances in *.
    destruct H12 as (?&?&?&?&?&?&?&?&?&?), H23 as (?&?&?&?&?&?&?&?&?&?).
    repeat split; congruence.
Qed.

#[local] Instance net_extends_preorder (P : NetEvent Payload -> Prop) :
  PreOrder (@net_extends Payload ProtocolInstance P).
Proof.
  split.
  - intros h. exists []. split; [now rewrite app_nil_r | constructor].
  - intros h1 h2 h3 (e1 & E1 & F1) (e2 & E2 & F2). exists (e1 ++ e2). split.
    + rewrite E2, E1. now rewrite app_assoc.
    + now apply Forall_app.
Qed.

Lemma net_extends_same (P : NetEvent Payload -> Prop) (h h' : HostT) :
  net h' = net h -> net_extends P h h'.
Proof. intros E. exists []. split; [now rewrite app_nil_r | constructor]. Qed.

Lemma net_extends_emit (P : NetEvent Payload -> Prop) (h : HostT) (evs : list (NetEvent Payload)) :
  Forall P evs -> net_extends P h (emit h evs).
Proof. intros F. exists evs. split; [reflexivity | assumption]. Qed.

Lemma net_extends_mono (P Q : NetEvent Payload -> Prop) (h h' : HostT) :
  (forall ev, P ev -> Q ev) -> net_extends P h h' -> net_extends Q h h'.
Proof.
  intros HPQ (evs & E & F). exists evs. split; [exact E|].
  eapply Forall_impl; eauto.
Qed.

(** Splits a goal [preserves R m] along the structure of [m]. *)
Ltac preserves_step :=
  lazymatch goal with
  | |- preserves _ (bindM _ _) => apply preserves_bind; [tc_solve | | intros ?]
  | |- preserves _ (ret _) => apply preserves_ret; tc_solve
  | |- preserves _ (gets _) => apply preserves_gets; tc_solve
  | |- preserves _ panic => apply preserves_panic; tc_solve
  | |- preserves _ deadlock => apply preserves_deadlock; tc_solve
  | |- preserves _ waiting => apply preserves_waiting; tc_solve
  | |- preserves _ (modify _) => apply preserves_modify; intros ?
  | |- preserves _ (match ?x with _ => _ end) => destruct x eqn:?
  | |- preserves _ (let '(_, _) := ?x in _) => destruct x eqn:?
  end.

(** ** Connections *)

Lemma registerConnection_only_network (c : SecureConn) :
  preserves only_network (registerConnection c : MT unit).
Proof. unfold registerConnection. repeat preserves_step; repeat split. Qed.

Lemma Connect_only_network (e : Entity) :
  preserves only_network (Connect Open e : MT _).
Proof.
  unfold Connect. repeat preserves_step; try apply registerConnection_only_network;
    repeat split.
Qed.

Lemma SendRaw_only_network (e : Entity) (msg : option (Frame Payload)) :
  preserves only_network (SendRaw' e msg).
Proof.
  unfold SendRaw. repeat preserves_step; try apply Connect_only_network; repeat split.
Qed.

Lemma Connect_net (P : NetEvent Payload -> Prop) (e : Entity) :
  (forall c, P (NetHandleConn c)) ->
  preserves (net_extends P) (Connect Open e : MT _).
Proof.
  intros HP. unfold Connect, registerConnection. repeat preserves_step;
    try (apply net_extends_same; reflexivity).
  apply net_extends_emit. apply Forall_singleton, HP.
Qed.

Lemma SendRaw_net (e : Entity) (f : Frame Payload) :
  preserves (net_extends (sends_frame f)) (SendRaw' e (Some f)).
Proof.
  unfold SendRaw. repeat preserves_step;
    try (apply net_extends_same; reflexivity).
  - apply Connect_net. intros c. left. eauto.
  - apply net_extends_emit. apply Forall_singleton. right. eauto.
Qed.

Lemma SendRaw_returns (e : Entity) (msg : option (Frame Payload)) :
  returns (SendRaw' e msg).
Proof.
  intros h. destruct msg as [f|]; [|simpl; eauto].
  unfold SendRaw, Connect, registerConnection, bindM, gets, modify, ret.
  destruct (entities h !! Entity_Id e) as [?|]; simpl.
  - destruct (connections h !! Entity_Id e); simpl; eauto.
  - destruct (Open e) as [c|err]; simpl; [|eauto].
    destruct (<[Entity_Id (conn_Entity c):=c]> (connections h) !! Entity_Id e);
      simpl; eauto.
Qed.

Lemma SendRaw_sent (e : Entity) (f : Frame Payload) (h h' : HostT) :
  SendRaw' e (Some f) h = (h', Returned None) ->
  exists c pre,
    connections h' !! Entity_Id e = Some c /\
    net h' = net h ++ pre ++ [NetSend c f] /\
    Forall (fun ev => exists c0, ev = NetHandleConn c0) pre /\
    (conn_wf h -> conn_wf h').
Proof.
  unfold SendRaw, Connect, registerConnection, bindM, gets, modify, ret.
  destruct (entities h !! Entity_Id e) as [?|]; simpl.
  - destruct (connections h !! Entity_Id e) as [c|] eqn:Ec; simpl; [|discriminate].
    intros [= <-]. exists c, []. simpl. repeat split; auto.
  - destruct (Open e) as [c0|err]; simpl; [|discriminate].
    destruct (<[Entity_Id (conn_Entity c0):=c0]> (connections h) !! Entity_Id e)
      as [c|] eqn:Ec; simpl; [|discriminate].
    intros [= <-]. exists c, [NetHandleConn c0]. simpl.
    split; [exact Ec|]. split; [now rewrite <- app_assoc|].
    split; [apply Forall_singleton; eauto|].
    intros Hwf id c1. simpl.
    destruct (decide (Entity_Id (conn_Entity c0) = id)) as [<-|Hne].
    + rewrite lookup_insert_eq. now intros [= <-].
    + rewrite lookup_insert_ne by assumption. apply Hwf.
Qed.

#[local] Instance keeps_preorder {X} (proj : HostT -> X) : PreOrder (keeps proj).
Proof.
  split.
  - intros h. reflexivity.
  - intros h1 h2 h3 H12 H23. unfold keeps in *. congruence.
Qed.

(** ** The instance registry *)

Lemma RegisterProtocolInstance_only_instances (pi : ProtocolInstance) (tok : Token) :
  preserves only_instances (RegisterProtocolInstance Token_Id pi tok : MT unit).
Proof. unfold RegisterProtocolInstance. repeat preserves_step; repeat split. Qed.

Lemma DispatchToInstance_only_instances (sda : SDAData Payload) :
  preserves only_instances (DispatchToInstance Token_Id sda : MT _).
Proof. unfold DispatchToInstance. repeat preserves_step; repeat split. Qed.

Lemma protocolInstantiate_only_instances (tok : Token) (tn : option TreeNode) :
  preserves only_instances (protocolInstantiate protocols Token_Id tok tn : MT _).
Proof.
  unfold protocolInstantiate, GetTree, GetEntityList. repeat preserves_step;
    try apply RegisterProtocolInstance_only_instances.
  repeat split.
Qed.

Lemma checkPendingSDA_loop_only_instances (t : Tree) (l : list (SDAData Payload)) :
  preserves only_instances (checkPendingSDA_loop protocols Token_Id t l : MT unit).
Proof.
  induction l as [|sda l IH]; simpl; repeat preserves_step;
    auto using protocolInstantiate_only_instances, DispatchToInstance_only_instances.
Qed.

Lemma checkPendingSDA_only_instances (t : Tree) :
  preserves only_instances (checkPendingSDA protocols Token_Id t : MT unit).
Proof.
  unfold checkPendingSDA. repeat preserves_step.
  apply checkPendingSDA_loop_only_instances.
Qed.

Lemma only_instances_beside_trees (h h' : HostT) :
  only_instances h h' -> keeps beside_trees h h'.
Proof.
  intros (?&?&?&?&?&?&?&?&?&?). unfold keeps, beside_trees. congruence.
Qed.

Lemma AddTree_beside_trees (t : Tree) :
  preserves (keeps beside_trees) (AddTree protocols Token_Id t : MT unit).
Proof.
  unfold AddTree. repeat preserves_step; [reflexivity|].
  eapply preserves_weaken; [apply only_instances_beside_trees|].
  apply checkPendingSDA_only_instances.
Qed.

(** ** Sending *)




Local Abbreviation processSDAMessage' :=
  (@processSDAMessage Payload ProtocolInstance protocols Token_Id Open
     Constructors DefaultConstructors UnmarshalRegisteredType).
Local Abbreviation ProcessMessages_turn' :=
  (@ProcessMessages_turn Payload ProtocolInstance protocols Token_Id Open
     Constructors DefaultConstructors UnmarshalRegisteredType
     MakeTree MakeTreeMarshal EmptyTreeMarshal).
Local Abbreviation ProcessMessages' :=
  (@ProcessMessages Payload ProtocolInstance protocols Token_Id Open
     Constructors DefaultConstructors UnmarshalRegisteredType
     MakeTree MakeTreeMarshal EmptyTreeMarshal).
Local Abbreviation Close' := (@Close Payload ProtocolInstance HostClose).

(** ** What the dispatcher puts on the network *)

Lemma keeps_net_extends (P : NetEvent Payload -> Prop) {A} (m : MT A) :
  preserves (keeps net) m -> preserves (net_extends P) m.
Proof. apply preserves_weaken. intros h h'. apply net_extends_same. Qed.

Lemma only_instances_net (P : NetEvent Payload -> Prop) {A} (m : MT A) :
  preserves only_instances m -> preserves (net_extends P) m.
Proof.
  apply preserves_weaken. intros h h' (?&?&?&?&?&?&?&?&?&?).
  now apply net_extends_same.
Qed.

Lemma AddTree_net (P : NetEvent Payload -> Prop) (t : Tree) :
  preserves (net_extends P) (AddTree protocols Token_Id t : MT unit).
Proof.
  eapply preserves_weaken; [|apply AddTree_beside_trees].
  intros h h' E. apply net_extends_same. unfold keeps, beside_trees in E. congruence.
Qed.

Lemma requestTree_net (e : Entity) (sda : SDAData Payload) (to : Token) :
  To sda = Some to ->
  preserves (net_extends (sends_frame (RequestTreeMessage (TreeID to))))
    (requestTree Open e sda : MT _).
Proof.
  intros Hto. unfold requestTree, addPendingSda. rewrite Hto.
  repeat preserves_step; [apply net_extends_same; reflexivity|].
  apply SendRaw_net.
Qed.

Lemma processSDAMessage_net (am : NetworkMessage Payload) (sda : SDAData Payload) (to : Token) :
  To sda = Some to ->
  preserves (net_extends (sends_frame (RequestTreeMessage (TreeID to))))
    (processSDAMessage' am sda).
Proof.
  intros Hto. unfold processSDAMessage, GetEntityList, GetTree.
  destruct (UnmarshalRegisteredType _ _) as [[t msg] err]. cbn [To]. rewrite Hto.
  repeat preserves_step;
    try (apply requestTree_net; reflexivity);
    try (apply only_instances_net;
         auto using protocolInstantiate_only_instances, DispatchToInstance_only_instances).
Qed.

Lemma sends_frame_no_envelope (f : Frame Payload) (ev : NetEvent Payload) :
  (forall sda, f <> SDADataMessage sda) -> sends_frame f ev -> emits_no_envelope ev.
Proof.
  intros Hf [[c ->]|[c ->]]; simpl; [exact I|].
  destruct f; try exact I. now apply (Hf sda).
Qed.

Lemma SendRaw_no_envelope (e : Entity) (f : Frame Payload) :
  (forall sda, f <> SDADataMessage sda) ->
  preserves (net_extends emits_no_envelope) (SendRaw' e (Some f)).
Proof.
  intros Hf. eapply preserves_weaken; [|apply SendRaw_net].
  intros h h'. apply net_extends_mono. intros ev. now apply sends_frame_no_envelope.
Qed.

Lemma addPendingTreeMarshal_net (tm : TreeMarshal) :
  preserves (keeps net) (addPendingTreeMarshal tm : MT unit).
Proof.
  unfold addPendingTreeMarshal, lock_pendingTree, unlock_pendingTree.
  repeat preserves_step; reflexivity.
Qed.

Lemma checkPendingTreeMarshal_loop_net (el : EntityList) (sl : list TreeMarshal) :
  preserves (keeps net)
    (checkPendingTreeMarshal_loop protocols Token_Id MakeTree el sl : MT unit).
Proof.
  induction sl as [|tm sl IH]; simpl; repeat preserves_step; auto.
  eapply preserves_weaken; [|apply AddTree_beside_trees].
  intros h h' E. unfold keeps, beside_trees in *. congruence.
Qed.

Lemma checkPendingTreeMarshal_net (el : EntityList) :
  preserves (keeps net)
    (checkPendingTreeMarshal protocols Token_Id MakeTree el : MT unit).
Proof.
  unfold checkPendingTreeMarshal, lock_pendingTree, unlock_pendingTree.
  repeat preserves_step; try reflexivity.
  apply checkPendingTreeMarshal_loop_net.
Qed.

Lemma ProcessMessages_turn_no_envelope (data : NetworkMessage Payload) :
  preserves (net_extends emits_no_envelope) (ProcessMessages_turn' data).
Proof.
  unfold ProcessMessages_turn, GetEntityList, AddEntityList.
  repeat preserves_step;
    try (apply SendRaw_no_envelope; discriminate);
    try (apply AddTree_net);
    try (apply only_instances_net, checkPendingSDA_only_instances);
    try (apply keeps_net_extends, addPendingTreeMarshal_net);
    try (apply keeps_net_extends, checkPendingTreeMarshal_net);
    try (apply net_extends_same; reflexivity).
  destruct (To sda) as [to|] eqn:Hto.
  - eapply preserves_weaken; [|apply (processSDAMessage_net _ _ _ Hto)].
    intros h h'. apply net_extends_mono. intros ev.
    apply sends_frame_no_envelope. discriminate.
  - unfold processSDAMessage.
    destruct (UnmarshalRegisteredType _ _) as [[t msg] err]. cbn [To]. rewrite Hto.
    apply preserves_panic; tc_solve.
Qed.

Lemma ProcessMessages_no_envelope (incoming : list (NetworkMessage Payload * Constructors)) :
  preserves (net_extends emits_no_envelope) (ProcessMessages' incoming).
Proof.
  induction incoming as [|[data cs] rest IH]; simpl; repeat preserves_step; auto.
  apply ProcessMessages_turn_no_envelope.
Qed.

Lemma Close_no_envelope :
  preserves (net_extends emits_no_envelope) Close'.
Proof.
  unfold Close. repeat preserves_step;
    try (apply net_extends_same; reflexivity);
    apply net_extends_emit.
  - apply Forall_fmap, Forall_true. intros c. exact I.
  - apply Forall_singleton. exact I.
Qed.

Lemma no_envelope_wf (ev : NetEvent Payload) :
  emits_no_envelope ev -> emits_wf_envelope ev.
Proof. destruct ev as [c [sda| | | | |]| | |]; simpl; tauto. Qed.

Lemma SendSDAToTreeNode_wf (from : option Token) (to : option TreeNode)
    (msg : option Payload) :
  preserves (net_extends emits_wf_envelope) (SendSDAToTreeNode' from to msg).
Proof.
  unfold SendSDAToTreeNode, sendSDAData. repeat preserves_step.
  eapply preserves_weaken; [|apply SendRaw_net].
  intros h h'. apply net_extends_mono.
  intros ev [[c ->]|[c ->]]; simpl; [exact I|].
  unfold wf_envelope. simpl. eauto.
Qed.

Lemma SendSDA_wf (from to : option Token) (msg : option Payload) :
  preserves (net_extends emits_wf_envelope) (SendSDA' from to msg).
Proof.
  unfold SendSDA, TreeNodeFromToken. repeat preserves_step.
  apply SendSDAToTreeNode_wf.
Qed.

(** C4. When [SendSDAToTreeNode(from, to, msg)] succeeds, sender and
    recipient are not [nil], the payload was marshalled on its own into
    [MsgSlice] (with its type tag in [MsgType] and [Msg] reset to
    [nil]), and exactly one frame was handed to a connection: the
    envelope whose [From] is the sender token and whose [To] is
    [from.OtherToken(to)], that is the sender token with the recipient's
    tree-node identifier in place of its own and the same protocol,
    roster, tree and round. The connection is the one registered under
    the identifier of the recipient tree node's entity (and leads to
    that entity when connections are registered by
    [registerConnection]). Moreover every envelope the host ever puts
    on the wire, through [SendSDAToTreeNode], [SendSDA], the dispatch
    loop or [Close], satisfies [From.other(recipient) == To]. *)
Theorem SendSDAToTreeNode_envelope
    (h h' : HostT) (from : option Token) (to : option TreeNode) (msg : option Payload)
    (Hok : SendSDAToTreeNode' from to msg h = (h', Returned None)) :
  (exists f tn b c pre,
     from = Some f /\ to = Some tn /\
     MarshalRegisteredType msg = inl b /\
     connections h' !! Entity_Id (TreeNode_Entity tn) = Some c /\
     (conn_wf h -> Entity_Id (conn_Entity c) = Entity_Id (TreeNode_Entity tn)) /\
     Forall (fun ev => exists c0, ev = NetHandleConn c0) pre /\
     net h' = net h ++ pre ++
       [NetSend c (SDADataMessage
          {| To := Some (OtherToken f tn);
             From := Some f;
             MsgType := TypeFromData msg;
             MsgSlice := b;
             Msg := None;
             sda_Entity := None |})] /\
     same_round f (OtherToken f tn) /\
     TreeNodeID (OtherToken f tn) = TreeNode_Id tn) /\
  (forall from0 to0 msg0,
     preserves (net_extends emits_wf_envelope) (SendSDAToTreeNode' from0 to0 msg0)) /\
  (forall from0 to0 msg0,
     preserves (net_extends emits_wf_envelope) (SendSDA' from0 to0 msg0)) /\
  (forall incoming,
     preserves (net_extends emits_wf_envelope) (ProcessMessages' incoming)) /\
  preserves (net_extends emits_wf_envelope) Close'.
Proof.
  split; [|split; [|split; [|split]]].
  - revert Hok. unfold SendSDAToTreeNode, sendSDAData, bindM at 1, gets.
    destruct (mapper_Instance Token_Id (mapper h) from); [|discriminate].
    destruct from as [f|]; [|discriminate].
    destruct to as [tn|]; [|discriminate].
    cbn [Msg To From sda_Entity].
    destruct (MarshalRegisteredType msg) as [b|err] eqn:Eb; [|discriminate].
    intros Hsend. apply SendRaw_sent in Hsend as (c & pre & Hc & Hnet & Hpre & Hwf).
    exists f, tn, b, c, pre. repeat split; auto.
    intros Hh. apply (Hwf Hh _ _ Hc).
  - apply SendSDAToTreeNode_wf.
  - apply SendSDA_wf.
  - intros incoming. eapply preserves_weaken; [|apply ProcessMessages_no_envelope].
    intros a b. apply net_extends_mono, no_envelope_wf.
  - eapply preserves_weaken; [|apply Close_no_envelope].
    intros a b. apply net_extends_mono, no_envelope_wf.
Qed.

(** ** Envelopes for unknown topology *)




(** ** Rescans of the pending envelopes *)

(** No rescan ever takes an envelope off the pending list. *)
Lemma checkPendingSDA_keeps_pending (t : Tree) (h : HostT) :
  pendingSDAs (fst (checkPendingSDA protocols Token_Id t h)) = pendingSDAs h.
Proof.
  destruct (checkPendingSDA _ _ _ _) as [h' r] eqn:E.
  apply checkPendingSDA_only_instances in E as (_&_&_&_&_&_&Hp&_). exact Hp.
Qed.

Lemma AddTree_keeps_pending (t : Tree) (h : HostT) :
  pendingSDAs (fst (AddTree protocols Token_Id t h)) = pendingSDAs h.
Proof.
  destruct (AddTree _ _ _ _) as [h' r] eqn:E.
  apply AddTree_beside_trees in E. unfold keeps, beside_trees in E.
  injection E. intros. assumption.
Qed.

(** ** Trees *)

Lemma GetNode_from_Id (tn : TreeNode) (id : UUID) (n : TreeNode) :
  GetNode_from tn id = Some n -> TreeNode_Id n = id.
Proof.
  revert n. induction tn as [i e cs IH] using TreeNode_children_ind.
  intros n. simpl. case_bool_decide as Hi.
  - intros [= <-]. exact Hi.
  - induction IH as [|c cs' Hc _ IHcs]; [discriminate|].
    destruct (GetNode_from c id) as [r|] eqn:E.
    + intros [= <-]. now apply Hc.
    + exact IHcs.
Qed.

Lemma GetNode_IsInTree (t : Tree) (id : UUID) (n : TreeNode) :
  GetNode t id = Some n -> IsInTree (Some n) t = true.
Proof.
  intros H. unfold IsInTree.
  rewrite (GetNode_from_Id _ _ _ H). unfold GetNode in H. unfold GetNode.
  now rewrite H.
Qed.

(** ** What a rescan dispatches *)

Lemma checkPendingSDA_loop_spec (t : Tree) (l : list (SDAData Payload)) (h : HostT) :
  Forall (fun sda => is_Some (To sda)) l ->
  trees h !! Tree_Id t = Some t ->
  exists h',
    checkPendingSDA_loop protocols Token_Id t l h = (h', Returned tt) /\
    only_instances h h' /\
    dispatched h' =
      dispatched h ++ omap (rescan_hit protocols Token_Id t (entityLists h)) l.
Proof.
  revert h. induction l as [|sda l IH]; intros h Hwf Ht.
  - exists h. simpl. rewrite app_nil_r. repeat split.
  - apply Forall_cons in Hwf as [[to Hto] Hwf].
    assert (Hstep : exists h1,
      (if bool_decide (Tree_Id t = TreeID to) then
         match GetNode t (TreeNodeID to) with
         | None => ret tt
         | Some node =>
             bindM (protocolInstantiate protocols Token_Id to (Some node))
               (fun r => match r with
                         | inr _ => ret tt
                         | inl _ => bindM (DispatchToInstance Token_Id sda) (fun _ => ret tt)
                         end)
         end
       else ret tt) h = (h1, Returned tt) /\
      only_instances h h1 /\
      dispatched h1 =
        dispatched h ++
          match rescan_hit protocols Token_Id t (entityLists h) sda with
          | Some d => [d] | None => []
          end).
    { unfold rescan_hit. rewrite Hto.
      case_bool_decide as Hid; [|exists h; rewrite app_nil_r; repeat split].
      destruct (GetNode t (TreeNodeID to)) as [node|] eqn:Hn;
        [|exists h; rewrite app_nil_r; repeat split].
      unfold protocolInstantiate, GetTree, GetEntityList.
      destruct (protocols !! ProtocolID to) as [p|];
        [|exists h; rewrite app_nil_r; repeat split].
      unfold bindM at 1 2, gets at 1. rewrite <- Hid, Ht.
      unfold bindM at 1, gets at 1.
      destruct (entityLists h !! EntityListID to) as [il|];
        [|exists h; rewrite app_nil_r; repeat split].
      rewrite (GetNode_IsInTree _ _ _ Hn). cbn [negb].
      unfold RegisterProtocolInstance, DispatchToInstance. rewrite Hto.
      unfold bindM, gets, modify, ret, mapper_Exists. simpl.
      rewrite lookup_insert_eq.
      rewrite bool_decide_eq_true_2 by eauto. simpl.
      eexists. split; [reflexivity|]. repeat split. }
    destruct Hstep as (h1 & E1 & Hf1 & Hd1).
    destruct (IH h1) as (h' & E' & Hf' & Hd'); [exact Hwf| |].
    { destruct Hf1 as (_&_&_&_&Htr&_). now rewrite Htr. }
    exists h'. split; [|split].
    + simpl. rewrite Hto. unfold bindM at 1. rewrite E1. exact E'.
    + etransitivity; eassumption.
    + rewrite Hd', Hd1. destruct Hf1 as (_&_&_&Hel&_). rewrite Hel.
      simpl. rewrite <- app_assoc.
      now destruct (rescan_hit protocols Token_Id t (entityLists h) sda).
Qed.

Lemma checkPendingSDA_spec (t : Tree) (h : HostT) :
  pending_wf h ->
  trees h !! Tree_Id t = Some t ->
  exists h',
    checkPendingSDA protocols Token_Id t h = (h', Returned tt) /\
    only_instances h h' /\
    dispatched h' =
      dispatched h ++
        omap (rescan_hit protocols Token_Id t (entityLists h)) (pendingSDAs h).
Proof.
  intros Hwf Ht. unfold checkPendingSDA, bindM, gets.
  apply checkPendingSDA_loop_spec; assumption.
Qed.

Lemma AddTree_spec (t : Tree) (h : HostT) :
  pending_wf h ->
  exists h',
    AddTree protocols Token_Id t h = (h', Returned tt) /\
    trees h' = <[Tree_Id t := t]> (trees h) /\
    keeps beside_trees h h' /\
    dispatched h' =
      dispatched h ++
        omap (rescan_hit protocols Token_Id t (entityLists h)) (pendingSDAs h).
Proof.
  intros Hwf. unfold AddTree, bindM at 1, modify.
  destruct (checkPendingSDA_spec t (set_trees h (<[Tree_Id t := t]> (trees h))))
    as (h' & E & Hf & Hd).
  - exact Hwf.
  - simpl. apply lookup_insert_eq.
  - exists h'. split; [exact E|]. split; [|split].
    + destruct Hf as (_&_&_&_&Htr&_). exact Htr.
    + apply only_instances_beside_trees in Hf. exact Hf.
    + exact Hd.
Qed.

(** ** The pending list stays well formed *)

#[local] Instance keeps_pending_wf_preorder :
  PreOrder (@keeps_pending_wf Payload ProtocolInstance).
Proof.
  split.
  - intros h H. exact H.
  - intros h1 h2 h3 H12 H23 H. apply H23, H12, H.
Qed.

Lemma same_pending_wf (h h' : HostT) :
  pendingSDAs h' = pendingSDAs h -> keeps_pending_wf h h'.
Proof. intros E Hwf. unfold pending_wf. now rewrite E. Qed.

Lemma SendRaw_pending_wf (e : Entity) (msg : option (Frame Payload)) :
  preserves keeps_pending_wf (SendRaw' e msg).
Proof.
  eapply preserves_weaken; [|apply SendRaw_only_network].
  intros h h' (_&_&_&_&_&Hp&_). now apply same_pending_wf.
Qed.

Lemma only_instances_pending_wf {A} (m : MT A) :
  preserves only_instances m -> preserves keeps_pending_wf m.
Proof.
  apply preserves_weaken. intros h h' (_&_&_&_&_&_&Hp&_). now apply same_pending_wf.
Qed.

Lemma AddTree_pending_wf (t : Tree) :
  preserves keeps_pending_wf (AddTree protocols Token_Id t : MT unit).
Proof.
  eapply preserves_weaken; [|apply AddTree_beside_trees].
  intros h h' E. apply same_pending_wf.
  unfold keeps, beside_trees in E. injection E. intros. assumption.
Qed.

Lemma processSDAMessage_pending_wf (am : NetworkMessage Payload) (sda : SDAData Payload) :
  preserves keeps_pending_wf (processSDAMessage' am sda).
Proof.
  unfold processSDAMessage, requestTree, addPendingSda, GetEntityList, GetTree.
  destruct (UnmarshalRegisteredType _ _) as [[t msg] err]. cbn [To].
  repeat preserves_step;
    try apply SendRaw_pending_wf;
    try (apply only_instances_pending_wf;
         auto using protocolInstantiate_only_instances, DispatchToInstance_only_instances).
  all: intros Hwf; unfold pending_wf; simpl;
    apply Forall_app; split; [exact Hwf|];
    apply Forall_singleton; simpl; eauto.
Qed.

Lemma checkPendingTreeMarshal_loop_pending_wf (el : EntityList) (sl : list TreeMarshal) :
  preserves keeps_pending_wf
    (checkPendingTreeMarshal_loop protocols Token_Id MakeTree el sl : MT unit).
Proof.
  induction sl as [|tm sl IH]; simpl; repeat preserves_step;
    auto using AddTree_pending_wf.
Qed.

(** The dispatcher keeps the pending list well formed: every envelope
    it queues has a recipient token. *)
Lemma ProcessMessages_turn_pending_wf (data : NetworkMessage Payload) :
  preserves keeps_pending_wf (ProcessMessages_turn' data).
Proof.
  unfold ProcessMessages_turn, GetEntityList, AddEntityList,
    addPendingTreeMarshal, checkPendingTreeMarshal, lock_pendingTree, unlock_pendingTree.
  repeat preserves_step;
    try apply SendRaw_pending_wf;
    try apply processSDAMessage_pending_wf;
    try apply AddTree_pending_wf;
    try apply checkPendingTreeMarshal_loop_pending_wf;
    try (apply only_instances_pending_wf, checkPendingSDA_only_instances);
    try (apply same_pending_wf; reflexivity).
Qed.

Lemma ProcessMessages_pending_wf (incoming : list (NetworkMessage Payload * Constructors)) :
  preserves keeps_pending_wf (ProcessMessages' incoming).
Proof.
  induction incoming as [|[data cs] rest IH]; simpl; repeat preserves_step; auto.
  apply ProcessMessages_turn_pending_wf.
Qed.

Lemma NewHost_pending_wf (e : Entity) : pending_wf (NewHost e : HostT).
Proof. apply Forall_nil_2. Qed.

(** ** The connection table stays well formed *)

#[local] Instance keeps_conn_wf_preorder :
  PreOrder (@keeps_conn_wf Payload ProtocolInstance).
Proof.
  split.
  - intros h H. exact H.
  - intros h1 h2 h3 H12 H23 H. apply H23, H12, H.
Qed.

Lemma same_conn_wf (h h' : HostT) :
  connections h' = connections h -> keeps_conn_wf h h'.
Proof. intros E Hwf. unfold conn_wf. now rewrite E. Qed.

Lemma SendRaw_conn_wf (e : Entity) (msg : option (Frame Payload)) :
  preserves keeps_conn_wf (SendRaw' e msg).
Proof.
  unfold SendRaw, Connect, registerConnection. repeat preserves_step;
    try (apply same_conn_wf; reflexivity).
  intros Hwf id c1. simpl.
  match goal with
  | |- <[Entity_Id (conn_Entity ?c0) := _]> _ !! _ = _ -> _ =>
      destruct (decide (Entity_Id (conn_Entity c0) = id)) as [<-|Hne]
  end.
  - rewrite lookup_insert_eq. now intros [= <-].
  - rewrite lookup_insert_ne by assumption. apply Hwf.
Qed.

Lemma only_instances_conn_wf {A} (m : MT A) :
  preserves only_instances m -> preserves keeps_conn_wf m.
Proof.
  apply preserves_weaken. intros h h' (_&Hc&_). now apply same_conn_wf.
Qed.

Lemma AddTree_conn_wf (t : Tree) :
  preserves keeps_conn_wf (AddTree protocols Token_Id t : MT unit).
Proof.
  eapply preserves_weaken; [|apply AddTree_beside_trees].
  intros h h' E. apply same_conn_wf.
  unfold keeps, beside_trees in E. injection E. intros. assumption.
Qed.

Lemma checkPendingTreeMarshal_loop_conn_wf (el : EntityList) (sl : list TreeMarshal) :
  preserves keeps_conn_wf
    (checkPendingTreeMarshal_loop protocols Token_Id MakeTree el sl : MT unit).
Proof.
  induction sl as [|tm sl IH]; simpl; repeat preserves_step;
    auto using AddTree_conn_wf.
Qed.

Lemma ProcessMessages_turn_conn_wf (data : NetworkMessage Payload) :
  preserves keeps_conn_wf (ProcessMessages_turn' data).
Proof.
  unfold ProcessMessages_turn, processSDAMessage, requestTree, addPendingSda,
    GetEntityList, GetTree, AddEntityList,
    addPendingTreeMarshal, checkPendingTreeMarshal, lock_pendingTree, unlock_pendingTree.
  repeat preserves_step;
    try apply SendRaw_conn_wf;
    try apply AddTree_conn_wf;
    try apply checkPendingTreeMarshal_loop_conn_wf;
    try (apply only_instances_conn_wf;
         auto using checkPendingSDA_only_instances, protocolInstantiate_only_instances,
                    DispatchToInstance_only_instances);
    try (apply same_conn_wf; reflexivity).
Qed.

(** From a fresh host on, through any frames, every connection of the
    table leads to the entity it is registered for. *)
Lemma ProcessMessages_conn_wf (incoming : list (NetworkMessage Payload * Constructors)) :
  preserves keeps_conn_wf (ProcessMessages' incoming).
Proof.
  induction incoming as [|[data cs] rest IH]; simpl; repeat preserves_step; auto.
  apply ProcessMessages_turn_conn_wf.
Qed.

Lemma NewHost_conn_wf (e : Entity) : conn_wf (NewHost e : HostT).
Proof. intros id c H. simpl in H. now rewrite lookup_empty in H. Qed.

(** ** Pending trees *)

Local Abbreviation addPendingTreeMarshal' :=
  (@addPendingTreeMarshal Payload ProtocolInstance).
Local Abbreviation checkPendingTreeMarshal' :=
  (@checkPendingTreeMarshal Payload ProtocolInstance protocols Token_Id MakeTree).

Lemma addPendingTreeMarshal_spec (tm : TreeMarshal) (h : HostT) :
  pendingTreeLocked h = false ->
  addPendingTreeMarshal' tm h =
    (set_pendingTreeMarshal h
       (<[EntityId tm := default [] (pendingTreeMarshal h !! EntityId tm) ++ [tm]]>
          (pendingTreeMarshal h)),
     Returned tt).
Proof.
  intros Hl. unfold addPendingTreeMarshal, lock_pendingTree, unlock_pendingTree,
    bindM, gets, modify. rewrite Hl. simpl.
  destruct h; simpl in *; subst.
  now destruct (pendingTreeMarshal0 !! EntityId tm).
Qed.

(** With [pendingTreeLock] held, the dispatcher parks in
    [addPendingTreeMarshal] and the marshal is not queued. *)
Lemma addPendingTreeMarshal_locked (tm : TreeMarshal) (h : HostT) :
  pendingTreeLocked h = true -> addPendingTreeMarshal' tm h = (h, Deadlock).
Proof.
  intros Hl. unfold addPendingTreeMarshal, lock_pendingTree, bindM, gets, deadlock.
  now rewrite Hl.
Qed.

Lemma checkPendingTreeMarshal_loop_spec (el : EntityList) (sl : list TreeMarshal) (h : HostT) :
  pending_wf h ->
  exists h',
    checkPendingTreeMarshal_loop protocols Token_Id MakeTree el sl h = (h', Returned tt) /\
    keeps beside_trees h h' /\
    (forall id, is_Some (trees h !! id) -> is_Some (trees h' !! id)) /\
    (forall d, d ∈ dispatched h -> d ∈ dispatched h') /\
    (forall tm tree,
       tm ∈ sl -> MakeTree tm el = inl tree ->
       is_Some (trees h' !! Tree_Id tree) /\
       forall sda d,
         sda ∈ pendingSDAs h ->
         rescan_hit protocols Token_Id tree (entityLists h) sda = Some d ->
         d ∈ dispatched h').
Proof.
  revert h. induction sl as [|tm0 sl IH]; intros h Hwf.
  - exists h. simpl. split; [reflexivity|]. split; [reflexivity|].
    split; [auto|]. split; [auto|]. intros tm tree Hin. now apply elem_of_nil in Hin.
  - assert (Hstep : exists h1,
      match MakeTree tm0 el with
      | inr _ => ret tt
      | inl tree => AddTree protocols Token_Id tree
      end h = (h1, Returned tt) /\
      keeps beside_trees h h1 /\
      (forall id, is_Some (trees h !! id) -> is_Some (trees h1 !! id)) /\
      (forall d, d ∈ dispatched h -> d ∈ dispatched h1) /\
      (forall tree, MakeTree tm0 el = inl tree ->
         is_Some (trees h1 !! Tree_Id tree) /\
         forall sda d,
           sda ∈ pendingSDAs h ->
           rescan_hit protocols Token_Id tree (entityLists h) sda = Some d ->
           d ∈ dispatched h1)).
    { destruct (MakeTree tm0 el) as [tree|err].
      - destruct (AddTree_spec tree h Hwf) as (h1 & E & Htr & Hk & Hd).
        exists h1. split; [exact E|]. split; [exact Hk|].
        split; [|split].
        + intros id. rewrite Htr. destruct (decide (Tree_Id tree = id)) as [<-|Hne].
          * rewrite lookup_insert_eq. eauto.
          * now rewrite lookup_insert_ne.
        + intros d Hin. rewrite Hd. apply elem_of_app. now left.
        + intros tree' [= <-]. split.
          * rewrite Htr, lookup_insert_eq. eauto.
          * intros sda d Hin Hhit. rewrite Hd. apply elem_of_app. right.
            apply list_elem_of_omap. eauto.
      - exists h. repeat split; auto. all: discriminate. }
    destruct Hstep as (h1 & E1 & Hk1 & Ht1 & Hd1 & Hnew).
    assert (Hp1 : pendingSDAs h1 = pendingSDAs h)
      by (unfold keeps, beside_trees in Hk1; injection Hk1; intros; assumption).
    assert (Hel1 : entityLists h1 = entityLists h)
      by (unfold keeps, beside_trees in Hk1; injection Hk1; intros; assumption).
    destruct (IH h1) as (h' & E' & Hk' & Ht' & Hd' & Hrest).
    { unfold pending_wf. now rewrite Hp1. }
    exists h'. split; [|split; [|split; [|split]]].
    + simpl. unfold bindM at 1. rewrite E1. exact E'.
    + etransitivity; eassumption.
    + auto.
    + auto.
    + intros tm tree Hin Hmk. apply elem_of_cons in Hin as [->|Hin].
      * destruct (Hnew tree Hmk) as [Hs Hhits]. split; [auto|].
        intros sda d Hsda Hhit. eauto.
      * destruct (Hrest tm tree Hin Hmk) as [Hs Hhits]. split; [exact Hs|].
        intros sda d Hsda Hhit. apply (Hhits sda d).
        -- now rewrite Hp1.
        -- now rewrite Hel1.
Qed.

(** The early [return] of [checkPendingTreeMarshal]: when no tree
    waits for the roster, [pendingTreeLock] stays held. *)
Lemma checkPendingTreeMarshal_leaves_lock (el : EntityList) (h : HostT) :
  pendingTreeLocked h = false ->
  pendingTreeMarshal h !! EntityList_Id el = None ->
  checkPendingTreeMarshal' el h = (set_pendingTreeLocked h true, Returned tt).
Proof.
  intros Hl Hnone. unfold checkPendingTreeMarshal, lock_pendingTree, bindM, gets, modify.
  rewrite Hl. simpl. now rewrite Hnone.
Qed.

(** What the dispatcher does with trees and rosters while
    [pendingTreeLock] is free. With the pending envelopes well formed
    and the lock free, one turn of the dispatcher
    - on [SendTree] with a tree marshal whose [NodeId] is not [nil] and
      whose roster is unknown: sends a [RequestEntityList] for that
      roster to the sender with [SendRaw] (the last frame sent when
      [SendRaw] succeeds) and appends the marshal to the list of
      pending trees of that roster, leaving trees and rosters alone;
    - on [SendTree] with a [nil] [NodeId]: drops the marshal;
    - on [SendTree] with a known roster: materializes the received
      marshal; when that succeeds the tree is stored and every pending
      envelope the rescan hits for that tree is dispatched; when it
      fails the marshal is dropped;
    - on [SendEntityList] with a roster whose identifier is not [nil]:
      stores the roster, and for every tree marshal pending for it that
      materializes, a tree is stored under the identifier of that tree
      and every pending envelope the rescan hits for it is
      dispatched. *)
Theorem SendTree_and_SendRoster
    (h : HostT) (data : NetworkMessage Payload)
    (Hwf : pending_wf h)
    (Hlock : pendingTreeLocked h = false) :
  (forall tm,
     nm_Msg data = SendTreeMessage tm ->
     NodeId tm <> uuid_Nil ->
     entityLists h !! EntityId tm = None ->
     let request := RequestEntityListMessage (EntityId tm) in
     exists h',
       ProcessMessages_turn' data h = (h', Returned tt) /\
       pendingTreeMarshal h' =
         <[EntityId tm := default [] (pendingTreeMarshal h !! EntityId tm) ++ [tm]]>
           (pendingTreeMarshal h) /\
       net_extends (sends_frame request) h h' /\
       (snd (SendRaw' (nm_Entity data) (Some request) h) = Returned None ->
        exists c, last (net h') = Some (NetSend c request)) /\
       trees h' = trees h /\
       entityLists h' = entityLists h /\
       pendingTreeLocked h' = false) /\
  (forall tm,
     nm_Msg data = SendTreeMessage tm ->
     NodeId tm = uuid_Nil ->
     ProcessMessages_turn' data h = (h, Returned tt)) /\
  (forall tm il,
     nm_Msg data = SendTreeMessage tm ->
     NodeId tm <> uuid_Nil ->
     entityLists h !! EntityId tm = Some il ->
     match MakeTree tm il with
     | inr _ => ProcessMessages_turn' data h = (h, Returned tt)
     | inl tree =>
         exists h',
           ProcessMessages_turn' data h = (h', Returned tt) /\
           trees h' = <[Tree_Id tree := tree]> (trees h) /\
           keeps beside_trees h h' /\
           forall sda d,
             sda ∈ pendingSDAs h ->
             rescan_hit protocols Token_Id tree (entityLists h) sda = Some d ->
             d ∈ dispatched h'
     end) /\
  (forall il,
     nm_Msg data = SendEntityListMessage il ->
     EntityList_Id il <> uuid_Nil ->
     exists h',
       ProcessMessages_turn' data h = (h', Returned tt) /\
       entityLists h' = <[EntityList_Id il := il]> (entityLists h) /\
       forall sl tm tree,
         pendingTreeMarshal h !! EntityList_Id il = Some sl ->
         tm ∈ sl ->
         MakeTree tm il = inl tree ->
         is_Some (trees h' !! Tree_Id tree) /\
         forall sda d,
           sda ∈ pendingSDAs h ->
           rescan_hit protocols Token_Id tree (entityLists h') sda = Some d ->
           d ∈ dispatched h').
Proof.
  split; [|split; [|split]].
  - intros tm Hmsg Hnode Hil. cbv zeta.
    set (request := RequestEntityListMessage (EntityId tm)).
    unfold ProcessMessages_turn. rewrite Hmsg.
    rewrite bool_decide_eq_false_2 by assumption.
    unfold GetEntityList, bindM at 1, gets at 1. rewrite Hil.
    unfold bindM at 1. fold request.
    destruct (SendRaw_returns (nm_Entity data) (Some request) h) as [r Hr].
    destruct (SendRaw' (nm_Entity data) (Some request) h) as [h1 r1] eqn:Es.
    simpl in Hr. subst r1.
    pose proof (SendRaw_only_network _ _ _ _ _ Es) as (_&_&Hel&Htr&Hpt&_&_&Hlk&_).
    rewrite addPendingTreeMarshal_spec by congruence.
    eexists. split; [reflexivity|]. simpl. rewrite Hpt.
    split; [reflexivity|].
    split; [apply (SendRaw_net _ _ _ _ _ Es)|].
    split.
    + intros [= ->]. apply SendRaw_sent in Es as (c & pre & _ & Hnet & _).
      exists c. rewrite Hnet, app_assoc. apply last_snoc.
    + repeat split; congruence.
  - intros tm Hmsg Hnode. unfold ProcessMessages_turn. rewrite Hmsg.
    now rewrite bool_decide_eq_true_2 by assumption.
  - intros tm il Hmsg Hnode Hil.
    assert (E : ProcessMessages_turn' data h =
                match MakeTree tm il with
                | inl tree =>
                    bindM (AddTree protocols Token_Id tree)
                      (fun _ => checkPendingSDA protocols Token_Id tree) h
                | inr _ => (h, Returned tt)
                end).
    { unfold ProcessMessages_turn. rewrite Hmsg.
      rewrite bool_decide_eq_false_2 by assumption.
      unfold GetEntityList, bindM at 1, gets at 1. rewrite Hil.
      now destruct (MakeTree tm il). }
    rewrite E. clear E.
    destruct (MakeTree tm il) as [tree|err]; [|reflexivity].
    destruct (AddTree_spec tree h Hwf) as (h1 & E1 & Htr1 & Hk1 & Hd1).
    assert (Hp1 : pendingSDAs h1 = pendingSDAs h)
      by (unfold keeps, beside_trees in Hk1; injection Hk1; intros; assumption).
    destruct (checkPendingSDA_spec tree h1) as (h2 & E2 & Hf2 & Hd2).
    { unfold pending_wf. now rewrite Hp1. }
    { rewrite Htr1. apply lookup_insert_eq. }
    exists h2. unfold bindM at 1. rewrite E1.
    split; [exact E2|]. split; [|split].
    + destruct Hf2 as (_&_&_&_&Htr2&_). congruence.
    + etransitivity; [exact Hk1|]. now apply only_instances_beside_trees.
    + intros sda d Hin Hhit. rewrite Hd2, Hd1. rewrite !elem_of_app. left. right.
      apply list_elem_of_omap. eauto.
  - intros il Hmsg Hid. unfold ProcessMessages_turn. rewrite Hmsg.
    rewrite bool_decide_eq_false_2 by assumption.
    unfold AddEntityList, bindM at 1, modify at 1.
    set (h0 := set_entityLists h (<[EntityList_Id il := il]> (entityLists h))).
    unfold checkPendingTreeMarshal, lock_pendingTree, bindM at 1 2, gets at 1.
    change (pendingTreeLocked h0) with (pendingTreeLocked h). rewrite Hlock.
    unfold modify at 1. unfold bindM at 1, gets at 1.
    change (pendingTreeMarshal (set_pendingTreeLocked h0 true))
      with (pendingTreeMarshal h).
    destruct (pendingTreeMarshal h !! EntityList_Id il) as [sl|] eqn:Hsl.
    + destruct (checkPendingTreeMarshal_loop_spec il sl (set_pendingTreeLocked h0 true))
        as (h' & E & Hk & Ht & Hd & Hall); [exact Hwf|].
      assert (Hel : entityLists h' = <[EntityList_Id il := il]> (entityLists h))
        by (unfold keeps, beside_trees in Hk; injection Hk; intros; assumption).
      eexists. unfold bindM at 1. rewrite E. unfold unlock_pendingTree, modify.
      split; [reflexivity|]. split; [exact Hel|].
      intros sl' tm tree [= <-] Hin Hmk.
      destruct (Hall tm tree Hin Hmk) as [Hs Hhits]. split; [exact Hs|].
      intros sda d Hsda Hhit. simpl. apply (Hhits sda d Hsda).
      simpl in Hhit. rewrite Hel in Hhit. exact Hhit.
    + eexists. split; [reflexivity|]. split; [reflexivity|].
      intros sl tm tree Hs. discriminate Hs.
Qed.

(** A [SendTree] for a known roster rescans the pending envelopes
    twice, once in [AddTree] and once more in the dispatcher: every
    envelope the rescan hits is dispatched twice, and all envelopes stay
    on the pending list. *)
Lemma SendTree_rescans_twice
    (h : HostT) (data : NetworkMessage Payload) (tm : TreeMarshal)
    (il : EntityList) (tree : Tree) :
  pending_wf h ->
  nm_Msg data = SendTreeMessage tm ->
  NodeId tm <> uuid_Nil ->
  entityLists h !! EntityId tm = Some il ->
  MakeTree tm il = inl tree ->
  exists h',
    ProcessMessages_turn' data h = (h', Returned tt) /\
    dispatched h' =
      dispatched h ++
      omap (rescan_hit protocols Token_Id tree (entityLists h)) (pendingSDAs h) ++
      omap (rescan_hit protocols Token_Id tree (entityLists h)) (pendingSDAs h) /\
    pendingSDAs h' = pendingSDAs h.
Proof.
  intros Hwf Hmsg Hnode Hil Hmk.
  destruct (AddTree_spec tree h Hwf) as (h1 & E1 & Htr1 & Hk1 & Hd1).
  assert (Hp1 : pendingSDAs h1 = pendingSDAs h)
    by (unfold keeps, beside_trees in Hk1; injection Hk1; intros; assumption).
  assert (Hel1 : entityLists h1 = entityLists h)
    by (unfold keeps, beside_trees in Hk1; injection Hk1; intros; assumption).
  destruct (checkPendingSDA_spec tree h1) as (h2 & E2 & Hf2 & Hd2).
  { unfold pending_wf. now rewrite Hp1. }
  { rewrite Htr1. apply lookup_insert_eq. }
  exists h2. split; [|split].
  - unfold ProcessMessages_turn. rewrite Hmsg.
    rewrite bool_decide_eq_false_2 by assumption.
    unfold GetEntityList, bindM at 1, gets at 1. rewrite Hil, Hmk.
    unfold bindM at 1. rewrite E1. exact E2.
  - rewrite Hd2, Hd1, Hp1, Hel1. now rewrite <- app_assoc.
  - destruct Hf2 as (_&_&_&_&_&_&Hp2&_). congruence.
Qed.

(** ** Closing the host *)

Section IgnoresClosed.








End IgnoresClosed.















(** [SendSDA] dereferences its recipient token before any check: with
    a [nil] recipient it panics, whatever the sender. *)
Lemma SendSDA_nil_recipient (h : HostT) (from : option Token) (msg : option Payload) :
  SendSDA' from None msg h = (h, Panicked).
Proof. reflexivity. Qed.

End HostProps.

End SDAProps.

(** * Properties of the aggregation *)
Module NodeProps.
Import SDA Node.

Section AggregationProps.
Context {Payload : Type}.
Implicit Types (n : Node Payload) (e m : Element Payload)
               (buf es msgs : list (Element Payload)).

Lemma received_from_all_app (cs : list TreeNode) buf es :
  received_from_all cs buf = true -> received_from_all cs (buf ++ es) = true.
Proof.
  unfold received_from_all. rewrite !forallb_forall. intros H c Hc.
  rewrite existsb_app, (H c Hc). reflexivity.
Qed.

Lemma received_from_all_before (cs : list TreeNode) buf es :
  received_from_all cs (buf ++ es) = false -> received_from_all cs buf = false.
Proof.
  intros H. destruct (received_from_all cs buf) eqn:E; [|reflexivity].
  now rewrite (received_from_all_app _ _ es E) in H.
Qed.

Lemma aggregate_incomplete (cs : list TreeNode) buf es :
  received_from_all cs (buf ++ es) = false -> aggregate cs buf es = [].
Proof.
  revert buf. induction es as [|e es IH]; intros buf H; [reflexivity|].
  simpl. change (e :: es) with ([e] ++ es) in H. rewrite app_assoc in H.
  rewrite (received_from_all_before _ _ _ H). now apply IH.
Qed.

Lemma aggregate_complete (cs : list TreeNode) buf es m :
  received_from_all cs (buf ++ es) = false ->
  received_from_all cs (buf ++ es ++ [m]) = true ->
  aggregate cs buf (es ++ [m]) = [buf ++ es ++ [m]].
Proof.
  revert buf. induction es as [|e es IH]; intros buf Hb Hl; simpl in *.
  - now rewrite Hl.
  - change (e :: es) with ([e] ++ es) in Hb. rewrite app_assoc in Hb.
    rewrite (received_from_all_before _ _ _ Hb).
    rewrite IH.
    + now rewrite <- app_assoc.
    + exact Hb.
    + now rewrite <- app_assoc.
Qed.

Lemma Dispatch_flags n (mt : UUID) e : flags (Dispatch n mt e) = flags n.
Proof.
  unfold Dispatch. destruct (HasFlag n mt AggregateMessages); [|reflexivity].
  now destruct (received_from_all _ _).
Qed.

Lemma Dispatch_TreeNode n (mt : UUID) e :
  node_TreeNode (Dispatch n mt e) = node_TreeNode n.
Proof.
  unfold Dispatch. destruct (HasFlag n mt AggregateMessages); [|reflexivity].
  now destruct (received_from_all _ _).
Qed.

Lemma Dispatch_HasFlag n (mt T : UUID) e (f : Z) :
  HasFlag (Dispatch n mt e) T f = HasFlag n T f.
Proof. unfold HasFlag. now rewrite Dispatch_flags. Qed.

Lemma deliveries_of_snoc (T mt : UUID) (ds : list (UUID * Delivery Payload)) (d : Delivery Payload) :
  snd <$> filter (fun x => fst x = T) (ds ++ [(mt, d)]) =
  (snd <$> filter (fun x => fst x = T) ds) ++ (if decide (mt = T) then [d] else []).
Proof.
  rewrite filter_app, fmap_app. f_equal.
  destruct (decide (mt = T)) as [->|Hne].
  - now rewrite filter_cons_True.
  - now rewrite filter_cons_False.
Qed.

(** One arrival of another payload type changes neither the buffer nor
    the deliveries of [T]. *)
Lemma Dispatch_other n (T mt : UUID) e :
  mt <> T ->
  deliveries_of T (Dispatch n mt e) = deliveries_of T n /\
  msgQueue (Dispatch n mt e) !! T = msgQueue n !! T.
Proof.
  intros Hne. unfold Dispatch, deliveries_of.
  destruct (HasFlag n mt AggregateMessages); [destruct (received_from_all _ _)|]; simpl.
  - rewrite deliveries_of_snoc, decide_False, app_nil_r by assumption.
    now rewrite lookup_delete_ne.
  - now rewrite lookup_insert_ne.
  - now rewrite deliveries_of_snoc, decide_False, app_nil_r by assumption.
Qed.

(** The deliveries of [T] after a run of arrivals are those made
    before, followed by the aggregated deliveries of the buffer and the
    arrivals of type [T]. *)
Lemma DispatchAll_deliveries (T : UUID) (l : list (UUID * Element Payload)) n :
  HasFlag n T AggregateMessages = true ->
  deliveries_of T (DispatchAll n l) =
    deliveries_of T n ++
    (Aggregated <$> aggregate (Children (node_TreeNode n))
                       (default [] (msgQueue n !! T)) (arrivals_of T l)).
Proof.
  revert n. induction l as [|[mt e] l IH]; intros n Hflag.
  - simpl. now rewrite app_nil_r.
  - unfold DispatchAll. simpl. fold (DispatchAll (Dispatch n mt e) l).
    rewrite IH by now rewrite Dispatch_HasFlag.
    rewrite Dispatch_TreeNode. unfold arrivals_of.
    destruct (decide (mt = T)) as [->|Hne].
    + rewrite filter_cons_True by reflexivity. simpl.
      unfold Dispatch, deliveries_of. rewrite Hflag.
      destruct (received_from_all _ _); simpl.
      * rewrite deliveries_of_snoc, decide_True by reflexivity.
        rewrite lookup_delete_eq. simpl. now rewrite <- app_assoc.
      * now rewrite lookup_insert_eq.
    + rewrite filter_cons_False by assumption.
      destruct (Dispatch_other n T mt e Hne) as [-> ->]. reflexivity.
Qed.

(** C2. An instance with the aggregate flag for the payload type [T]
    and an empty buffer for it. Let the envelopes of type [T] arrive
    (among envelopes of other types) as [msgs] followed by [m], where
    [msgs] does not yet hold an envelope from every direct child and
    [m] completes it. Then no delivery of [T] is made while the
    arrivals of [T] are a prefix of [msgs]; once [m] has arrived exactly
    one delivery of [T] has been made, the aggregated sequence
    [msgs ++ [m]] of all buffered records in arrival order; and it holds
    a record from each of the direct children. *)
Theorem aggregate_delivery n (T : UUID) msgs m
    (Hflag : HasFlag n T AggregateMessages = true)
    (Hempty : msgQueue n !! T = None)
    (Hbefore : received_from_all (Children (node_TreeNode n)) msgs = false)
    (Hlast : received_from_all (Children (node_TreeNode n)) (msgs ++ [m]) = true) :
  (forall l, arrivals_of T l `prefix_of` msgs ->
     deliveries_of T (DispatchAll n l) = deliveries_of T n) /\
  (forall l, arrivals_of T l = msgs ++ [m] ->
     deliveries_of T (DispatchAll n l) =
       deliveries_of T n ++ [Aggregated (msgs ++ [m])]) /\
  Forall (fun c => Exists (fun e => from_node c e = true) (msgs ++ [m]))
    (Children (node_TreeNode n)).
Proof.
  split; [|split].
  - intros l [rest Hrest]. rewrite DispatchAll_deliveries by assumption.
    rewrite Hempty. simpl. rewrite aggregate_incomplete; [now rewrite app_nil_r|].
    simpl. apply (received_from_all_before _ _ rest). now rewrite <- Hrest.
  - intros l Hl. rewrite DispatchAll_deliveries by assumption.
    rewrite Hempty, Hl. simpl. now rewrite aggregate_complete.
  - unfold received_from_all in Hlast. rewrite forallb_forall in Hlast.
    apply Forall_forall. intros c Hc. apply list_elem_of_In in Hc.
    specialize (Hlast c Hc). apply existsb_exists in Hlast as (e & He & Hf).
    apply Exists_exists. exists e. split; [now apply list_elem_of_In | exact Hf].
Qed.

End AggregationProps.

End NodeProps.

(** * The functions run on the two-node cothority *)
Module Scenario.
Import SDA SDASpec Example.
Local Open Scope N_scope.

(** C1, at a concrete run. The host of B knows protocol 7 and the
    roster but not tree 20. It receives the envelope of A (queued as
    pending, with a [RequestTree] sent), then the [SendTree] reply.
    The dispatcher then calls [AddTree], which rescans the pending
    envelopes, and [checkPendingSDA] once more: the one envelope is
    handed to the instance of [tokenB] twice, and it is still on the
    pending list afterwards; adding the tree again hands it over a third
    time. Each rescan calls the constructor of the protocol for
    [tokenB] anew. (An envelope received once the tree is known is
    handed over once, on receipt.) *)
Theorem pending_envelope_dispatched_twice :
  let incoming := [(fromA (SDADataMessage envelope), tt);
                   (fromA (SendTreeMessage treeMarshal), tt)] in
  let h := fst (ProcessMessages incoming hostB_roster) in
  snd (ProcessMessages incoming hostB_roster) = Waiting /\
  dispatched h = [(Token_Id tokenB, decoded); (Token_Id tokenB, decoded)] /\
  times_dispatched tokenB (Some 3%nat) h = 2%nat /\
  times_instantiated tokenB h = 2%nat /\
  pendingSDAs h = [decoded] /\
  is_pending tokenB h /\
  times_dispatched tokenB (Some 3%nat) (fst (AddTree tree h)) = 3%nat /\
  times_dispatched tokenB (Some 3%nat)
    (fst (ProcessMessages [(fromA (SDADataMessage envelope), tt)] h)) = 3%nat.
Proof.
  intros incoming h.
  assert (Hd : dispatched h = [(Token_Id tokenB, decoded); (Token_Id tokenB, decoded)])
    by (vm_compute; reflexivity).
  assert (Hp : pendingSDAs h = [decoded]) by (vm_compute; reflexivity).
  split; [vm_compute; reflexivity|].
  split; [exact Hd|].
  split; [vm_compute; reflexivity|].
  split; [vm_compute; reflexivity|].
  split; [exact Hp|].
  split.
  - exists decoded. rewrite Hp. split; [apply list_elem_of_here | reflexivity].
  - split; vm_compute; reflexivity.
Qed.



(** The empty tree marshal, which a peer sends for a tree it does not
    have, is set apart by the dispatcher: although it names a roster
    the host does not know, no roster request is sent and the marshal
    is not queued. *)
Lemma empty_tree_marshal_is_dropped :
  entityLists hostB !! EntityId EmptyTreeMarshal = None /\
  ProcessMessages_turn (fromA (SendTreeMessage EmptyTreeMarshal)) hostB =
    (hostB, Returned tt) /\
  ~ roster_requested_and_queued
      (fst (ProcessMessages_turn (fromA (SendTreeMessage EmptyTreeMarshal)) hostB))
      EmptyTreeMarshal.
Proof.
  split; [reflexivity|].
  assert (E : ProcessMessages_turn (fromA (SendTreeMessage EmptyTreeMarshal)) hostB =
              (hostB, Returned tt)) by reflexivity.
  split; [exact E|]. rewrite E.
  intros [[c Hc] _]. simpl in Hc. now apply elem_of_nil in Hc.
Qed.

(** C6, at a concrete run. The fresh host of B receives the roster
    11, for which no tree marshal is pending, and then a [SendTree]
    whose marshal (root node 40) is over the roster 12, which the host
    does not have. The first frame is processed, and
    [checkPendingTreeMarshal] returns early with [pendingTreeLock]
    held. On the second frame the dispatcher sends the
    [RequestEntityList] for the roster 12 and then parks for ever in
    [addPendingTreeMarshal], on that lock: the marshal is not appended
    to the pending trees of its roster, as the claim has it, and no
    later frame is processed. On the host that has not received a
    roster before, the same [SendTree] is answered by the roster request
    and the marshal is queued. *)
Theorem roster_then_tree_deadlocks :
  let roster_frame := (fromA (SendEntityListMessage otherRoster), tt) in
  let tree_frame := (fromA (SendTreeMessage foreignMarshal), tt) in
  let h1 := fst (ProcessMessages [roster_frame] hostB) in
  let h2 := fst (ProcessMessages [roster_frame; tree_frame] hostB) in
  NodeId foreignMarshal <> uuid_Nil /\
  entityLists h1 !! EntityId foreignMarshal = None /\
  pendingTreeMarshal hostB !! EntityList_Id otherRoster = None /\
  snd (ProcessMessages [roster_frame] hostB) = Waiting /\
  entityLists h1 !! EntityList_Id otherRoster = Some otherRoster /\
  pendingTreeLocked hostB = false /\
  pendingTreeLocked h1 = true /\
  snd (ProcessMessages [roster_frame; tree_frame] hostB) = Deadlock /\
  (exists c, NetSend c (RequestEntityListMessage (EntityId foreignMarshal)) ∈ net h2) /\
  pendingTreeMarshal h2 !! EntityId foreignMarshal = None /\
  ~ roster_requested_and_queued h2 foreignMarshal /\
  snd (ProcessMessages [tree_frame] hostB) = Waiting /\
  roster_requested_and_queued (fst (ProcessMessages [tree_frame] hostB)) foreignMarshal.
Proof.
  intros roster_frame tree_frame h1 h2.
  assert (Hq : pendingTreeMarshal h2 !! EntityId foreignMarshal = None)
    by (vm_compute; reflexivity).
  split; [discriminate|].
  split; [vm_compute; reflexivity|].
  split; [vm_compute; reflexivity|].
  split; [vm_compute; reflexivity|].
  split; [vm_compute; reflexivity|].
  split; [reflexivity|].
  split; [vm_compute; reflexivity|].
  split; [vm_compute; reflexivity|].
  split.
  { exists {| conn_Entity := entityA; conn_Remote := "local" |}.
    assert (Hn : net h2 =
                 [NetHandleConn {| conn_Entity := entityA; conn_Remote := "local" |};
                  NetSend {| conn_Entity := entityA; conn_Remote := "local" |}
                    (RequestEntityListMessage (EntityId foreignMarshal))])
      by (vm_compute; reflexivity).
    rewrite Hn. apply elem_of_cons. right. apply elem_of_cons. now left. }
  split; [exact Hq|].
  split.
  { intros [_ (sl & Hsl & _)]. rewrite Hq in Hsl. discriminate Hsl. }
  split; [vm_compute; reflexivity|].
  split.
  - exists {| conn_Entity := entityA; conn_Remote := "local" |}.
    assert (Hn : net (fst (ProcessMessages [tree_frame] hostB)) =
                 [NetHandleConn {| conn_Entity := entityA; conn_Remote := "local" |};
                  NetSend {| conn_Entity := entityA; conn_Remote := "local" |}
                    (RequestEntityListMessage (EntityId foreignMarshal))])
      by (vm_compute; reflexivity).
    rewrite Hn. apply elem_of_cons. right. apply elem_of_cons. now left.
  - exists [foreignMarshal]. split; [vm_compute; reflexivity|].
    apply elem_of_cons. now left.
Qed.


(** [TestMsgAggregation] on the model: after the envelope of the first
    child the aggregate channel is empty; after the envelope of the
    second child it holds one item, the two records in arrival order. *)
Example test_msg_aggregation :
  Node.deliveries_of 42 (Node.DispatchAll rootNode [(42, agg3)]) = [] /\
  Node.deliveries_of 42 (Node.DispatchAll rootNode [(42, agg3); (42, agg4)]) =
    [Node.Aggregated [agg3; agg4]].
Proof. split; vm_compute; reflexivity. Qed.

(** The connection used below is the one [connect] returned. *)
Example connect_returns_connAB :
  snd (Local.connect LocalExample.world0 "local://a" "local://b") = inl LocalExample.connAB.
Proof. vm_compute. reflexivity. Qed.

(** ** The theorems at concrete inputs *)

(** The aggregation theorem on the root of the three-node tree, with
    an envelope of another type arriving in between. *)
Lemma aggregate_delivery_witness :
  (Node.HasFlag rootNode 42 Node.AggregateMessages = true /\
   Node.msgQueue rootNode !! 42 = None /\
   Node.received_from_all (Children (Node.node_TreeNode rootNode)) [agg3] = false /\
   Node.received_from_all (Children (Node.node_TreeNode rootNode)) ([agg3] ++ [agg4]) = true) /\
  Node.deliveries_of 42 (Node.DispatchAll rootNode [(42, agg3); (7, agg4); (42, agg4)]) =
    Node.deliveries_of 42 rootNode ++ [Node.Aggregated ([agg3] ++ [agg4])].
Proof.
  assert (H1 : Node.HasFlag rootNode 42 Node.AggregateMessages = true) by reflexivity.
  assert (H2 : Node.msgQueue rootNode !! 42 = None) by reflexivity.
  assert (H3 : Node.received_from_all (Children (Node.node_TreeNode rootNode)) [agg3] = false)
    by reflexivity.
  assert (H4 : Node.received_from_all (Children (Node.node_TreeNode rootNode))
                 ([agg3] ++ [agg4]) = true) by reflexivity.
  split; [auto|].
  apply (proj1 (proj2 (NodeProps.aggregate_delivery rootNode 42 [agg3] agg4 H1 H2 H3 H4))).
  reflexivity.
Defined.

(** Token symmetry on the tokens of A and B. *)
Lemma token_symmetry_witness :
  (same_round tokenA tokenB /\ treeNode_of tokenA nodeA /\ treeNode_of tokenB nodeB) /\
  OtherToken (OtherToken tokenA nodeB) nodeA = tokenA /\
  OtherToken tokenA nodeB = tokenB.
Proof.
  assert (H1 : same_round tokenA tokenB) by (repeat split).
  assert (H2 : treeNode_of tokenA nodeA) by reflexivity.
  assert (H3 : treeNode_of tokenB nodeB) by reflexivity.
  split; [auto|].
  exact (SDAProps.token_symmetry tokenA tokenB nodeA nodeB H1 H2 H3).
Defined.


(** The send of A to the instance at [nodeB] succeeds, and the frame
    handed to the connection to [entityB] is the envelope addressed to
    [tokenB]. *)
Lemma SendSDAToTreeNode_envelope_witness :
  SendSDAToTreeNode (Some tokenA) (Some nodeB) (Some 3%nat) hostA =
    (hostA_sent, Returned None) /\
  exists c pre,
    connections hostA_sent !! Entity_Id entityB = Some c /\
    net hostA_sent = net hostA ++ pre ++
      [NetSend c (SDADataMessage
         {| To := Some tokenB; From := Some tokenA; MsgType := 42;
            MsgSlice := replicate 3 Byte.x01; Msg := None; sda_Entity := None |})].
Proof.
  assert (H : SendSDAToTreeNode (Some tokenA) (Some nodeB) (Some 3%nat) hostA =
              (hostA_sent, Returned None)) by (vm_compute; reflexivity).
  split; [exact H|].
  destruct (SDAProps.SendSDAToTreeNode_envelope protocols Token_Id Open HostClose
              error_text tt MarshalRegisteredType TypeFromData UnmarshalRegisteredType
              MakeTree MakeTreeMarshal EmptyTreeMarshal
              hostA hostA_sent (Some tokenA) (Some nodeB) (Some 3%nat) H)
    as ((f & tn & b & c & pre & Hf & Htn & Hb & Hc & _ & _ & Hnet & _) & _).
  injection Hf as <-. injection Htn as <-. injection Hb as <-.
  exists c, pre. split; [exact Hc | exact Hnet].
Defined.


(** The fresh host of B gets the tree marshal before it knows the
    roster: the roster is requested and the marshal queued. *)
Lemma SendTree_and_SendRoster_witness :
  (pending_wf hostB /\ pendingTreeLocked hostB = false) /\
  exists h',
    ProcessMessages_turn (fromA (SendTreeMessage treeMarshal)) hostB = (h', Returned tt) /\
    pendingTreeMarshal h' = {[ 10 := [treeMarshal] ]} /\
    exists c, last (net h') = Some (NetSend c (RequestEntityListMessage 10)).
Proof.
  assert (H1 : pending_wf hostB) by apply Forall_nil_2.
  assert (H2 : pendingTreeLocked hostB = false) by reflexivity.
  split; [auto|].
  destruct (SDAProps.SendTree_and_SendRoster protocols Token_Id Open tt
              UnmarshalRegisteredType MakeTree MakeTreeMarshal EmptyTreeMarshal
              hostB (fromA (SendTreeMessage treeMarshal)) H1 H2) as (Hunknown & _).
  destruct (Hunknown treeMarshal) as (h' & E & Hq & _ & Hsent & _).
  - reflexivity.
  - discriminate.
  - reflexivity.
  - exists h'. split; [exact E|]. split; [exact Hq|]. apply Hsent.
    vm_compute. reflexivity.
Defined.


(** The three failures on the concrete local network. *)
Lemma local_transport_errors_witness :
  (Local.listening (Local.manager LocalExample.connected) !! "local://c" = None /\
   Local.isListening (Local.manager LocalExample.connected) "local://b" = true /\
   LocalExample.AddrConnType "local://b" = Local.LocalType) /\
  Local.connect LocalExample.connected "local://a" "local://c" =
    (LocalExample.connected,
     inr (ErrMsg "local://a can't connect to local://c: it's not listening")) /\
  snd (Local.NewLocalListenerWithManager LocalExample.AddrConnType
         (Local.manager LocalExample.connected) "local://b") =
    Some (ErrMsg "local://b is already listening: can't listen again") /\
  snd (Local.LocalConn_Send LocalExample.TypeFromData
         (fst (Local.LocalConn_Close LocalExample.connected LocalExample.connAB))
         LocalExample.connAB 7%nat) = Some ErrClosed.
Proof.
  assert (H1 : Local.listening (Local.manager LocalExample.connected) !! "local://c" = None)
    by (vm_compute; reflexivity).
  assert (H2 : Local.isListening (Local.manager LocalExample.connected) "local://b" = true)
    by (vm_compute; reflexivity).
  assert (H3 : LocalExample.AddrConnType "local://b" = Local.LocalType) by reflexivity.
  split; [auto|].
  destruct (LocalProps.local_transport_errors LocalExample.TypeFromData
              LocalExample.AddrConnType LocalExample.connected
              "local://a" "local://c" "local://b" 1%nat
              {| Local.addr := ""; Local.ll_listening := false |}
              LocalExample.connAB 7%nat H1 H2 H3) as (E1 & E2 & _ & E4).
  split; [exact E1|]. split.
  - unfold Local.NewLocalListenerWithManager. now rewrite E2.
  - now rewrite E4.
Defined.

End Scenario.


(** * More properties of the local transport *)
Module LocalMoreProps.
Import Local LocalMore.

Section QueueOrder.
Context {Body : Type}.
Variable EmptyBody : Body.

Lemma run_ops_pushes (c : connQueue Body) (ps : list (Packet Body)) (rest : list (queue_op Body)) :
  isClosed c = false ->
  run_ops EmptyBody c ((OpPush <$> ps) ++ rest) =
  run_ops EmptyBody {| queue := queue c ++ ps; isClosed := false |} rest.
Proof.
  revert c. induction ps as [|p ps IH]; intros [q b] Hc; simpl in *; subst.
  - now rewrite app_nil_r.
  - unfold push at 1. simpl. rewrite IH by reflexivity. simpl.
    now rewrite <- app_assoc.
Qed.

Lemma run_ops_pops (q q' : list (Packet Body)) (rest : list (queue_op Body)) :
  run_ops EmptyBody {| queue := q ++ q'; isClosed := false |}
    (replicate (length q) OpPop ++ rest) =
  (fst (run_ops EmptyBody {| queue := q'; isClosed := false |} rest),
   (PopPacket <$> q) ++ snd (run_ops EmptyBody {| queue := q'; isClosed := false |} rest)).
Proof.
  induction q as [|p q IH]; simpl.
  - now destruct (run_ops _ _ _).
  - rewrite IH. reflexivity.
Qed.

(** X1. An open [connQueue] is first in, first out: after pushing the
    packets [ps], as many pops as the queue then holds return the
    packets it held followed by [ps], in that order, and leave it
    empty; one more pop waits. *)
Theorem connQueue_fifo (c : connQueue Body) (ps : list (Packet Body))
    (Hopen : isClosed c = false) :
  run_ops EmptyBody c
    ((OpPush <$> ps) ++ replicate (length (queue c ++ ps)) OpPop ++ [OpPop]) =
  ({| queue := []; isClosed := false |},
   (PopPacket <$> (queue c ++ ps)) ++ [PopWait]).
Proof.
  rewrite run_ops_pushes by assumption.
  rewrite <- (app_nil_r (queue c ++ ps)) at 1.
  rewrite run_ops_pops. reflexivity.
Qed.

End QueueOrder.

Section Links.
Context {Body : Type} {Callback : Type}.
Variable TypeFromData : Body -> N.
Variable AddrConnType : Address -> ConnType.
Variable EmptyBody : Body.

Lemma uint64_incr_neq (x : Z) : uint64_incr x <> x.
Proof.
  unfold uint64_incr, uint64_modulus. intros H.
  assert (Hm : 0 < 2 ^ 64) by reflexivity.
  pose proof (Z.mod_pos_bound (x + 1) (2 ^ 64) Hm) as Hb.
  rewrite H in Hb.
  destruct (Z.eq_dec (x + 1) (2 ^ 64)) as [E|E].
  - rewrite E, Z.mod_same in H by lia. subst x. discriminate E.
  - rewrite Z.mod_small in H by lia. lia.
Qed.

Lemma alter_as_insert {A} (f : A -> A) (l : list A) (i : nat) (x : A) :
  l !! i = Some x -> alter f i l = <[i := f x]> l.
Proof.
  revert i. induction l as [|y l IH]; intros [|i] H; simpl in *; try discriminate.
  - now injection H as ->.
  - f_equal. now apply IH.
Qed.

Lemma send_linked (w : World Body Callback) (a b : LocalConn) (m : Body) (cb : connQueue Body) :
  linked w a b ->
  store w !! lcQueue b = Some cb ->
  LocalConn_Send TypeFromData w a m =
    ({| manager := manager w;
        store := <[lcQueue b := push cb (packet_of TypeFromData m)]> (store w);
        spawned := spawned w |}, None).
Proof.
  intros (Hab & _ & _ & Hqb & _) Hcb.
  unfold LocalConn_Send, send. rewrite Hab, Hqb. unfold update_queue.
  now rewrite (alter_as_insert _ _ _ _ Hcb).
Qed.

Lemma linked_store (w : World Body Callback) (a b : LocalConn) (st : list (connQueue Body)) :
  linked w a b -> length st = length (store w) ->
  linked {| manager := manager w; store := st; spawned := spawned w |} a b.
Proof.
  intros (H1 & H2 & H3 & H4 & H5 & H6 & H7) Hl. unfold linked. simpl.
  rewrite Hl. auto 10.
Qed.

Lemma SendAll_linked (msgs : list Body) (w : World Body Callback) (a b : LocalConn) (q : list (Packet Body)) :
  linked w a b ->
  store w !! lcQueue b = Some {| queue := q; isClosed := false |} ->
  SendAll TypeFromData w a msgs =
    ({| manager := manager w;
        store := <[lcQueue b := {| queue := q ++ (packet_of TypeFromData <$> msgs);
                                   isClosed := false |}]> (store w);
        spawned := spawned w |},
     replicate (length msgs) None).
Proof.
  revert w q. induction msgs as [|m msgs IH]; intros w q Hl Hq.
  - simpl. rewrite app_nil_r, list_insert_id by assumption. now destruct w.
  - simpl. rewrite (send_linked w a b m _ Hl Hq). unfold push. simpl.
    assert (Hlt : (lcQueue b < length (store w))%nat) by apply Hl.
    rewrite (IH _ (q ++ [packet_of TypeFromData m])).
    + simpl. rewrite list_insert_insert_eq, <- app_assoc. reflexivity.
    + apply linked_store; [exact Hl | apply length_insert].
    + simpl. now apply list_lookup_insert_eq.
Qed.

Lemma ReceiveN_open (q q' : list (Packet Body)) (w : World Body Callback) (b : LocalConn) :
  store w !! lcQueue b = Some {| queue := q ++ q'; isClosed := false |} ->
  ReceiveN EmptyBody w b (length q) =
    ({| manager := manager w;
        store := <[lcQueue b := {| queue := q'; isClosed := false |}]> (store w);
        spawned := spawned w |},
     PopPacket <$> q).
Proof.
  revert w. induction q as [|p q IH]; intros w Hq.
  - simpl. rewrite list_insert_id by assumption. now destruct w.
  - simpl. unfold LocalConn_Receive. rewrite Hq. unfold pop. simpl.
    unfold update_queue. rewrite (alter_as_insert _ _ _ _ Hq).
    assert (Hlt : (lcQueue b < length (store w))%nat) by (eapply lookup_lt_Some, Hq).
    rewrite IH.
    + simpl. now rewrite list_insert_insert_eq.
    + simpl. now apply list_lookup_insert_eq.
Qed.

(** X2. Across a link whose receiving queue is open, what is sent
    arrives, once and in order: every [Send] on one end succeeds, and
    the [Receive]s on the other end return the packets that were
    already queued followed by one packet per body sent, each with the
    type tag of its body; then the queue is empty, the next [Receive]
    waits, and the two connections are still linked. *)
Theorem send_receive_in_order
    (w : World Body Callback) (a b : LocalConn) (q : list (Packet Body)) (msgs : list Body)
    (Hlinked : linked w a b)
    (Hopen : store w !! lcQueue b = Some {| queue := q; isClosed := false |}) :
  let w1 := fst (SendAll TypeFromData w a msgs) in
  let n := length (q ++ (packet_of TypeFromData <$> msgs)) in
  let w2 := fst (ReceiveN EmptyBody w1 b n) in
  snd (SendAll TypeFromData w a msgs) = replicate (length msgs) None /\
  snd (ReceiveN EmptyBody w1 b n) = PopPacket <$> (q ++ (packet_of TypeFromData <$> msgs)) /\
  store w2 !! lcQueue b = Some {| queue := []; isClosed := false |} /\
  snd (LocalConn_Receive EmptyBody w2 b) = PopWait /\
  linked w2 a b.
Proof.
  intros w1 n w2. subst w1 n w2.
  rewrite (SendAll_linked msgs w a b q Hlinked Hopen). cbn [fst snd].
  assert (Hlt : (lcQueue b < length (store w))%nat) by apply Hlinked.
  split; [reflexivity|].
  set (pkts := q ++ (packet_of TypeFromData <$> msgs)).
  set (w1 := {| manager := manager w;
                store := <[lcQueue b := {| queue := pkts; isClosed := false |}]> (store w);
                spawned := spawned w |}).
  assert (Hq1 : store w1 !! lcQueue b = Some {| queue := pkts ++ []; isClosed := false |})
    by (simpl; rewrite app_nil_r; now apply list_lookup_insert_eq).
  rewrite (ReceiveN_open pkts [] w1 b Hq1). clear Hq1. subst w1.
  cbn [fst snd manager store spawned]. rewrite list_insert_insert_eq.
  assert (Hq : <[lcQueue b := {| queue := []; isClosed := false |}]> (store w) !! lcQueue b
               = Some {| queue := ([] : list (Packet Body)); isClosed := false |})
    by now apply list_lookup_insert_eq.
  split; [reflexivity|]. split; [exact Hq|]. split.
  - unfold LocalConn_Receive. cbn [store].
    rewrite list_lookup_insert_eq by assumption. reflexivity.
  - apply (linked_store w); [exact Hlinked | apply length_insert].
Qed.

(** X3. A [connect] to a listening address hands back the outgoing
    end and starts the listener's callback on the incoming end; the two
    are linked, each with a fresh empty open queue, with different
    endpoints; the outgoing end runs from the local to the remote
    address, and the queues the store already held are untouched. *)
Theorem connect_links
    (w : World Body Callback) (loc rem : Address) (fn : Callback)
    (Hlistening : listening (manager w) !! rem = Some fn) :
  let out := {| local := (loc, baseUID (manager w));
                remote := (rem, uint64_incr (baseUID (manager w)));
                lcQueue := length (store w) |} in
  let inc := {| local := (rem, uint64_incr (baseUID (manager w)));
                remote := (loc, baseUID (manager w));
                lcQueue := S (length (store w)) |} in
  let w' := fst (connect w loc rem) in
  snd (connect w loc rem) = inl out /\
  spawned w' = spawned w ++ [(fn, inc)] /\
  linked w' out inc /\
  local out <> local inc /\
  store w' !! lcQueue out = Some newConnQueue /\
  store w' !! lcQueue inc = Some newConnQueue /\
  LocalConn_Local out = loc /\
  LocalConn_Remote out = rem /\
  store w `prefix_of` store w' /\
  listening (manager w') = listening (manager w).
Proof.
  intros out inc w'. subst w'. unfold connect. rewrite Hlistening. cbn [fst snd].
  assert (Hne : local out <> local inc).
  { subst out inc. simpl. intros [= _ E]. symmetry in E. now apply uint64_incr_neq in E. }
  split; [reflexivity|]. split; [reflexivity|]. split.
  - unfold linked. simpl. repeat split.
    + rewrite lookup_insert_ne by (intros E; apply Hne; now symmetry).
      apply lookup_insert_eq.
    + apply lookup_insert_eq.
    + lia.
    + rewrite length_app. simpl. lia.
    + rewrite length_app. simpl. lia.
  - split; [exact Hne|]. simpl. repeat split.
    + rewrite lookup_app_r by lia. now rewrite Nat.sub_diag.
    + rewrite lookup_app_r by lia.
      now replace (S (length (store w)) - length (store w))%nat with 1%nat by lia.
    + now exists [newConnQueue; newConnQueue].
Qed.

Lemma len_delete_Some (lm : gmap endpoint qref) (e : endpoint) (q : qref) :
  lm !! e = Some q -> S (size (delete e lm)) = size lm.
Proof.
  intros H. rewrite <- (insert_delete_id lm e q H) at 2.
  rewrite map_size_insert_None by apply lookup_delete_eq. reflexivity.
Qed.

(** X4. [Close] on one end of a link closes both ends: the manager
    forgets both endpoints (two queues less), both queues are closed
    whatever they hold, so that [Receive] on either end returns
    [ErrClosed] and [Send] on either end returns [ErrClosed], and
    nothing changes any more through these calls. *)
Theorem Close_closes_both_ends
    (w : World Body Callback) (a b : LocalConn) (ca cb : connQueue Body)
    (Hlinked : linked w a b)
    (Ha : store w !! lcQueue a = Some ca)
    (Hb : store w !! lcQueue b = Some cb) :
  let w' := fst (LocalConn_Close w a) in
  snd (LocalConn_Close w a) = None /\
  queues (manager w') = delete (local b) (delete (local a) (queues (manager w))) /\
  (len (manager w') + 2 = len (manager w))%nat /\
  store w' !! lcQueue a = Some (close ca) /\
  store w' !! lcQueue b = Some (close cb) /\
  LocalConn_Receive EmptyBody w' a = (w', closed_error EmptyBody) /\
  LocalConn_Receive EmptyBody w' b = (w', closed_error EmptyBody) /\
  (forall m, LocalConn_Send TypeFromData w' a m = (w', Some ErrClosed)) /\
  (forall m, LocalConn_Send TypeFromData w' b m = (w', Some ErrClosed)).
Proof.
  intros w'. destruct Hlinked as (Hab & Hba & Hqa & Hqb & Hne & Hla & Hlb).
  unfold qref in Ha, Hb.
  assert (Hends : local a <> local b).
  { intros E. rewrite E in Hqa. rewrite Hqa in Hqb. injection Hqb as E'. now apply Hne. }
  assert (Hw' : w' = {| manager := {| queues := delete (local b) (delete (local a) (queues (manager w)));
                                      listening := listening (manager w);
                                      baseUID := baseUID (manager w) |};
                        store := alter close (lcQueue b) (alter close (lcQueue a) (store w));
                        spawned := spawned w |}).
  { subst w'. unfold LocalConn_Close, manager_close, update_queue, set_manager.
    cbn [fst manager store spawned]. rewrite Hab.
    rewrite lookup_delete_ne by assumption. rewrite Hqb. reflexivity. }
  assert (Hsa : store w' !! lcQueue a = Some (close ca)).
  { rewrite Hw'. cbn [store]. rewrite list_lookup_alter_ne by (intros E; now apply Hne).
    rewrite list_lookup_alter_eq, Ha. reflexivity. }
  assert (Hsb : store w' !! lcQueue b = Some (close cb)).
  { rewrite Hw'. cbn [store]. rewrite list_lookup_alter_eq.
    rewrite list_lookup_alter_ne by assumption. now rewrite Hb. }
  assert (Hga : queues (manager w') !! local a = None).
  { rewrite Hw'. cbn [manager queues]. rewrite lookup_delete_ne by (intros E; now apply Hends).
    apply lookup_delete_eq. }
  assert (Hgb : queues (manager w') !! local b = None).
  { rewrite Hw'. cbn [manager queues]. apply lookup_delete_eq. }
  split; [reflexivity|]. split; [now rewrite Hw'|]. split.
  - rewrite Hw'. unfold len. simpl.
    assert (H1 : delete (local a) (queues (manager w)) !! local b = Some (lcQueue b))
      by now rewrite lookup_delete_ne.
    pose proof (len_delete_Some _ _ _ H1). pose proof (len_delete_Some _ _ _ Hqa). lia.
  - split; [exact Hsa|]. split; [exact Hsb|].
    assert (Hrecv : forall lc c, store w' !! lcQueue lc = Some (close c) ->
              LocalConn_Receive EmptyBody w' lc = (w', closed_error EmptyBody)).
    { intros lc c Hc. unfold LocalConn_Receive. rewrite Hc.
      rewrite LocalProps.pop_closed by reflexivity. unfold update_queue.
      rewrite (alter_as_insert _ _ _ _ Hc), list_insert_id by assumption.
      now destruct w'. }
    split; [now apply (Hrecv a ca)|]. split; [now apply (Hrecv b cb)|].
    split; intros m; unfold LocalConn_Send, send.
    + now rewrite Hab, Hgb.
    + now rewrite Hba, Hga.
Qed.

(** X5. The unique identifiers: while [baseUID] has not wrapped
    around, a successful [connect] registers two endpoints that the
    manager did not hold before (two queues more), advances [baseUID]
    by two, and keeps every identifier in use below [baseUID]. *)
Theorem connect_fresh_endpoints
    (w : World Body Callback) (loc rem : Address) (fn : Callback)
    (Hfresh : uids_fresh (manager w))
    (Hroom : baseUID (manager w) + 2 < uint64_modulus)
    (Hlistening : listening (manager w) !! rem = Some fn) :
  let lm' := manager (fst (connect w loc rem)) in
  queues (manager w) !! (loc, baseUID (manager w)) = None /\
  queues (manager w) !! (rem, baseUID (manager w) + 1) = None /\
  queues lm' =
    <[(rem, baseUID (manager w) + 1) := S (length (store w))]>
      (<[(loc, baseUID (manager w)) := length (store w)]> (queues (manager w))) /\
  baseUID lm' = baseUID (manager w) + 2 /\
  len lm' = (len (manager w) + 2)%nat /\
  uids_fresh lm'.
Proof.
  intros lm'. destruct Hfresh as [Hb Hbelow].
  assert (Hn1 : queues (manager w) !! (loc, baseUID (manager w)) = None).
  { destruct (queues (manager w) !! (loc, baseUID (manager w))) as [q|] eqn:E; [|reflexivity].
    apply Hbelow in E. simpl in E. lia. }
  assert (Hn2 : queues (manager w) !! (rem, baseUID (manager w) + 1) = None).
  { destruct (queues (manager w) !! (rem, baseUID (manager w) + 1)) as [q|] eqn:E; [|reflexivity].
    apply Hbelow in E. simpl in E. lia. }
  assert (Hi1 : uint64_incr (baseUID (manager w)) = baseUID (manager w) + 1)
    by (unfold uint64_incr; apply Z.mod_small; lia).
  assert (Hi2 : uint64_incr (baseUID (manager w) + 1) = baseUID (manager w) + 2).
  { unfold uint64_incr. rewrite Z.mod_small by lia. lia. }
  assert (Hlm : lm' = {| queues := <[(rem, baseUID (manager w) + 1) := S (length (store w))]>
                                     (<[(loc, baseUID (manager w)) := length (store w)]>
                                        (queues (manager w)));
                         listening := listening (manager w);
                         baseUID := baseUID (manager w) + 2 |}).
  { subst lm'. unfold connect. rewrite Hlistening. cbn [fst manager].
    now rewrite Hi1, Hi2. }
  split; [exact Hn1|]. split; [exact Hn2|]. rewrite Hlm. cbn [queues baseUID].
  split; [reflexivity|]. split; [reflexivity|]. split.
  - unfold len. cbn [queues].
    rewrite map_size_insert_None.
    + rewrite map_size_insert_None by assumption. lia.
    + rewrite lookup_insert_ne; [exact Hn2|]. intros [= _ E]. lia.
  - split; [simpl; lia|]. intros e q. simpl.
    destruct (decide ((rem, baseUID (manager w) + 1) = e)) as [<-|H1].
    { intros _. simpl. lia. }
    rewrite lookup_insert_ne by assumption.
    destruct (decide ((loc, baseUID (manager w)) = e)) as [<-|H2].
    { intros _. simpl. lia. }
    rewrite lookup_insert_ne by assumption. intros E. apply Hbelow in E. lia.
Qed.

Lemma connect_baseUID (w : World Body Callback) (loc rem : Address) :
  0 <= baseUID (manager w) ->
  baseUID (manager w) + 2 < uint64_modulus ->
  baseUID (manager w) <= baseUID (manager (fst (connect w loc rem)))
                      <= baseUID (manager w) + 2.
Proof.
  intros Hpos Hroom. unfold connect.
  destruct (listening (manager w) !! rem) as [fn|]; simpl; [|lia].
  unfold uint64_incr. rewrite (Z.mod_small (baseUID (manager w) + 1)) by lia.
  rewrite Z.mod_small by lia. lia.
Qed.

Lemma ConnectAll_keeps_forgotten (pairs : list (Address * Address))
    (w : World Body Callback) (e : endpoint) :
  queues (manager w) !! e = None ->
  0 <= baseUID (manager w) ->
  e.2 < baseUID (manager w) ->
  baseUID (manager w) + 2 * Z.of_nat (length pairs) < uint64_modulus ->
  queues (manager (ConnectAll w pairs)) !! e = None.
Proof.
  revert w. induction pairs as [|[loc rem] pairs IH]; intros w Hnone Hpos Hlt Hroom.
  - exact Hnone.
  - simpl. simpl length in Hroom.
    pose proof (connect_baseUID w loc rem Hpos ltac:(lia)) as Hb.
    apply IH; try lia.
    apply LocalProps.connect_keeps_forgotten; try assumption. lia.
Qed.

(** X6. A closed connection stays closed: when the identifiers in use
    are below [baseUID], after [Close] on one end of a link [Send] on
    either end returns [ErrClosed], also after any later [connect]s on
    the manager, as long as [baseUID] does not wrap around. *)
Theorem closed_connection_stays_closed
    (w : World Body Callback) (a b : LocalConn) (pairs : list (Address * Address)) (m : Body)
    (Hfresh : uids_fresh (manager w))
    (Hlinked : linked w a b)
    (Hroom : baseUID (manager w) + 2 * Z.of_nat (length pairs) < uint64_modulus) :
  let w' := ConnectAll (fst (LocalConn_Close w a)) pairs in
  LocalConn_Send TypeFromData w' a m = (w', Some ErrClosed) /\
  LocalConn_Send TypeFromData w' b m = (w', Some ErrClosed).
Proof.
  intros w'. destruct Hfresh as [Hb Hbelow].
  destruct Hlinked as (Hab & Hba & Hqa & Hqb & Hne & Hla & Hlb).
  assert (Hends : local a <> local b).
  { intros E. rewrite E in Hqa. rewrite Hqa in Hqb. injection Hqb as E'. now apply Hne. }
  assert (Hq0 : queues (manager (fst (LocalConn_Close w a))) =
                delete (local b) (delete (local a) (queues (manager w)))).
  { unfold LocalConn_Close, manager_close, update_queue, set_manager.
    cbn [fst manager store spawned]. rewrite Hab.
    rewrite lookup_delete_ne by assumption. now rewrite Hqb. }
  assert (Hb0 : baseUID (manager (fst (LocalConn_Close w a))) = baseUID (manager w)).
  { unfold LocalConn_Close, manager_close, update_queue, set_manager.
    cbn [fst manager store spawned]. now destruct (_ !! remote a). }
  assert (Hforgot : forall e q, queues (manager w) !! e = Some q ->
            (e = local a \/ e = local b) ->
            queues (manager w') !! e = None).
  { intros e q He Hor. subst w'. apply ConnectAll_keeps_forgotten.
    - rewrite Hq0. destruct Hor as [-> | ->].
      + rewrite lookup_delete_ne by (intros E; now apply Hends). apply lookup_delete_eq.
      + apply lookup_delete_eq.
    - rewrite Hb0. lia.
    - rewrite Hb0. apply Hbelow in He. lia.
    - now rewrite Hb0. }
  split; unfold LocalConn_Send, send.
  - rewrite Hab, (Hforgot _ _ Hqb) by auto. reflexivity.
  - rewrite Hba, (Hforgot _ _ Hqa) by auto. reflexivity.
Qed.

(** X7. The life of a listener. On a local address on which nobody
    listens, a listener can be created, and a second one too: [bind]
    reserves nothing. [Listen] then registers the callback: the address
    listens and a [connect] to it starts that callback. [Stop] takes the
    address off again, leaving the manager as it was before [Listen]:
    a [connect] fails and a new listener can be bound. *)
Theorem listener_lifecycle
    (w : World Body Callback) (a loc : Address) (fn : Callback)
    (Hlocal : AddrConnType a = LocalType)
    (Hfree : listening (manager w) !! a = None) :
  let lm := manager w in
  let ll := fst (NewLocalListenerWithManager AddrConnType lm a) in
  let lm1 := fst (Listen lm ll fn) in
  let ll1 := snd (Listen lm ll fn) in
  let lm2 := fst (Stop lm1 ll1) in
  let ll2 := snd (Stop lm1 ll1) in
  NewLocalListenerWithManager AddrConnType lm a =
    ({| addr := a; ll_listening := false |}, None) /\
  snd (NewLocalListenerWithManager AddrConnType lm a) = None /\
  isListening lm1 a = true /\
  Listening ll1 = true /\
  (exists out, snd (connect (set_manager w lm1) loc a) = inl out /\
     exists inc, spawned (fst (connect (set_manager w lm1) loc a)) = spawned w ++ [(fn, inc)]) /\
  lm2 = lm /\
  Listening ll2 = false /\
  (exists e, snd (connect (set_manager w lm2) loc a) = inr e) /\
  snd (NewLocalListenerWithManager AddrConnType lm2 a) = None.
Proof.
  intros lm ll lm1 ll1 lm2 ll2.
  assert (Hnot : isListening lm a = false).
  { unfold isListening. apply bool_decide_eq_false_2. subst lm. rewrite Hfree.
    intros [x Hx]. discriminate Hx. }
  assert (Hnew : NewLocalListenerWithManager AddrConnType lm a =
                 ({| addr := a; ll_listening := false |}, None)).
  { unfold NewLocalListenerWithManager, bind.
    rewrite bool_decide_eq_true_2 by assumption. simpl. now rewrite Hnot. }
  assert (Hll : ll = {| addr := a; ll_listening := false |}) by (subst ll; now rewrite Hnew).
  assert (Hlm2 : lm2 = lm).
  { subst lm2 ll1 lm1. rewrite Hll. unfold Stop, Listen, unsetListening, setListening.
    simpl. rewrite delete_insert_id by (subst lm; assumption). now destruct lm. }
  split; [exact Hnew|]. split; [now rewrite Hnew|].
  split; [subst lm1; rewrite Hll; apply (LocalProps.isListening_after_Listen lm {| addr := a; ll_listening := false |} fn)|].
  split; [reflexivity|]. split.
  - subst lm1. rewrite Hll. unfold connect, Listen, setListening. simpl.
    rewrite lookup_insert_eq. simpl. eauto.
  - split; [exact Hlm2|]. split; [reflexivity|]. rewrite Hlm2. split.
    + unfold connect. simpl. subst lm. rewrite Hfree. simpl. eauto.
    + now rewrite Hnew.
Qed.

End Links.

Section HostConnect.
Context {Body : Type} {Callback : Type}.
Variable AddrConnType : Address -> ConnType.
Variable MaxRetryConnect : Z.
Variable sleep : World Body Callback -> World Body Callback.

Lemma attempt_S (w : World Body Callback) (k : nat) :
  attempt sleep (sleep w) k = sleep (attempt sleep w k).
Proof. induction k as [|k IH]; simpl; [reflexivity | now rewrite IH]. Qed.

Lemma Connect_loop_fails (lh : LocalHost) (a : Address) (n : nat)
    (finalErr : option error) (w : World Body Callback) :
  (forall k, (k < n)%nat -> listening (manager (attempt sleep w k)) !! a = None) ->
  Connect_loop sleep lh a n finalErr w =
    (attempt sleep w n,
     (None,
      match n with
      | O => finalErr
      | S _ => Some (ErrMsg (lh_addr lh +:+ " can't connect to " +:+ a +:+ ": it's not listening"))
      end)).
Proof.
  revert finalErr w. induction n as [|n IH]; intros finalErr w Hnot; [reflexivity|].
  pose proof (Hnot O ltac:(lia)) as H0. cbn [attempt] in H0.
  cbn [Connect_loop]. unfold NewLocalConnWithManager, connect. rewrite H0.
  rewrite IH.
  - rewrite attempt_S. cbn [attempt]. now destruct n.
  - intros k Hk. rewrite attempt_S. apply (Hnot (S k)). lia.
Qed.

Lemma Connect_loop_succeeds (lh : LocalHost) (a : Address) (n k : nat)
    (finalErr : option error) (w : World Body Callback) (fn : Callback) :
  (k < n)%nat ->
  (forall j, (j < k)%nat -> listening (manager (attempt sleep w j)) !! a = None) ->
  listening (manager (attempt sleep w k)) !! a = Some fn ->
  exists c,
    connect (attempt sleep w k) (lh_addr lh) a = (fst (connect (attempt sleep w k) (lh_addr lh) a), inl c) /\
    Connect_loop sleep lh a n finalErr w =
      (fst (connect (attempt sleep w k) (lh_addr lh) a), (Some c, None)).
Proof.
  revert n finalErr w. induction k as [|k IH]; intros n finalErr w Hk Hnot Hyes.
  - destruct n as [|n]; [lia|]. cbn [attempt Connect_loop] in *.
    unfold NewLocalConnWithManager, connect. rewrite Hyes. cbn [fst]. eauto.
  - destruct n as [|n]; [lia|].
    pose proof (Hnot O ltac:(lia)) as H0. cbn [attempt] in H0.
    cbn [Connect_loop]. unfold NewLocalConnWithManager.
    replace (connect w (lh_addr lh) a) with
      (w, @inr LocalConn error
            (ErrMsg (lh_addr lh +:+ " can't connect to " +:+ a +:+ ": it's not listening")))
      by (unfold connect; now rewrite H0).
    cbn [attempt].
    destruct (IH n
                (Some (ErrMsg (lh_addr lh +:+ " can't connect to " +:+ a +:+ ": it's not listening")))
                (sleep w)) as (c & Ec & El).
    + lia.
    + intros j Hj. rewrite attempt_S. apply (Hnot (S j)). lia.
    + rewrite attempt_S. exact Hyes.
    + rewrite attempt_S in Ec, El. exists c. split; [exact Ec | exact El].
Qed.

(** X8. [LocalHost.Connect]. To an address that is not a local one it
    fails at once, without an attempt. To a local address it tries up
    to [MaxRetryConnect] times, sleeping after each failure: it returns
    the connection of the first attempt that finds the address
    listening; when no attempt does, it returns the "not listening"
    error of the last one; and when [MaxRetryConnect] is not positive it
    returns neither a connection nor an error. *)
Theorem LocalHost_Connect_retries
    (lh : LocalHost) (a : Address) (w : World Body Callback) :
  (AddrConnType a <> LocalType ->
   LocalHost_Connect AddrConnType MaxRetryConnect sleep lh a w =
     (w, (None, Some (ErrMsg "Can't connect to non-Local address")))) /\
  (AddrConnType a = LocalType ->
   (forall k fn,
      (Z.of_nat k < MaxRetryConnect) ->
      (forall j, (j < k)%nat -> listening (manager (attempt sleep w j)) !! a = None) ->
      listening (manager (attempt sleep w k)) !! a = Some fn ->
      exists c,
        snd (connect (attempt sleep w k) (lh_addr lh) a) = inl c /\
        LocalHost_Connect AddrConnType MaxRetryConnect sleep lh a w =
          (fst (connect (attempt sleep w k) (lh_addr lh) a), (Some c, None))) /\
   (0 < MaxRetryConnect ->
    (forall k, listening (manager (attempt sleep w k)) !! a = None) ->
    LocalHost_Connect AddrConnType MaxRetryConnect sleep lh a w =
      (attempt sleep w (Z.to_nat MaxRetryConnect),
       (None,
        Some (ErrMsg (lh_addr lh +:+ " can't connect to " +:+ a +:+ ": it's not listening"))))) /\
   (MaxRetryConnect <= 0 ->
    LocalHost_Connect AddrConnType MaxRetryConnect sleep lh a w = (w, (None, None)))).
Proof.
  split.
  - intros Hne. unfold LocalHost_Connect.
    now rewrite bool_decide_eq_false_2 by assumption.
  - intros Hlocal. unfold LocalHost_Connect.
    rewrite bool_decide_eq_true_2 by assumption. cbn [negb].
    split; [|split].
    + intros k fn Hk Hnot Hyes.
      destruct (Connect_loop_succeeds lh a (Z.to_nat MaxRetryConnect) k None w fn)
        as (c & Ec & El); [lia|assumption|assumption|].
      exists c. split; [now rewrite Ec | exact El].
    + intros Hpos Hnot. rewrite Connect_loop_fails by (intros k _; apply Hnot).
      destruct (Z.to_nat MaxRetryConnect) eqn:E; [lia | reflexivity].
    + intros Hle. replace (Z.to_nat MaxRetryConnect) with O by lia. reflexivity.
Qed.

End HostConnect.

End LocalMoreProps.

(** * More properties of the host *)
Module SDAMoreProps.
Import SDA SDASpec SDAMore.

Section MoreHostProps.
Context {Payload : Type} {ProtocolInstance : Type} {Constructors : Type}.
Variable protocols : gmap UUID (TreeNode -> Token -> ProtocolInstance).
Variable Token_Id : Token -> UUID.
Variable Open : Entity -> SecureConn + error.
Variable HostClose : option error.
Variable error_text : error -> string.
Variable DefaultConstructors : Constructors.
Variable MarshalRegisteredType : option Payload -> bytes + error.
Variable TypeFromData : option Payload -> UUID.
Variable UnmarshalRegisteredType :
  bytes -> Constructors -> UUID * option Payload * option error.
Variable MakeTree : TreeMarshal -> EntityList -> Tree + error.
Variable MakeTreeMarshal : Tree -> TreeMarshal.
Variable EmptyTreeMarshal : TreeMarshal.

Local Abbreviation HostT := (Host Payload ProtocolInstance).
Local Abbreviation MT := (M Payload ProtocolInstance).
Local Abbreviation SendRaw' := (@SendRaw Payload ProtocolInstance Open).
Local Abbreviation SendSDAToTreeNode' :=
  (@SendSDAToTreeNode Payload ProtocolInstance Token_Id Open error_text
     MarshalRegisteredType TypeFromData).
Local Abbreviation SendSDA' :=
  (@SendSDA Payload ProtocolInstance Token_Id Open error_text
     MarshalRegisteredType TypeFromData).
Local Abbreviation processSDAMessage' :=
  (@processSDAMessage Payload ProtocolInstance protocols Token_Id Open
     Constructors DefaultConstructors UnmarshalRegisteredType).
Local Abbreviation ProcessMessages_turn' :=
  (@ProcessMessages_turn Payload ProtocolInstance protocols Token_Id Open
     Constructors DefaultConstructors UnmarshalRegisteredType
     MakeTree MakeTreeMarshal EmptyTreeMarshal).
Local Abbreviation ProcessMessages' :=
  (@ProcessMessages Payload ProtocolInstance protocols Token_Id Open
     Constructors DefaultConstructors UnmarshalRegisteredType
     MakeTree MakeTreeMarshal EmptyTreeMarshal).
Local Abbreviation Close' := (@Close Payload ProtocolInstance HostClose).
Local Abbreviation AddTree' := (@AddTree Payload ProtocolInstance protocols Token_Id).

(** ** The host never forgets *)

#[local] Instance grows_preorder : PreOrder (@grows Payload ProtocolInstance).
Proof.
  split.
  - intros h. unfold grows. repeat split; auto. intros id sl H. eauto.
  - intros h1 h2 h3
      (He1 & Hc1 & Ht1 & Hl1 & Hn1 & Hk1 & Hi1 & Hm1 & Hp1 & Hw1 & Hd1 & Hs1)
      (He2 & Hc2 & Ht2 & Hl2 & Hn2 & Hk2 & Hi2 & Hm2 & Hp2 & Hw2 & Hd2 & Hs2).
    unfold grows. repeat split; try congruence; auto; try (etransitivity; eassumption).
    intros id sl H. destruct (Hm1 id sl H) as (sl1 & H1 & P1).
    destruct (Hm2 id sl1 H1) as (sl2 & H2 & P2). exists sl2. split; [exact H2|].
    etransitivity; eassumption.
Qed.

Lemma is_Some_insert_mono {V} (m : gmap UUID V) (k id : UUID) (v : V) :
  is_Some (m !! id) -> is_Some (<[k := v]> m !! id).
Proof.
  intros H. destruct (decide (k = id)) as [->|Hne].
  - rewrite lookup_insert_eq. eauto.
  - now rewrite lookup_insert_ne.
Qed.

(** Closes a goal [grows h h'] where [h'] is [h] with entries added
    to its maps or its lists extended. *)
Ltac grows_solve :=
  unfold grows; cbn [host_Entity closed trees entityLists entities connections
                     mapper instances pendingTreeMarshal pendingSDAs net dispatched
                     instantiated set_mapper set_connections set_entities
                     set_entityLists set_trees set_pendingTreeMarshal set_pendingSDAs
                     set_closed set_pendingTreeLocked emit record_dispatch
                     record_instance];
  repeat split;
  try reflexivity;
  try (intros ? ?; assumption);
  try (intros ? ?; now apply is_Some_insert_mono);
  try (intros ? ? ?; eexists; split; [eassumption | reflexivity]);
  try (apply prefix_app_r; reflexivity).

Ltac preserves_step :=
  lazymatch goal with
  | |- preserves _ (bindM _ _) => apply SDAProps.preserves_bind; [tc_solve | | intros ?]
  | |- preserves _ (ret _) => apply SDAProps.preserves_ret; tc_solve
  | |- preserves _ (gets _) => apply SDAProps.preserves_gets; tc_solve
  | |- preserves _ panic => apply SDAProps.preserves_panic; tc_solve
  | |- preserves _ deadlock => apply SDAProps.preserves_deadlock; tc_solve
  | |- preserves _ waiting => apply SDAProps.preserves_waiting; tc_solve
  | |- preserves _ (modify _) => apply SDAProps.preserves_modify; intros ?
  | |- preserves _ (match ?x with _ => _ end) => destruct x eqn:?
  | |- preserves _ (let '(_, _) := ?x in _) => destruct x eqn:?
  end.

Lemma SendRaw_grows (e : Entity) (msg : option (Frame Payload)) :
  preserves grows (SendRaw' e msg).
Proof.
  unfold SendRaw, Connect, registerConnection. repeat preserves_step; grows_solve.
Qed.

Lemma protocolInstantiate_grows (tok : Token) (tn : option TreeNode) :
  preserves grows (protocolInstantiate protocols Token_Id tok tn : MT _).
Proof.
  unfold protocolInstantiate, GetTree, GetEntityList, RegisterProtocolInstance.
  repeat preserves_step; grows_solve.
Qed.

Lemma DispatchToInstance_grows (sda : SDAData Payload) :
  preserves grows (DispatchToInstance Token_Id sda : MT _).
Proof. unfold DispatchToInstance. repeat preserves_step; grows_solve. Qed.

Lemma checkPendingSDA_loop_grows (t : Tree) (l : list (SDAData Payload)) :
  preserves grows (checkPendingSDA_loop protocols Token_Id t l : MT unit).
Proof.
  induction l as [|sda l IH]; simpl; repeat preserves_step;
    auto using protocolInstantiate_grows, DispatchToInstance_grows.
Qed.

Lemma checkPendingSDA_grows (t : Tree) :
  preserves grows (checkPendingSDA protocols Token_Id t : MT unit).
Proof.
  unfold checkPendingSDA. repeat preserves_step. apply checkPendingSDA_loop_grows.
Qed.

Lemma AddTree_grows (t : Tree) : preserves grows (AddTree' t).
Proof.
  unfold AddTree. repeat preserves_step; [grows_solve|]. apply checkPendingSDA_grows.
Qed.

Lemma processSDAMessage_grows (am : NetworkMessage Payload) (sda : SDAData Payload) :
  preserves grows (processSDAMessage' am sda).
Proof.
  unfold processSDAMessage, requestTree, addPendingSda, GetEntityList, GetTree.
  destruct (UnmarshalRegisteredType _ _) as [[t msg] err]. cbn [To].
  repeat preserves_step;
    auto using SendRaw_grows, protocolInstantiate_grows, DispatchToInstance_grows;
    grows_solve.
Qed.

Lemma addPendingTreeMarshal_grows (tm : TreeMarshal) :
  preserves grows (addPendingTreeMarshal tm : MT unit).
Proof.
  intros h h' r.
  unfold addPendingTreeMarshal, lock_pendingTree, unlock_pendingTree,
    bindM, gets, modify, deadlock.
  destruct (pendingTreeLocked h); cbn; intros [= <- _]; [reflexivity|].
  grows_solve. intros id sl Hsl.
  destruct (decide (EntityId tm = id)) as [<-|Hne].
  - rewrite lookup_insert_eq. eexists. split; [reflexivity|].
    rewrite Hsl. apply prefix_app_r. reflexivity.
  - rewrite lookup_insert_ne by assumption. eauto.
Qed.

Lemma checkPendingTreeMarshal_loop_grows (el : EntityList) (sl : list TreeMarshal) :
  preserves grows
    (checkPendingTreeMarshal_loop protocols Token_Id MakeTree el sl : MT unit).
Proof.
  induction sl as [|tm sl IH]; simpl; repeat preserves_step; auto using AddTree_grows.
Qed.

Lemma checkPendingTreeMarshal_grows (el : EntityList) :
  preserves grows (checkPendingTreeMarshal protocols Token_Id MakeTree el : MT unit).
Proof.
  unfold checkPendingTreeMarshal, lock_pendingTree, unlock_pendingTree.
  repeat preserves_step; auto using checkPendingTreeMarshal_loop_grows; grows_solve.
Qed.

Lemma ProcessMessages_turn_grows (data : NetworkMessage Payload) :
  preserves grows (ProcessMessages_turn' data).
Proof.
  unfold ProcessMessages_turn, GetEntityList, AddEntityList.
  repeat preserves_step;
    auto using SendRaw_grows, processSDAMessage_grows, AddTree_grows,
               checkPendingSDA_grows, addPendingTreeMarshal_grows,
               checkPendingTreeMarshal_grows;
    grows_solve.
Qed.

Lemma SendSDAToTreeNode_grows (from : option Token) (to : option TreeNode)
    (msg : option Payload) :
  preserves grows (SendSDAToTreeNode' from to msg).
Proof.
  unfold SendSDAToTreeNode, sendSDAData. repeat preserves_step; apply SendRaw_grows.
Qed.

(** X9. The host never forgets. Whatever frames the dispatch loop is
    given and however it ends, and through every [SendSDA],
    [SendSDAToTreeNode], [AddTree] and [AddEntityList]: no tree, roster,
    entity, connection or instance is removed, no pending envelope and
    no pending tree marshal is taken off its list (they are only
    appended to), and the traces of network effects, dispatches and
    constructor calls are only extended. *)
Theorem host_never_forgets :
  (forall incoming, preserves grows (ProcessMessages' incoming)) /\
  (forall from to msg, preserves grows (SendSDA' from to msg)) /\
  (forall from to msg, preserves grows (SendSDAToTreeNode' from to msg)) /\
  (forall t, preserves grows (AddTree' t)) /\
  (forall il, preserves grows (AddEntityList il : MT unit)).
Proof.
  split; [|split; [|split; [|split]]].
  - intros incoming. induction incoming as [|[data cs] rest IH]; simpl;
      repeat preserves_step; auto. apply ProcessMessages_turn_grows.
  - intros from to msg. unfold SendSDA, TreeNodeFromToken.
    repeat preserves_step. apply SendSDAToTreeNode_grows.
  - apply SendSDAToTreeNode_grows.
  - apply AddTree_grows.
  - intros il. unfold AddEntityList. repeat preserves_step. grows_solve.
Qed.

(** ** Connections *)

Lemma SendRaw_reuse (h : HostT) (e x : Entity) (c : SecureConn) (f : Frame Payload) :
  entities h !! Entity_Id e = Some x ->
  connections h !! Entity_Id e = Some c ->
  SendRaw' e (Some f) h = (emit h [NetSend c f], Returned None).
Proof.
  intros Hx Hc. unfold SendRaw, bindM, gets, modify, ret.
  rewrite Hx. cbn. now rewrite Hc.
Qed.

(** X10. [SendRaw] opens at most one connection per entity. To an
    entity it knows, with a connection in the table, it hands the frame
    to that connection and does nothing else. To an entity it does not
    know, it opens a connection; when the connection leads to that
    entity it is registered, its handler is started, the frame is handed
    to it, and a second [SendRaw] to the entity reuses it; when [Open]
    fails, that error is returned and the host is left as it was. A
    [nil] frame is refused before anything else. *)
Theorem SendRaw_connects_once (h : HostT) (e : Entity) (f f2 : Frame Payload) :
  (forall x c,
     entities h !! Entity_Id e = Some x ->
     connections h !! Entity_Id e = Some c ->
     SendRaw' e (Some f) h = (emit h [NetSend c f], Returned None)) /\
  (forall c,
     entities h !! Entity_Id e = None ->
     Open e = inl c ->
     Entity_Id (conn_Entity c) = Entity_Id e ->
     let h1 := fst (SendRaw' e (Some f) h) in
     snd (SendRaw' e (Some f) h) = Returned None /\
     entities h1 = <[Entity_Id e := conn_Entity c]> (entities h) /\
     connections h1 = <[Entity_Id e := c]> (connections h) /\
     net h1 = net h ++ [NetHandleConn c; NetSend c f] /\
     only_network h h1 /\
     SendRaw' e (Some f2) h1 = (emit h1 [NetSend c f2], Returned None)) /\
  (forall err,
     entities h !! Entity_Id e = None ->
     Open e = inr err ->
     SendRaw' e (Some f) h = (h, Returned (Some err))) /\
  SendRaw' e None h = (h, Returned (Some (ErrMsg "Can't send nil-packet"))).
Proof.
  split; [intros x c; apply SendRaw_reuse|]. split; [|split; [|reflexivity]].
  - intros c Hnone Hopen Hid. cbv zeta.
    assert (E : SendRaw' e (Some f) h =
                (emit (emit (set_connections
                               (set_entities h (<[Entity_Id e := conn_Entity c]> (entities h)))
                               (<[Entity_Id e := c]> (connections h)))
                            [NetHandleConn c]) [NetSend c f],
                 Returned None)).
    { unfold SendRaw, Connect, registerConnection, bindM, gets, modify, ret.
      rewrite Hnone, Hopen. cbn. rewrite Hid, lookup_insert_eq. reflexivity. }
    rewrite E. cbn [fst snd].
    split; [reflexivity|]. split; [reflexivity|]. split; [reflexivity|].
    split; [cbn; now rewrite <- app_assoc|]. split; [repeat split|].
    apply (SendRaw_reuse _ _ (conn_Entity c)); cbn; apply lookup_insert_eq.
  - intros err Hnone Hopen. unfold SendRaw, Connect, bindM, gets, ret.
    rewrite Hnone, Hopen. reflexivity.
Qed.

(** X11. After [Close] the host cannot send to the entities it knows:
    [Close] empties the connection table but not the table of entities,
    so [SendRaw] neither finds a connection nor opens one, and returns
    "Got no connection tied to this Entity" with nothing sent. *)
Theorem SendRaw_after_Close
    (h : HostT) (e x : Entity) (f : Frame Payload)
    (Hopen : closed h = false)
    (Hknown : entities h !! Entity_Id e = Some x) :
  let h1 := fst (Close' h) in
  SendRaw' e (Some f) h1 =
    (h1, Returned (Some (ErrMsg "Got no connection tied to this Entity"))).
Proof.
  cbv zeta. unfold Close, bindM, gets, modify, ret. cbn. rewrite Hopen. cbn.
  unfold SendRaw, bindM, gets, ret. cbn. rewrite Hknown. cbn.
  now rewrite lookup_empty.
Qed.

(** X12. [Close] a second time panics, on closing the [closed]
    channel again; before that it has closed the transport host once
    more. *)
Theorem Close_twice_panics (h : Host Payload ProtocolInstance) (Hopen : closed h = false) :
  let h1 := fst (Close HostClose h) in
  snd (Close HostClose h1) = Panicked /\
  net (fst (Close HostClose h1)) = net h1 ++ [NetHostClose] /\
  connections (fst (Close HostClose h1)) = ∅ /\
  closed (fst (Close HostClose h1)) = true.
Proof.
  cbv zeta. unfold Close, bindM, gets, modify, ret, panic. cbn. rewrite Hopen. cbn.
  rewrite map_to_list_empty. cbn. rewrite app_nil_r. repeat split.
Qed.

(** ** Requests and their answers *)

Lemma turn_reply (h : HostT) (data : NetworkMessage Payload) (reply : Frame Payload) :
  bindM (SendRaw' (nm_Entity data) (Some reply)) (fun _ => ret tt) h =
    (fst (SendRaw' (nm_Entity data) (Some reply) h), Returned tt).
Proof.
  unfold bindM. destruct (SDAProps.SendRaw_returns Open (nm_Entity data) (Some reply) h) as [r Hr].
  destruct (SendRaw' (nm_Entity data) (Some reply) h) as [h1 r1]. simpl in Hr. now subst r1.
Qed.

(** X13. The dispatch loop answers a [RequestTree] with one
    [SendTree], carrying the marshal of the tree when it has it and the
    marshal of the empty tree when not, and a [RequestEntityList] with
    one [SendEntityList], carrying the roster when it has it and the
    zero roster when not. The answer goes to a connection of the
    requester with [SendRaw], whose error is dropped; only the
    connection tables and the network trace change. The host that
    receives the zero roster (or an empty tree marshal, one whose
    [NodeId] is [nil]) drops it and stays as it is: what it had pending
    stays pending and nothing is requested again. *)
Theorem requests_are_answered (h : HostT) (data : NetworkMessage Payload) :
  (forall tid,
     nm_Msg data = RequestTreeMessage tid ->
     let reply := SendTreeMessage
                    (match trees h !! tid with
                     | Some tree => MakeTreeMarshal tree
                     | None => EmptyTreeMarshal
                     end) in
     ProcessMessages_turn' data h =
       (fst (SendRaw' (nm_Entity data) (Some reply) h), Returned tt) /\
     only_network h (fst (ProcessMessages_turn' data h)) /\
     net_extends (sends_frame reply) h (fst (ProcessMessages_turn' data h)) /\
     forall x c,
       entities h !! Entity_Id (nm_Entity data) = Some x ->
       connections h !! Entity_Id (nm_Entity data) = Some c ->
       ProcessMessages_turn' data h = (emit h [NetSend c reply], Returned tt)) /\
  (forall id,
     nm_Msg data = RequestEntityListMessage id ->
     let reply := SendEntityListMessage
                    (match entityLists h !! id with
                     | Some il => il
                     | None => EmptyEntityList
                     end) in
     ProcessMessages_turn' data h =
       (fst (SendRaw' (nm_Entity data) (Some reply) h), Returned tt) /\
     only_network h (fst (ProcessMessages_turn' data h)) /\
     net_extends (sends_frame reply) h (fst (ProcessMessages_turn' data h)) /\
     forall x c,
       entities h !! Entity_Id (nm_Entity data) = Some x ->
       connections h !! Entity_Id (nm_Entity data) = Some c ->
       ProcessMessages_turn' data h = (emit h [NetSend c reply], Returned tt)) /\
  (nm_Msg data = SendEntityListMessage EmptyEntityList ->
   ProcessMessages_turn' data h = (h, Returned tt)) /\
  (NodeId EmptyTreeMarshal = uuid_Nil ->
   nm_Msg data = SendTreeMessage EmptyTreeMarshal ->
   ProcessMessages_turn' data h = (h, Returned tt)).
Proof.
  assert (Hsend : forall reply,
            let h' := fst (SendRaw' (nm_Entity data) (Some reply) h) in
            only_network h h' /\ net_extends (sends_frame reply) h h' /\
            forall x c,
              entities h !! Entity_Id (nm_Entity data) = Some x ->
              connections h !! Entity_Id (nm_Entity data) = Some c ->
              (h', Returned tt) = (emit h [NetSend c reply], @Returned unit tt)).
  { intros reply. cbv zeta.
    destruct (SendRaw' (nm_Entity data) (Some reply) h) as [h1 r1] eqn:E. cbn [fst].
    split; [apply (SDAProps.SendRaw_only_network _ _ _ _ _ _ E)|].
    split; [apply (SDAProps.SendRaw_net _ _ _ _ _ _ E)|].
    intros x c Hx Hc.
    rewrite (SendRaw_reuse _ _ x c reply Hx Hc) in E. now injection E as <- _. }
  split; [|split; [|split]].
  - intros tid Hmsg reply.
    assert (E : ProcessMessages_turn' data h =
                (fst (SendRaw' (nm_Entity data) (Some reply) h), Returned tt)).
    { unfold ProcessMessages_turn. rewrite Hmsg. unfold bindM at 1, gets at 1. subst reply.
      destruct (trees h !! tid); apply turn_reply. }
    rewrite E. cbn [fst]. split; [reflexivity|]. apply Hsend.
  - intros id Hmsg reply.
    assert (E : ProcessMessages_turn' data h =
                (fst (SendRaw' (nm_Entity data) (Some reply) h), Returned tt)).
    { unfold ProcessMessages_turn. rewrite Hmsg. unfold bindM at 1, gets at 1. subst reply.
      destruct (entityLists h !! id); apply turn_reply. }
    rewrite E. cbn [fst]. split; [reflexivity|]. apply Hsend.
  - intros Hmsg. unfold ProcessMessages_turn. rewrite Hmsg. reflexivity.
  - intros Hnil Hmsg. unfold ProcessMessages_turn. rewrite Hmsg.
    now rewrite bool_decide_eq_true_2 by assumption.
Qed.

(** ** The lock on the pending trees *)

(** X14. A roster for which no tree is pending blocks the dispatch
    loop. With [pendingTreeLock] free, a [SendEntityList] whose roster
    has an identifier and no pending tree marshal is processed: the
    roster is stored, and [checkPendingTreeMarshal] returns with the
    lock held. From then on the next [SendEntityList] with an
    identifier parks the loop for ever in [checkPendingTreeMarshal]
    (after storing its roster), and the next [SendTree] for a roster
    the host does not have parks it in [addPendingTreeMarshal] (after
    requesting the roster, with the marshal not queued): the frames
    behind it are never processed. *)
Theorem roster_without_pending_tree_blocks
    (h : HostT) (data : NetworkMessage Payload) (cs : Constructors) (il : EntityList)
    (Hmsg : nm_Msg data = SendEntityListMessage il)
    (Hid : EntityList_Id il <> uuid_Nil)
    (Hlock : pendingTreeLocked h = false)
    (Hnone : pendingTreeMarshal h !! EntityList_Id il = None) :
  let h1 := set_pendingTreeLocked
              (set_entityLists h (<[EntityList_Id il := il]> (entityLists h))) true in
  ProcessMessages_turn' data h = (h1, Returned tt) /\
  (forall data2 il2,
     nm_Msg data2 = SendEntityListMessage il2 ->
     EntityList_Id il2 <> uuid_Nil ->
     ProcessMessages_turn' data2 h1 =
       (set_entityLists h1 (<[EntityList_Id il2 := il2]> (entityLists h1)), Deadlock)) /\
  (forall data2 tm,
     nm_Msg data2 = SendTreeMessage tm ->
     NodeId tm <> uuid_Nil ->
     entityLists h1 !! EntityId tm = None ->
     ProcessMessages_turn' data2 h1 =
       (fst (SendRaw' (nm_Entity data2) (Some (RequestEntityListMessage (EntityId tm))) h1),
        Deadlock) /\
     pendingTreeMarshal (fst (ProcessMessages_turn' data2 h1)) = pendingTreeMarshal h) /\
  (forall data2 cs2 rest,
     (exists il2, nm_Msg data2 = SendEntityListMessage il2 /\ EntityList_Id il2 <> uuid_Nil) \/
     (exists tm, nm_Msg data2 = SendTreeMessage tm /\ NodeId tm <> uuid_Nil /\
                 entityLists h1 !! EntityId tm = None) ->
     snd (ProcessMessages' ((data, cs) :: (data2, cs2) :: rest) h) = Deadlock /\
     fst (ProcessMessages' ((data, cs) :: (data2, cs2) :: rest) h) =
       fst (ProcessMessages_turn' data2 h1)).
Proof.
  intros h1.
  assert (E1 : ProcessMessages_turn' data h = (h1, Returned tt)).
  { unfold ProcessMessages_turn. rewrite Hmsg.
    rewrite bool_decide_eq_false_2 by assumption.
    unfold AddEntityList, bindM at 1, modify at 1.
    now rewrite SDAProps.checkPendingTreeMarshal_leaves_lock. }
  assert (E2 : forall data2 il2,
     nm_Msg data2 = SendEntityListMessage il2 ->
     EntityList_Id il2 <> uuid_Nil ->
     ProcessMessages_turn' data2 h1 =
       (set_entityLists h1 (<[EntityList_Id il2 := il2]> (entityLists h1)), Deadlock)).
  { intros data2 il2 Hmsg2 Hid2. unfold ProcessMessages_turn. rewrite Hmsg2.
    rewrite bool_decide_eq_false_2 by assumption. reflexivity. }
  assert (E3 : forall data2 tm,
     nm_Msg data2 = SendTreeMessage tm ->
     NodeId tm <> uuid_Nil ->
     entityLists h1 !! EntityId tm = None ->
     ProcessMessages_turn' data2 h1 =
       (fst (SendRaw' (nm_Entity data2) (Some (RequestEntityListMessage (EntityId tm))) h1),
        Deadlock) /\
     pendingTreeMarshal (fst (ProcessMessages_turn' data2 h1)) = pendingTreeMarshal h).
  { intros data2 tm Hmsg2 Hnode Hil.
    assert (E : ProcessMessages_turn' data2 h1 =
       (fst (SendRaw' (nm_Entity data2) (Some (RequestEntityListMessage (EntityId tm))) h1),
        Deadlock)).
    { unfold ProcessMessages_turn. rewrite Hmsg2.
      rewrite bool_decide_eq_false_2 by assumption.
      unfold GetEntityList, bindM at 1, gets at 1. rewrite Hil. unfold bindM at 1.
      destruct (SDAProps.SendRaw_returns Open (nm_Entity data2)
                  (Some (RequestEntityListMessage (EntityId tm))) h1) as [r Hr].
      destruct (SendRaw' (nm_Entity data2) _ h1) as [h2 r2] eqn:Es.
      simpl in Hr. subst r2. cbn [fst].
      apply SDAProps.SendRaw_only_network in Es as (_&_&_&_&_&_&_&Hlk&_).
      apply SDAProps.addPendingTreeMarshal_locked. now rewrite Hlk. }
    split; [exact E|]. rewrite E. cbn [fst].
    destruct (SendRaw' (nm_Entity data2) _ h1) as [h2 r2] eqn:Es. cbn [fst].
    apply SDAProps.SendRaw_only_network in Es as (_&_&_&_&Hpt&_). exact Hpt. }
  split; [exact E1|]. split; [exact E2|]. split; [exact E3|].
  intros data2 cs2 rest Hcase.
  assert (Hr1 : receive UnmarshalRegisteredType data cs = data).
  { unfold receive. now rewrite Hmsg. }
  assert (Hr2 : receive UnmarshalRegisteredType data2 cs2 = data2).
  { unfold receive. destruct Hcase as [(il2 & -> & _)|(tm & -> & _)]; reflexivity. }
  cbn [ProcessMessages]. rewrite Hr1, Hr2. unfold bindM at 1 3. rewrite E1.
  unfold bindM.
  destruct Hcase as [(il2 & Hm2 & Hid2)|(tm & Hm2 & Hnode & Hil)].
  - rewrite (E2 data2 il2 Hm2 Hid2). split; reflexivity.
  - destruct (E3 data2 tm Hm2 Hnode Hil) as [-> _]. split; reflexivity.
Qed.

(** X15. An envelope without a recipient token stops the host: the
    dispatch loop dereferences [To] before any check and panics, with
    nothing changed and the frames behind it not processed. *)
Theorem envelope_without_recipient_panics
    (h : HostT) (data : NetworkMessage Payload) (cs : Constructors)
    (sda : SDAData Payload) (rest : list (NetworkMessage Payload * Constructors))
    (Hmsg : nm_Msg data = SDADataMessage sda)
    (Hto : To sda = None) :
  ProcessMessages' ((data, cs) :: rest) h = (h, Panicked).
Proof.
  cbn [ProcessMessages]. unfold receive. rewrite Hmsg.
  destruct (UnmarshalRegisteredType (MsgSlice sda) cs) as [[t msg] err].
  unfold ProcessMessages_turn. cbn [nm_Msg]. unfold processSDAMessage. cbn [MsgSlice].
  destruct (UnmarshalRegisteredType (MsgSlice sda) DefaultConstructors) as [[t' msg'] err'].
  cbn [To]. rewrite Hto. reflexivity.
Qed.

(** ** Addressing *)

(** X16. [SendSDA] uses the recipient token only to find the tree node
    to send to: the tree is looked up under the token's [TreeID] and the
    node under its [TreeNodeID]; without the tree or the node the send
    fails ("Didn't find tree", "Didn't find treenode") before the
    sender is looked at, with the host left as it was. Otherwise it is
    [SendSDAToTreeNode] to that node: when it succeeds, the envelope on
    the wire is addressed to the sender's protocol, roster, tree and
    round with the recipient's tree node, whatever protocol, roster and
    round the recipient token names. *)
Theorem SendSDA_resolves_recipient
    (h : HostT) (from : option Token) (to : Token) (msg : option Payload) :
  (trees h !! TreeID to = None ->
   SendSDA' from (Some to) msg h = (h, Returned (Some (ErrMsg "Didn't find tree")))) /\
  (forall tree,
     trees h !! TreeID to = Some tree ->
     GetNode tree (TreeNodeID to) = None ->
     SendSDA' from (Some to) msg h = (h, Returned (Some (ErrMsg "Didn't find treenode")))) /\
  (forall tree tn,
     trees h !! TreeID to = Some tree ->
     GetNode tree (TreeNodeID to) = Some tn ->
     SendSDA' from (Some to) msg h = SendSDAToTreeNode' from (Some tn) msg h /\
     TreeNode_Id tn = TreeNodeID to /\
     forall h',
       SendSDA' from (Some to) msg h = (h', Returned None) ->
       exists f b c,
         from = Some f /\
         MarshalRegisteredType msg = inl b /\
         last (net h') =
           Some (NetSend c (SDADataMessage
                   {| To := Some {| ProtocolID := ProtocolID f;
                                    EntityListID := EntityListID f;
                                    TreeID := TreeID f;
                                    RoundID := RoundID f;
                                    TreeNodeID := TreeNodeID to |};
                      From := Some f;
                      MsgType := TypeFromData msg;
                      MsgSlice := b;
                      Msg := None;
                      sda_Entity := None |}))).
Proof.
  split; [|split].
  - intros Hnone. unfold SendSDA, TreeNodeFromToken, bindM, gets, ret. now rewrite Hnone.
  - intros tree Htree Hnode. unfold SendSDA, TreeNodeFromToken, bindM, gets, ret.
    now rewrite Htree, Hnode.
  - intros tree tn Htree Hnode.
    assert (E : SendSDA' from (Some to) msg h = SendSDAToTreeNode' from (Some tn) msg h).
    { unfold SendSDA, TreeNodeFromToken, bindM at 1 2, gets at 1, ret at 1.
      now rewrite Htree, Hnode. }
    pose proof (SDAProps.GetNode_from_Id _ _ _ Hnode) as Hid.
    split; [exact E|]. split; [exact Hid|].
    intros h'. rewrite E.
    unfold SendSDAToTreeNode, sendSDAData, bindM at 1, gets.
    destruct (mapper_Instance Token_Id (mapper h) from); [|discriminate].
    destruct from as [f|]; [|discriminate].
    cbn [Msg To From sda_Entity].
    destruct (MarshalRegisteredType msg) as [b|err] eqn:Eb; [|discriminate].
    intros Hsend. apply SDAProps.SendRaw_sent in Hsend as (c & pre & _ & Hnet & _).
    exists f, b, c. split; [reflexivity|]. split; [reflexivity|].
    rewrite Hnet, app_assoc, last_snoc. unfold OtherToken. now rewrite Hid.
Qed.

(** ** Envelopes for a known topology *)


(** ** The tables stay consistent *)

#[local] Instance keeps_conn_known_preorder :
  PreOrder (@keeps_conn_known Payload ProtocolInstance).
Proof.
  split.
  - intros h H. exact H.
  - intros h1 h2 h3 H12 H23 H. apply H23, H12, H.
Qed.

#[local] Instance keeps_conn_wf_preorder' :
  PreOrder (@keeps_conn_wf Payload ProtocolInstance).
Proof.
  split.
  - intros h H. exact H.
  - intros h1 h2 h3 H12 H23 H. apply H23, H12, H.
Qed.

#[local] Instance keeps_pending_wf_preorder' :
  PreOrder (@keeps_pending_wf Payload ProtocolInstance).
Proof.
  split.
  - intros h H. exact H.
  - intros h1 h2 h3 H12 H23 H. apply H23, H12, H.
Qed.

Lemma same_conn_known (h h' : HostT) :
  connections h' = connections h -> entities h' = entities h -> keeps_conn_known h h'.
Proof. intros Ec Ee Hk id. rewrite Ec, Ee. apply Hk. Qed.

Lemma SendRaw_conn_known (e : Entity) (msg : option (Frame Payload)) :
  preserves keeps_conn_known (SendRaw' e msg).
Proof.
  intros h h' r E Hk.
  assert (Hreg : forall c, conn_known
            (set_connections (set_entities h (<[Entity_Id (conn_Entity c) := conn_Entity c]>
                                                (entities h)))
               (<[Entity_Id (conn_Entity c) := c]> (connections h)))).
  { intros c id. cbn. destruct (decide (Entity_Id (conn_Entity c) = id)) as [<-|Hne].
    - rewrite !lookup_insert_eq. eauto.
    - rewrite !lookup_insert_ne by assumption. apply Hk. }
  revert E. destruct msg as [f|]; [|intros [= <- _]; exact Hk].
  unfold SendRaw, Connect, registerConnection, bindM, gets, modify, ret.
  destruct (entities h !! Entity_Id e) as [x|]; cbn.
  - destruct (connections h !! Entity_Id e); cbn; intros [= <- _]; exact Hk.
  - destruct (Open e) as [c|err]; cbn; [|intros [= <- _]; exact Hk].
    destruct (<[Entity_Id (conn_Entity c) := c]> (connections h) !! Entity_Id e);
      cbn; intros [= <- _]; apply (Hreg c).
Qed.

Lemma only_instances_conn_known {A} (m : MT A) :
  preserves only_instances m -> preserves keeps_conn_known m.
Proof.
  apply SDAProps.preserves_weaken. intros h h' (_&Hc&He&_). now apply same_conn_known.
Qed.

Lemma AddTree_conn_known (t : Tree) : preserves keeps_conn_known (AddTree' t).
Proof.
  eapply SDAProps.preserves_weaken; [|apply SDAProps.AddTree_beside_trees].
  intros h h' E. unfold keeps, beside_trees in E. injection E. intros.
  now apply same_conn_known.
Qed.

Lemma checkPendingTreeMarshal_loop_conn_known (el : EntityList) (sl : list TreeMarshal) :
  preserves keeps_conn_known
    (checkPendingTreeMarshal_loop protocols Token_Id MakeTree el sl : MT unit).
Proof.
  induction sl as [|tm sl IH]; simpl; repeat preserves_step;
    auto using AddTree_conn_known.
Qed.

Lemma ProcessMessages_turn_conn_known (data : NetworkMessage Payload) :
  preserves keeps_conn_known (ProcessMessages_turn' data).
Proof.
  unfold ProcessMessages_turn, processSDAMessage, requestTree, addPendingSda,
    GetEntityList, GetTree, AddEntityList,
    addPendingTreeMarshal, checkPendingTreeMarshal, lock_pendingTree, unlock_pendingTree.
  repeat preserves_step;
    try apply SendRaw_conn_known;
    try apply AddTree_conn_known;
    try apply checkPendingTreeMarshal_loop_conn_known;
    try (apply only_instances_conn_known;
         auto using SDAProps.checkPendingSDA_only_instances,
                    SDAProps.protocolInstantiate_only_instances,
                    SDAProps.DispatchToInstance_only_instances);
    try (apply same_conn_known; reflexivity).
Qed.

Lemma ProcessMessages_conn_known (incoming : list (NetworkMessage Payload * Constructors)) :
  preserves keeps_conn_known (ProcessMessages' incoming).
Proof.
  induction incoming as [|[data cs] rest IH]; simpl; repeat preserves_step; auto.
  apply ProcessMessages_turn_conn_known.
Qed.

#[local] Instance keeps_host_wf_preorder :
  PreOrder (@keeps_host_wf Payload ProtocolInstance).
Proof.
  split.
  - intros h H. exact H.
  - intros h1 h2 h3 H12 H23 H. apply H23, H12, H.
Qed.

Lemma keeps_host_wf_intro {A} (m : MT A) :
  preserves keeps_conn_wf m ->
  preserves keeps_pending_wf m ->
  preserves keeps_conn_known m ->
  preserves keeps_host_wf m.
Proof.
  intros H1 H2 H3 h h' r E (Hc & Hp & Hk).
  split; [eapply H1; eauto|]. split; [eapply H2; eauto | eapply H3; eauto].
Qed.

Lemma SendSDAToTreeNode_host_wf (from : option Token) (to : option TreeNode)
    (msg : option Payload) :
  preserves keeps_host_wf (SendSDAToTreeNode' from to msg).
Proof.
  apply keeps_host_wf_intro; unfold SendSDAToTreeNode, sendSDAData.
  - repeat preserves_step; try apply SDAProps.SendRaw_conn_wf.
  - repeat preserves_step; try apply SDAProps.SendRaw_pending_wf.
  - repeat preserves_step; try apply SendRaw_conn_known.
Qed.

(** X22. The tables of the host stay consistent. On a new host, and
    then through the dispatch loop on any frames, every [SendSDA] and
    [SendSDAToTreeNode], every [AddTree] and [Close], however they end:
    each connection of the table is registered under the identifier of
    the entity it leads to, that entity is in the table of entities,
    and every pending envelope has a recipient token. *)
Theorem host_tables_consistent :
  (forall e, host_wf (NewHost e : HostT)) /\
  (forall incoming, preserves keeps_host_wf (ProcessMessages' incoming)) /\
  (forall from to msg, preserves keeps_host_wf (SendSDA' from to msg)) /\
  (forall from to msg, preserves keeps_host_wf (SendSDAToTreeNode' from to msg)) /\
  (forall t, preserves keeps_host_wf (AddTree' t)) /\
  preserves keeps_host_wf Close'.
Proof.
  split; [|split; [|split; [|split; [|split]]]].
  - intros e. split; [apply SDAProps.NewHost_conn_wf|].
    split; [apply SDAProps.NewHost_pending_wf|].
    intros id [c Hc]. cbn in Hc. now rewrite lookup_empty in Hc.
  - intros incoming. apply keeps_host_wf_intro.
    + apply SDAProps.ProcessMessages_conn_wf.
    + apply SDAProps.ProcessMessages_pending_wf.
    + apply ProcessMessages_conn_known.
  - intros from to msg. unfold SendSDA, TreeNodeFromToken.
    repeat preserves_step. apply SendSDAToTreeNode_host_wf.
  - apply SendSDAToTreeNode_host_wf.
  - intros t. apply keeps_host_wf_intro.
    + apply SDAProps.AddTree_conn_wf.
    + apply SDAProps.AddTree_pending_wf.
    + apply AddTree_conn_known.
  - intros h h' r E (Hc & Hp & Hk).
    assert (Hh : connections h' = ∅ /\ pendingSDAs h' = pendingSDAs h).
    { revert E. unfold Close, bindM, gets, modify, ret, panic. cbn.
      destruct (closed h); cbn; intros E; inversion E; subst; split; reflexivity. }
    destruct Hh as [Hcs Hps]. split; [|split].
    + intros id c. rewrite Hcs, lookup_empty. discriminate.
    + unfold pending_wf. now rewrite Hps.
    + intros id. rewrite Hcs, lookup_empty. intros [c Hx]. discriminate.
Qed.

End MoreHostProps.

(** ** Starting a protocol *)

Section StartProps.
Context {Payload : Type} {ProtocolInstance : Type}.
Variable protocols : gmap UUID (TreeNode -> Token -> ProtocolInstance).
Variable Token_Id : Token -> UUID.
Variable Start : ProtocolInstance -> M Payload ProtocolInstance (option error).

Local Abbreviation HostT := (Host Payload ProtocolInstance).
Local Abbreviation LockedT := (LockedHost Payload ProtocolInstance).
Local Abbreviation GetTree_locked' := (@GetTree_locked Payload ProtocolInstance).
Local Abbreviation protocolInstantiate_locked' :=
  (@protocolInstantiate_locked Payload ProtocolInstance protocols Token_Id).
Local Abbreviation checkPendingSDA_loop_locked' :=
  (@checkPendingSDA_loop_locked Payload ProtocolInstance protocols Token_Id).
Local Abbreviation AddTree_locked' :=
  (@AddTree_locked Payload ProtocolInstance protocols Token_Id).
Local Abbreviation StartNewProtocol' :=
  (@StartNewProtocol Payload ProtocolInstance protocols Token_Id Start).

Lemma GetTree_locked_free (id : UUID) (h : HostT) :
  GetTree_locked' id (unlocked h) = (unlocked h, Returned (trees h !! id)).
Proof. reflexivity. Qed.

Lemma liftL_unlocked {A} (m : M Payload ProtocolInstance A) (h : HostT) :
  liftL m (unlocked h) = (unlocked (fst (m h)), snd (m h)).
Proof. unfold liftL. cbn. now destruct (m h). Qed.

Lemma protocolInstantiate_locked_free (tok : Token) (tn : option TreeNode) (h : HostT) :
  protocolInstantiate_locked' tok tn (unlocked h) =
    liftL (protocolInstantiate protocols Token_Id tok tn) (unlocked h).
Proof.
  rewrite liftL_unlocked.
  unfold protocolInstantiate_locked, protocolInstantiate, GetTree_locked, GetTree,
    GetEntityList.
  destruct (protocols !! ProtocolID tok) as [p|]; [|reflexivity].
  unfold bindL, bindM, liftL, lock_trees, unlock_trees, gets, modify, retL, ret, panic,
    RegisterProtocolInstance.
  cbn -[IsInTree].
  destruct (trees h !! TreeID tok) as [tree|]; [|reflexivity]. cbn -[IsInTree].
  destruct (entityLists h !! EntityListID tok) as [il|]; [|reflexivity]. cbn -[IsInTree].
  destruct (IsInTree tn tree); cbn; [|reflexivity].
  destruct tn as [n|]; reflexivity.
Qed.

Lemma checkPendingSDA_loop_locked_free (t : Tree) (l : list (SDAData Payload)) (h : HostT) :
  checkPendingSDA_loop_locked' t l (unlocked h) =
    liftL (checkPendingSDA_loop protocols Token_Id t l) (unlocked h).
Proof.
  revert h. induction l as [|sda l IH]; intros h; [reflexivity|].
  cbn [checkPendingSDA_loop_locked checkPendingSDA_loop].
  destruct (To sda) as [to|]; [|reflexivity].
  rewrite !liftL_unlocked.
  assert (Hstep : forall (k : LockedT * outcome unit) (k0 : HostT * outcome unit),
            k = (unlocked (fst k0), snd k0) ->
            match k with
            | (s', Returned _) => checkPendingSDA_loop_locked' t l s'
            | (s', Deadlock) => (s', Deadlock)
            | (s', Panicked) => (s', Panicked)
            | (s', Waiting) => (s', Waiting)
            end =
            (unlocked (fst (match k0 with
                            | (h', Returned _) => checkPendingSDA_loop protocols Token_Id t l h'
                            | (h', Deadlock) => (h', Deadlock)
                            | (h', Panicked) => (h', Panicked)
                            | (h', Waiting) => (h', Waiting)
                            end)),
             snd (match k0 with
                  | (h', Returned _) => checkPendingSDA_loop protocols Token_Id t l h'
                  | (h', Deadlock) => (h', Deadlock)
                  | (h', Panicked) => (h', Panicked)
                  | (h', Waiting) => (h', Waiting)
                  end))).
  { intros k [h0 [[]| | |]] ->; cbn [fst snd]; try reflexivity.
    rewrite IH. apply liftL_unlocked. }
  unfold bindL at 1, bindM at 1 2. apply Hstep.
  case_bool_decide; [|reflexivity].
  destruct (GetNode t (TreeNodeID to)) as [node|]; [|reflexivity].
  unfold bindL at 1. rewrite protocolInstantiate_locked_free, liftL_unlocked.
  unfold bindM at 1 2.
  destruct (protocolInstantiate protocols Token_Id to (Some node) h)
    as [h1 [[pi|err]| | |]]; cbn [fst snd]; try reflexivity.
  unfold bindL, bindM. rewrite liftL_unlocked.
  destruct (DispatchToInstance Token_Id sda h1) as [h2 [d| | |]]; reflexivity.
Qed.

Lemma AddTree_locked_free (t : Tree) (h : HostT) :
  AddTree_locked' t (unlocked h) =
    liftL (AddTree protocols Token_Id t) (unlocked h).
Proof.
  unfold AddTree_locked, AddTree, checkPendingSDA_locked, checkPendingSDA.
  unfold bindL at 1 2 3 4, lock_trees, unlock_trees, liftL at 1 2, modify at 1, gets at 1.
  cbn [unlocked treesLocked lh_host].
  change {| lh_host := ?x; treesLocked := false |} with (unlocked x).
  rewrite checkPendingSDA_loop_locked_free. reflexivity.
Qed.

(** X18. [treesLock] is released on every path of [GetTree],
    [protocolInstantiate] and [AddTree] (with the rescan of the pending
    envelopes it starts): called with the lock free they do to the host
    what they do when the lock is left out, and leave the lock free. *)
Theorem treesLock_released
    (h : HostT) (id : UUID) (tok : Token) (tn : option TreeNode) (t : Tree) :
  GetTree_locked' id (unlocked h) = (unlocked h, Returned (trees h !! id)) /\
  protocolInstantiate_locked' tok tn (unlocked h) =
    (unlocked (fst (protocolInstantiate protocols Token_Id tok tn h)),
     snd (protocolInstantiate protocols Token_Id tok tn h)) /\
  AddTree_locked' t (unlocked h) =
    (unlocked (fst (AddTree protocols Token_Id t h)),
     snd (AddTree protocols Token_Id t h)).
Proof.
  split; [reflexivity|]. split.
  - rewrite protocolInstantiate_locked_free. apply liftL_unlocked.
  - rewrite AddTree_locked_free. apply liftL_unlocked.
Qed.

(** X19. [StartNewProtocol] for a tree the host does not have returns
    "TreeId does not exists" with [treesLock] held: the host itself is
    as before, but from then on [GetTree], [AddTree],
    [protocolInstantiate] for a registered protocol and
    [StartNewProtocol] for a registered protocol park for ever on the
    lock. *)
Theorem StartNewProtocol_unknown_tree_holds_lock
    (h : HostT) (protocolID treeID round : UUID)
    (Hp : ProtocolExists protocols protocolID = true)
    (Htree : trees h !! treeID = None) :
  let s1 := {| lh_host := h; treesLocked := true |} in
  StartNewProtocol' protocolID treeID round (unlocked h) =
    (s1, Returned (inr (ErrMsg "TreeId does not exists"))) /\
  (forall id, GetTree_locked' id s1 = (s1, Deadlock)) /\
  (forall t, AddTree_locked' t s1 = (s1, Deadlock)) /\
  (forall tok tn,
     is_Some (protocols !! ProtocolID tok) ->
     protocolInstantiate_locked' tok tn s1 = (s1, Deadlock)) /\
  (forall protocolID' treeID' round',
     ProtocolExists protocols protocolID' = true ->
     StartNewProtocol' protocolID' treeID' round' s1 = (s1, Deadlock)).
Proof.
  intros s1. split; [|split; [|split; [|split]]].
  - unfold StartNewProtocol. rewrite Hp. cbn [negb].
    unfold bindL, lock_trees, liftL, gets. cbn. now rewrite Htree.
  - reflexivity.
  - reflexivity.
  - intros tok tn [p Hp']. unfold protocolInstantiate_locked. rewrite Hp'. reflexivity.
  - intros protocolID' treeID' round' Hp'. unfold StartNewProtocol. rewrite Hp'. reflexivity.
Qed.

Lemma Root_IsInTree (tree : Tree) : IsInTree (Some (Root tree)) tree = true.
Proof.
  unfold IsInTree, GetNode. destruct (Root tree) as [i e cs]. cbn.
  now rewrite bool_decide_eq_true_2.
Qed.

(** X20. What [StartNewProtocol] does otherwise. For a protocol that
    is not registered it returns "Protocol does not exists" and touches
    nothing. For a tree the host has, it builds a token of the given
    protocol, the tree and its roster and a new round, with no tree
    node ([TreeNodeID] is [nil]): when the host does not have the
    roster of the tree it returns "EntityList does not exists" with the
    host as before and the lock free; when it has it, the protocol's
    constructor is called once, for the root of the tree and this
    token, the instance is registered under the token, and [Start] is
    called on it. The result is the instance when [Start] returns no
    error and the error of [Start] otherwise; the instance stays
    registered in both cases. *)
Theorem StartNewProtocol_outcomes
    (h : HostT) (protocolID treeID round : UUID) :
  (forall s,
     ProtocolExists protocols protocolID = false ->
     StartNewProtocol' protocolID treeID round s =
       (s, Returned (inr (ErrMsg "Protocol does not exists")))) /\
  (forall tree,
     ProtocolExists protocols protocolID = true ->
     trees h !! treeID = Some tree ->
     entityLists h !! EntityList_Id (Tree_EntityList tree) = None ->
     StartNewProtocol' protocolID treeID round (unlocked h) =
       (unlocked h, Returned (inr (ErrMsg "EntityList does not exists")))) /\
  (forall tree il p,
     protocols !! protocolID = Some p ->
     trees h !! treeID = Some tree ->
     entityLists h !! EntityList_Id (Tree_EntityList tree) = Some il ->
     let token := start_token protocolID treeID round tree in
     let pi := p (Root tree) token in
     let h1 := set_mapper (record_instance h token)
                 {| instances := <[Token_Id token := pi]> (instances (mapper h)) |} in
     TreeNodeID token = uuid_Nil /\
     instances (mapper h1) !! Token_Id token = Some pi /\
     instantiated h1 = instantiated h ++ [token] /\
     (forall h2,
        Start pi h1 = (h2, Returned None) ->
        StartNewProtocol' protocolID treeID round (unlocked h) =
          (unlocked h2, Returned (inl pi))) /\
     (forall h2 err,
        Start pi h1 = (h2, Returned (Some err)) ->
        StartNewProtocol' protocolID treeID round (unlocked h) =
          (unlocked h2, Returned (inr err)))).
Proof.
  split; [|split].
  - intros s Hp. unfold StartNewProtocol. now rewrite Hp.
  - intros tree Hp Htree Hil. unfold StartNewProtocol. rewrite Hp. cbn [negb].
    unfold bindL at 1 2, lock_trees, liftL at 1, gets at 1.
    cbn [unlocked treesLocked lh_host]. rewrite Htree.
    unfold bindL at 1 2, unlock_trees. cbn [lh_host].
    change {| lh_host := h; treesLocked := false |} with (unlocked h).
    rewrite protocolInstantiate_locked_free, liftL_unlocked.
    unfold protocolInstantiate, GetTree, GetEntityList.
    unfold ProtocolExists in Hp. apply bool_decide_eq_true_1 in Hp as [p Hp].
    cbn [start_token ProtocolID TreeID EntityListID]. rewrite Hp.
    unfold bindM, gets, ret. rewrite Htree, Hil. reflexivity.
  - intros tree il p Hp Htree Hil token pi h1.
    split; [reflexivity|]. split; [cbn; apply lookup_insert_eq|].
    split; [reflexivity|].
    assert (Hex : ProtocolExists protocols protocolID = true).
    { unfold ProtocolExists. apply bool_decide_eq_true_2. eauto. }
    assert (E : StartNewProtocol' protocolID treeID round (unlocked h) =
        match Start pi h1 with
        | (h2, Returned None) => (unlocked h2, Returned (inl pi))
        | (h2, Returned (Some err)) => (unlocked h2, Returned (inr err))
        | (h2, Deadlock) => (unlocked h2, Deadlock)
        | (h2, Panicked) => (unlocked h2, Panicked)
        | (h2, Waiting) => (unlocked h2, Waiting)
        end).
    { unfold StartNewProtocol. rewrite Hex. cbn [negb].
      unfold bindL at 1 2, lock_trees, liftL at 1, gets at 1.
      cbn [unlocked treesLocked lh_host]. rewrite Htree.
      unfold bindL at 1 2, unlock_trees. cbn [lh_host].
      change {| lh_host := h; treesLocked := false |} with (unlocked h).
      rewrite protocolInstantiate_locked_free, liftL_unlocked.
      assert (Ei : protocolInstantiate protocols Token_Id
                     (start_token protocolID treeID round tree) (Some (Root tree)) h =
                   (h1, Returned (inl pi))).
      { unfold protocolInstantiate, GetTree, GetEntityList.
        cbn [start_token ProtocolID TreeID EntityListID]. rewrite Hp.
        unfold bindM at 1, gets at 1. rewrite Htree.
        unfold bindM at 1, gets at 1. rewrite Hil.
        rewrite Root_IsInTree. reflexivity. }
      rewrite Ei. cbn [fst snd]. unfold bindL. rewrite liftL_unlocked.
      fold token. fold pi.
      destruct (Start pi h1) as [h2 [[err|]| | |]]; reflexivity. }
    split.
    + intros h2 Hs. rewrite E, Hs. reflexivity.
    + intros h2 err Hs. rewrite E, Hs. reflexivity.
Qed.

End StartProps.

End SDAMoreProps.

(** * Properties of the log paddings *)
Module DebugLvlProps.
Import DebugLvl.

Lemma len_nonneg (s : string) : 0 <= str_len s.
Proof. unfold str_len. lia. Qed.

Lemma longest_nonneg (names : list string) : 0 <= longest names.
Proof.
  unfold longest. induction names as [|n names IH]; cbn [fmap list_fmap foldr]; [lia|].
  fold (@fmap list _ _ _ str_len names). lia.
Qed.

Lemma Lvl_paddings_name (st : Paddings) (name : string) (line : Z) :
  NamePadding (Lvl_paddings st name line) =
    if bool_decide (0 < NamePadding st) then Z.max (NamePadding st) (str_len name)
    else NamePadding st.
Proof.
  unfold Lvl_paddings. cbn [NamePadding].
  repeat case_bool_decide; cbn; lia.
Qed.

Lemma Lvl_run_name (calls : list (string * Z)) (st : Paddings) :
  NamePadding (Lvl_run st calls) =
    if bool_decide (0 < NamePadding st)
    then Z.max (NamePadding st) (longest (fst <$> calls))
    else NamePadding st.
Proof.
  revert st. induction calls as [|[name line] calls IH]; intros st.
  - unfold Lvl_run, longest. cbn [foldl fmap list_fmap foldr].
    case_bool_decide; lia.
  - change (Lvl_run st ((name, line) :: calls))
      with (Lvl_run (Lvl_paddings st name line) calls).
    rewrite IH, Lvl_paddings_name. unfold longest. cbn [fmap list_fmap foldr fst].
    fold (longest (fst <$> calls)).
    pose proof (len_nonneg name). pose proof (longest_nonneg (fst <$> calls)).
    repeat case_bool_decide; lia.
Qed.

Lemma Lvl_run_line (calls : list (string * Z)) (st : Paddings) :
  LinePadding (Lvl_run st calls) = LinePadding st \/
  exists name line, (name, line) ∈ calls /\ LinePadding (Lvl_run st calls) = str_len name.
Proof.
  revert st. induction calls as [|[name line] calls IH]; intros st; [now left|].
  change (Lvl_run st ((name, line) :: calls))
    with (Lvl_run (Lvl_paddings st name line) calls).
  destruct (IH (Lvl_paddings st name line)) as [E|(n & l & Hin & E)].
  - rewrite E. unfold Lvl_paddings. cbn [LinePadding].
    destruct (_ && _); [|now left].
    right. exists name, line. split; [apply elem_of_cons; now left | reflexivity].
  - right. exists n, l. split; [apply elem_of_cons; now right | exact E].
Qed.

(** X21. The paddings of the log lines over any run of calls of [Lvl].
    A [NamePadding] that is positive grows to the length of the longest
    function name seen and never shrinks; one that is not positive is
    left alone. [LinePadding] is never set from a line number: after
    the run it is what it was or the length of the name of one of the
    callers (the update for a line number that does not fit takes
    [len(name)]), and when a line number does not fit in a positive
    [LinePadding] the call sets it to the length of the name, also when
    that is smaller. *)
Theorem paddings_follow_names (st : Paddings) (calls : list (string * Z)) :
  NamePadding (Lvl_run st calls) =
    (if bool_decide (0 < NamePadding st)
     then Z.max (NamePadding st) (longest (fst <$> calls))
     else NamePadding st) /\
  (LinePadding (Lvl_run st calls) = LinePadding st \/
   exists name line, (name, line) ∈ calls /\ LinePadding (Lvl_run st calls) = str_len name) /\
  (forall name line,
     0 < LinePadding st < str_len (pretty line) ->
     LinePadding (Lvl_paddings st name line) = str_len name) /\
  (forall name line,
     LinePadding st <= 0 \/ str_len (pretty line) <= LinePadding st ->
     LinePadding (Lvl_paddings st name line) = LinePadding st).
Proof.
  split; [apply Lvl_run_name|]. split; [apply Lvl_run_line|]. split.
  - intros name line H. unfold Lvl_paddings. cbn [LinePadding].
    rewrite !bool_decide_eq_true_2 by lia. reflexivity.
  - intros name line H. unfold Lvl_paddings. cbn [LinePadding].
    repeat case_bool_decide; cbn; try reflexivity; lia.
Qed.

End DebugLvlProps.

(** * The new properties at concrete runs *)
Module LocalScenario.
Import Local LocalMore LocalExample.

(** The incoming end of the connection from [local://a] to
    [local://b]. *)
Local Abbreviation connBA :=
  {| local := ("local://b", 1); remote := ("local://a", 0); lcQueue := 1%nat |}.

Lemma connected_linked : linked connected connAB connBA.
Proof.
  unfold linked. repeat split; try (vm_compute; reflexivity); try discriminate.
  all: vm_compute; lia.
Defined.

Lemma connected_fresh : uids_fresh (manager connected).
Proof.
  split; [vm_compute; split; [discriminate | reflexivity]|].
  assert (Hq : queues (manager connected) =
               <[("local://b", 1) := 1%nat]> (<[("local://a", 0) := 0%nat]> ∅))
    by (vm_compute; reflexivity).
  assert (Hb : baseUID (manager connected) = 2) by (vm_compute; reflexivity).
  intros e q. rewrite Hq, Hb. intros H.
  apply lookup_insert_Some in H as [[<- _]|[_ H]]; [simpl; lia|].
  apply lookup_insert_Some in H as [[<- _]|[_ H]]; [simpl; lia|].
  now rewrite lookup_empty in H.
Defined.

(** A queue that holds 5 takes 6 and 7 and hands out 5, 6, 7, then
    waits. *)
Lemma connQueue_fifo_witness :
  isClosed {| queue := [packet_of TypeFromData 5%nat]; isClosed := false |} = false /\
  run_ops 0%nat {| queue := [packet_of TypeFromData 5%nat]; isClosed := false |}
    [OpPush (packet_of TypeFromData 6%nat); OpPush (packet_of TypeFromData 7%nat);
     OpPop; OpPop; OpPop; OpPop] =
  ({| queue := []; isClosed := false |},
   [PopPacket (packet_of TypeFromData 5%nat); PopPacket (packet_of TypeFromData 6%nat);
    PopPacket (packet_of TypeFromData 7%nat); PopWait]).
Proof.
  split; [reflexivity|].
  apply (LocalMoreProps.connQueue_fifo 0%nat
           {| queue := [packet_of TypeFromData 5%nat]; isClosed := false |}
           [packet_of TypeFromData 6%nat; packet_of TypeFromData 7%nat]).
  reflexivity.
Defined.

(** [local://a] sends 5, 6, 7; [local://b] receives 5, 6, 7. *)
Lemma send_receive_in_order_witness :
  linked connected connAB connBA /\
  store connected !! lcQueue connBA = Some {| queue := []; isClosed := false |} /\
  snd (ReceiveN 0%nat (fst (SendAll TypeFromData connected connAB [5; 6; 7]%nat)) connBA 3) =
    [PopPacket (packet_of TypeFromData 5%nat); PopPacket (packet_of TypeFromData 6%nat);
     PopPacket (packet_of TypeFromData 7%nat)].
Proof.
  assert (H : store connected !! lcQueue connBA =
              Some {| queue := ([] : list (Packet Body)); isClosed := false |})
    by (vm_compute; reflexivity).
  split; [exact connected_linked|]. split; [exact H|].
  destruct (LocalMoreProps.send_receive_in_order TypeFromData 0%nat connected connAB connBA
              [] [5; 6; 7]%nat connected_linked H) as (_ & E & _).
  exact E.
Defined.

(** The connection of [local://a] to the listening [local://b]. *)
Lemma connect_links_witness :
  listening (manager world0) !! "local://b" = Some 1%nat /\
  snd (connect world0 "local://a" "local://b") = inl connAB /\
  linked connected connAB connBA.
Proof.
  assert (H : listening (manager world0) !! "local://b" = Some 1%nat)
    by (vm_compute; reflexivity).
  split; [exact H|].
  destruct (LocalMoreProps.connect_links world0 "local://a" "local://b" 1%nat H)
    as (E1 & _ & E3 & _).
  split; [exact E1 | exact E3].
Defined.

(** Closing the end of [local://a] closes the end of [local://b]. *)
Lemma Close_closes_both_ends_witness :
  linked connected connAB connBA /\
  store connected !! lcQueue connAB = Some newConnQueue /\
  store connected !! lcQueue connBA = Some newConnQueue /\
  len (manager (fst (LocalConn_Close connected connAB))) = 0%nat /\
  snd (LocalConn_Receive 0%nat (fst (LocalConn_Close connected connAB)) connBA) =
    closed_error 0%nat /\
  snd (LocalConn_Send TypeFromData (fst (LocalConn_Close connected connAB)) connBA 7%nat) =
    Some ErrClosed.
Proof.
  assert (Ha : store connected !! lcQueue connAB = Some (@newConnQueue Body))
    by (vm_compute; reflexivity).
  assert (Hb : store connected !! lcQueue connBA = Some (@newConnQueue Body))
    by (vm_compute; reflexivity).
  split; [exact connected_linked|]. split; [exact Ha|]. split; [exact Hb|].
  destruct (LocalMoreProps.Close_closes_both_ends TypeFromData 0%nat connected connAB connBA
              newConnQueue newConnQueue connected_linked Ha Hb)
    as (_ & _ & Hlen & _ & _ & _ & Hrecv & _ & Hsend).
  split; [|split].
  - assert (H2 : len (manager connected) = 2%nat) by (vm_compute; reflexivity).
    rewrite H2 in Hlen. lia.
  - exact (f_equal snd Hrecv).
  - exact (f_equal snd (Hsend 7%nat)).
Defined.

(** The first connection on a new manager takes the identifiers 0
    and 1. *)
Lemma connect_fresh_endpoints_witness :
  uids_fresh (manager world0) /\
  baseUID (manager world0) + 2 < uint64_modulus /\
  listening (manager world0) !! "local://b" = Some 1%nat /\
  baseUID (manager connected) = 2 /\
  len (manager connected) = 2%nat /\
  uids_fresh (manager connected).
Proof.
  assert (H1 : uids_fresh (manager world0)).
  { split; [vm_compute; split; [discriminate | reflexivity]|].
    intros e q H. vm_compute in H. discriminate H. }
  assert (H2 : baseUID (manager world0) + 2 < uint64_modulus) by (vm_compute; reflexivity).
  assert (H3 : listening (manager world0) !! "local://b" = Some 1%nat)
    by (vm_compute; reflexivity).
  split; [exact H1|]. split; [exact H2|]. split; [exact H3|].
  destruct (LocalMoreProps.connect_fresh_endpoints world0 "local://a" "local://b" 1%nat
              H1 H2 H3) as (_ & _ & _ & E4 & E5 & E6).
  split; [exact E4|]. split; [exact E5 | exact E6].
Defined.

(** After the close, and after [local://c] connected twice to
    [local://b], the old connection is still closed. *)
Lemma closed_connection_stays_closed_witness :
  uids_fresh (manager connected) /\
  linked connected connAB connBA /\
  baseUID (manager connected) + 2 * 2 < uint64_modulus /\
  snd (LocalConn_Send TypeFromData
         (ConnectAll (fst (LocalConn_Close connected connAB))
            [("local://c", "local://b"); ("local://c", "local://b")])
         connAB 7%nat) = Some ErrClosed.
Proof.
  assert (H3 : baseUID (manager connected) +
               2 * Z.of_nat (length [("local://c", "local://b"); ("local://c", "local://b")])
               < uint64_modulus) by (vm_compute; reflexivity).
  split; [exact connected_fresh|]. split; [exact connected_linked|].
  split; [vm_compute; reflexivity|].
  destruct (LocalMoreProps.closed_connection_stays_closed TypeFromData connected
              connAB connBA [("local://c", "local://b"); ("local://c", "local://b")] 7%nat
              connected_fresh connected_linked H3) as [E _].
  exact (f_equal snd E).
Defined.

(** A listener on [local://c], on the manager on which [local://b]
    listens. *)
Lemma listener_lifecycle_witness :
  AddrConnType "local://c" = LocalType /\
  listening (manager world0) !! "local://c" = None /\
  isListening
    (fst (Listen (manager world0)
            (fst (NewLocalListenerWithManager AddrConnType (manager world0) "local://c"))
            2%nat))
    "local://c" = true /\
  fst (Stop
         (fst (Listen (manager world0)
                 (fst (NewLocalListenerWithManager AddrConnType (manager world0) "local://c"))
                 2%nat))
         (snd (Listen (manager world0)
                 (fst (NewLocalListenerWithManager AddrConnType (manager world0) "local://c"))
                 2%nat))) = manager world0.
Proof.
  assert (H1 : AddrConnType "local://c" = LocalType) by reflexivity.
  assert (H2 : listening (manager world0) !! "local://c" = None)
    by (vm_compute; reflexivity).
  split; [exact H1|]. split; [exact H2|].
  destruct (LocalMoreProps.listener_lifecycle AddrConnType world0 "local://c" "local://a"
              2%nat H1 H2) as (_ & _ & E3 & _ & _ & E6 & _).
  split; [exact E3 | exact E6].
Defined.

Local Abbreviation hostAtA :=
  {| lh_addr := "local://a";
     lh_listener := {| addr := "local://a"; ll_listening := false |} |}.

(** [Connect] of the host at [local://a], with three attempts: to the
    listening [local://b] the first attempt succeeds; to [local://c],
    where nobody listens, all three fail. *)
Lemma LocalHost_Connect_retries_witness :
  LocalHost_Connect AddrConnType 3 (fun w => w)
    hostAtA
    "local://b" world0 = (connected, (Some connAB, None)) /\
  LocalHost_Connect AddrConnType 3 (fun w => w)
    hostAtA
    "local://c" world0 =
    (world0,
     (None, Some (ErrMsg "local://a can't connect to local://c: it's not listening"))).
Proof.
  assert (Hatt : forall k, attempt (fun w : World Body Callback => w) world0 k = world0).
  { induction k as [|k IH]; [reflexivity | exact IH]. }
  split.
  - destruct (LocalMoreProps.LocalHost_Connect_retries AddrConnType 3 (fun w => w)
                hostAtA "local://b" world0) as [_ H].
    destruct (H eq_refl) as (Hok & _).
    destruct (Hok 0%nat 1%nat) as (c & Ec & E).
    + lia.
    + intros j Hj. lia.
    + vm_compute. reflexivity.
    + assert (Hc : c = connAB) by (vm_compute in Ec; now injection Ec as <-).
      rewrite E, Hc. reflexivity.
  - destruct (LocalMoreProps.LocalHost_Connect_retries AddrConnType 3 (fun w => w)
                hostAtA "local://c" world0) as [_ H].
    destruct (H eq_refl) as (_ & Hfail & _).
    rewrite Hfail.
    + now rewrite Hatt.
    + lia.
    + intros k. rewrite Hatt. vm_compute. reflexivity.
Defined.

End LocalScenario.

Module HostScenario.
Import SDA SDASpec SDAMore Example.
Local Open Scope N_scope.

(** The instances of this cothority start without an error and leave
    the host alone. *)
Local Abbreviation Start :=
  (fun _ : ProtocolInstance => ret (@None error) : M Payload ProtocolInstance (option error)).
Local Abbreviation StartNewProtocol :=
  (@SDAMore.StartNewProtocol Payload ProtocolInstance protocols Token_Id Start).

(** The host of A reaches [entityB] at its first send, and reuses the
    connection at the second. *)
Lemma SendRaw_connects_once_witness :
  entities hostA !! Entity_Id entityB = None /\
  snd (SendRaw Open entityB (Some (RequestTreeMessage 20)) hostA) = Returned None /\
  net (fst (SendRaw Open entityB (Some (RequestTreeMessage 20)) hostA)) =
    [NetHandleConn {| conn_Entity := entityB; conn_Remote := "local" |};
     NetSend {| conn_Entity := entityB; conn_Remote := "local" |} (RequestTreeMessage 20)] /\
  SendRaw Open entityB (Some (RequestTreeMessage 21))
    (fst (SendRaw Open entityB (Some (RequestTreeMessage 20)) hostA)) =
    (emit (fst (SendRaw Open entityB (Some (RequestTreeMessage 20)) hostA))
       [NetSend {| conn_Entity := entityB; conn_Remote := "local" |} (RequestTreeMessage 21)],
     Returned None).
Proof.
  assert (H : entities hostA !! Entity_Id entityB = None) by (vm_compute; reflexivity).
  split; [exact H|].
  destruct (SDAMoreProps.SendRaw_connects_once Open hostA entityB
              (RequestTreeMessage 20) (RequestTreeMessage 21)) as (_ & Hfirst & _).
  destruct (Hfirst {| conn_Entity := entityB; conn_Remote := "local" |} H eq_refl eq_refl)
    as (E1 & _ & _ & E4 & _ & E6).
  split; [exact E1|]. split; [exact E4 | exact E6].
Defined.

(** Once closed, the host of A cannot send to [entityB] any more. *)
Lemma SendRaw_after_Close_witness :
  closed hostA_sent = false /\
  entities hostA_sent !! Entity_Id entityB = Some entityB /\
  snd (SendRaw Open entityB (Some (RequestTreeMessage 20)) (fst (Close hostA_sent))) =
    Returned (Some (ErrMsg "Got no connection tied to this Entity")) /\
  net (fst (SendRaw Open entityB (Some (RequestTreeMessage 20)) (fst (Close hostA_sent)))) =
    net (fst (Close hostA_sent)).
Proof.
  assert (H1 : closed hostA_sent = false) by reflexivity.
  assert (H2 : entities hostA_sent !! Entity_Id entityB = Some entityB)
    by (vm_compute; reflexivity).
  split; [exact H1|]. split; [exact H2|].
  pose proof (SDAMoreProps.SendRaw_after_Close Open HostClose hostA_sent entityB entityB
                (RequestTreeMessage 20) H1 H2) as E.
  cbv zeta in E. unfold Close. rewrite E. split; reflexivity.
Defined.

(** Closing the host of A twice. *)
Lemma Close_twice_panics_witness :
  closed hostA_sent = false /\
  snd (Close (fst (Close hostA_sent))) = Panicked.
Proof.
  assert (H1 : closed hostA_sent = false) by reflexivity.
  split; [exact H1|].
  destruct (SDAMoreProps.Close_twice_panics HostClose hostA_sent H1) as (E & _).
  exact E.
Defined.

(** The host of A is asked for the tree 20, which it has, and for the
    roster 11, which it has not. *)
Lemma requests_are_answered_witness :
  net_extends (sends_frame (SendTreeMessage (MakeTreeMarshal tree))) hostA
    (fst (ProcessMessages_turn
            {| nm_Entity := entityB; nm_From := "local://b";
               nm_Msg := RequestTreeMessage 20 |} hostA)) /\
  net_extends (sends_frame (SendEntityListMessage EmptyEntityList)) hostA
    (fst (ProcessMessages_turn
            {| nm_Entity := entityB; nm_From := "local://b";
               nm_Msg := RequestEntityListMessage 11 |} hostA)) /\
  ProcessMessages_turn (fromA (SendEntityListMessage EmptyEntityList)) hostB =
    (hostB, Returned tt).
Proof.
  split; [|split].
  - destruct (SDAMoreProps.requests_are_answered protocols Token_Id Open tt
                UnmarshalRegisteredType MakeTree MakeTreeMarshal EmptyTreeMarshal hostA
                {| nm_Entity := entityB; nm_From := "local://b";
                   nm_Msg := RequestTreeMessage 20 |}) as (H & _).
    destruct (H 20 eq_refl) as (_ & _ & E & _). exact E.
  - destruct (SDAMoreProps.requests_are_answered protocols Token_Id Open tt
                UnmarshalRegisteredType MakeTree MakeTreeMarshal EmptyTreeMarshal hostA
                {| nm_Entity := entityB; nm_From := "local://b";
                   nm_Msg := RequestEntityListMessage 11 |}) as (_ & H & _).
    destruct (H 11 eq_refl) as (_ & _ & E & _). exact E.
  - destruct (SDAMoreProps.requests_are_answered protocols Token_Id Open tt
                UnmarshalRegisteredType MakeTree MakeTreeMarshal EmptyTreeMarshal hostB
                (fromA (SendEntityListMessage EmptyEntityList))) as (_ & _ & H & _).
    exact (H eq_refl).
Defined.

(** The host of B gets the roster 10 while no tree waits for it, and
    then the roster 11: the dispatch loop is parked for ever. *)
Lemma roster_without_pending_tree_blocks_witness :
  nm_Msg (fromA (SendEntityListMessage roster)) = SendEntityListMessage roster /\
  EntityList_Id roster <> uuid_Nil /\
  pendingTreeLocked hostB = false /\
  pendingTreeMarshal hostB !! EntityList_Id roster = None /\
  snd (ProcessMessages
         [(fromA (SendEntityListMessage roster), tt);
          (fromA (SendEntityListMessage otherRoster), tt)] hostB) = Deadlock.
Proof.
  assert (H1 : nm_Msg (fromA (SendEntityListMessage roster)) = SendEntityListMessage roster)
    by reflexivity.
  assert (H2 : EntityList_Id roster <> uuid_Nil) by discriminate.
  assert (H3 : pendingTreeLocked hostB = false) by reflexivity.
  assert (H4 : pendingTreeMarshal hostB !! EntityList_Id roster = None)
    by (vm_compute; reflexivity).
  split; [exact H1|]. split; [exact H2|]. split; [exact H3|]. split; [exact H4|].
  destruct (SDAMoreProps.roster_without_pending_tree_blocks protocols Token_Id Open tt
              UnmarshalRegisteredType MakeTree MakeTreeMarshal EmptyTreeMarshal hostB
              (fromA (SendEntityListMessage roster)) tt roster H1 H2 H3 H4)
    as (_ & _ & _ & Hloop).
  destruct (Hloop (fromA (SendEntityListMessage otherRoster)) tt []) as [E _].
  - left. exists otherRoster. split; [reflexivity | discriminate].
  - exact E.
Defined.

Local Abbreviation noRecipient :=
  ({| To := None; From := Some tokenA; MsgType := 42; MsgSlice := [];
      Msg := None; sda_Entity := None |} : SDAData Payload).

(** An envelope without a recipient token panics the host of B. *)
Lemma envelope_without_recipient_panics_witness :
  To noRecipient = None /\
  ProcessMessages
    [(fromA (SDADataMessage noRecipient), tt);
     (fromA (SendEntityListMessage roster), tt)] hostB = (hostB, Panicked).
Proof.
  split; [reflexivity|].
  apply (SDAMoreProps.envelope_without_recipient_panics protocols Token_Id Open tt
           UnmarshalRegisteredType MakeTree MakeTreeMarshal EmptyTreeMarshal hostB
           (fromA (SDADataMessage noRecipient)) tt noRecipient); reflexivity.
Defined.

(** The host of A sends from [tokenA] to [tokenB]. *)
Lemma SendSDA_resolves_recipient_witness :
  trees hostA !! TreeID tokenB = Some tree /\
  GetNode tree (TreeNodeID tokenB) = Some nodeB /\
  SendSDA (Some tokenA) (Some tokenB) (Some 3%nat) hostA =
    SendSDAToTreeNode (Some tokenA) (Some nodeB) (Some 3%nat) hostA /\
  SendSDA (Some tokenA)
    (Some {| ProtocolID := 7; EntityListID := 10; TreeID := 99; RoundID := 30;
             TreeNodeID := 22 |})
    (Some 3%nat) hostA = (hostA, Returned (Some (ErrMsg "Didn't find tree"))).
Proof.
  assert (H1 : trees hostA !! TreeID tokenB = Some tree) by (vm_compute; reflexivity).
  assert (H2 : GetNode tree (TreeNodeID tokenB) = Some nodeB) by (vm_compute; reflexivity).
  split; [exact H1|]. split; [exact H2|]. split.
  - destruct (SDAMoreProps.SendSDA_resolves_recipient Token_Id Open error_text
                MarshalRegisteredType TypeFromData hostA (Some tokenA) tokenB (Some 3%nat))
      as (_ & _ & H).
    destruct (H tree nodeB H1 H2) as (E & _). exact E.
  - destruct (SDAMoreProps.SendSDA_resolves_recipient Token_Id Open error_text
                MarshalRegisteredType TypeFromData hostA (Some tokenA)
                {| ProtocolID := 7; EntityListID := 10; TreeID := 99; RoundID := 30;
                   TreeNodeID := 22 |} (Some 3%nat)) as (H & _).
    apply H. vm_compute. reflexivity.
Defined.

Local Abbreviation toA :=
  ({| To := Some tokenA; From := Some tokenB; MsgType := 42;
      MsgSlice := replicate 4 Byte.x01; Msg := None; sda_Entity := None |}
   : SDAData Payload).
Local Abbreviation fromB :=
  ({| nm_Entity := entityB; nm_From := "local://b"; nm_Msg := OtherMessage 0 |}
   : NetworkMessage Payload).


(** The host of B, which has the roster but not the tree 20, is asked
    to start the protocol 7 on that tree; after that it cannot look a
    tree up any more. *)
Lemma StartNewProtocol_unknown_tree_holds_lock_witness :
  ProtocolExists protocols 7 = true /\
  trees hostB_roster !! 20 = None /\
  StartNewProtocol 7 20 31 (unlocked hostB_roster) =
    ({| lh_host := hostB_roster; treesLocked := true |},
     Returned (inr (ErrMsg "TreeId does not exists"))) /\
  snd (GetTree_locked 20 (fst (StartNewProtocol 7 20 31 (unlocked hostB_roster)))) =
    Deadlock.
Proof.
  assert (H1 : ProtocolExists protocols 7 = true) by (vm_compute; reflexivity).
  assert (H2 : trees hostB_roster !! 20 = None) by (vm_compute; reflexivity).
  split; [exact H1|]. split; [exact H2|].
  destruct (SDAMoreProps.StartNewProtocol_unknown_tree_holds_lock protocols Token_Id Start
              hostB_roster 7 20 31 H1 H2) as (E & Hget & _).
  split; [exact E|]. rewrite E. cbn [fst]. now rewrite Hget.
Defined.

(** The host of A starts the protocol 7 on its tree 20. *)
Lemma StartNewProtocol_outcomes_witness :
  protocols !! 7 = Some newInstance /\
  trees hostA !! 20 = Some tree /\
  entityLists hostA !! EntityList_Id (Tree_EntityList tree) = Some roster /\
  snd (StartNewProtocol 7 20 31 (unlocked hostA)) =
    Returned (inl (newInstance nodeA (start_token 7 20 31 tree))) /\
  snd (StartNewProtocol 8 20 31 (unlocked hostA)) =
    Returned (inr (ErrMsg "Protocol does not exists")).
Proof.
  assert (H1 : protocols !! 7 = Some newInstance) by (vm_compute; reflexivity).
  assert (H2 : trees hostA !! 20 = Some tree) by (vm_compute; reflexivity).
  assert (H3 : entityLists hostA !! EntityList_Id (Tree_EntityList tree) = Some roster)
    by (vm_compute; reflexivity).
  split; [exact H1|]. split; [exact H2|]. split; [exact H3|]. split.
  - destruct (SDAMoreProps.StartNewProtocol_outcomes protocols Token_Id Start
                hostA 7 20 31) as (_ & _ & H).
    destruct (H tree roster newInstance H1 H2 H3) as (_ & _ & _ & Hok & _).
    erewrite Hok; reflexivity.
  - destruct (SDAMoreProps.StartNewProtocol_outcomes protocols Token_Id Start
                hostA 8 20 31) as (H & _).
    rewrite H; [reflexivity|]. vm_compute. reflexivity.
Defined.

End HostScenario.
